(** * PaymentDataAI client: realtime session layer and response rendering

    A shallow embedding of the browser client's core:
    - [client/src/utils/markdownUtils] (text utilities, table renderer,
      HTML sanitizer),
    - [client/src/hooks/useSocket.js] (connection and session manager),
    - [client/src/App.jsx] (conversation controller),
    - [client/src/components/response/DataSummaryResult.jsx] (response
      display), [client/src/components/InputSection.jsx] (input form) and
      [client/src/components/Header.jsx] (connection indicator),
    followed by the properties of the design document that concern them.

    Conventions.  A JavaScript string is a Rocq [string]: the strings of
    code units U+0000 to U+00FF, character [n] standing for the code unit
    [n].  Every character-level operation (white space, case mapping, HTML
    escaping) is the ECMAScript/HTML one on that range.  The range is closed
    under all of them but one: the upper-case forms of U+00B5 and U+00FF lie
    outside it, and what depends on them is stated for texts without these
    two code units ([Js.upperInRange]).  Values whose type the source tests
    at run time are elements of [Js.value].  React state is a record that
    every handler takes and returns; the sockets the hook has created, the
    browser timers and the clock are part of that record.  A block of the
    source that can throw evaluates to a [Js.completion]. *)

From Stdlib Require Import Ascii String List Arith Lia Bool.
From stdpp Require Import gmap strings list.

Open Scope string_scope.
Open Scope list_scope.

(** ** JavaScript values and string primitives *)

Module Js.

(** The values that reach the modelled functions.  Numbers are only ever
    tested, never computed with, so an integer stands for them; [VObject]
    is an opaque reference. *)
Inductive value : Type :=
| VUndefined
| VNull
| VBool (b : bool)
| VNumber (n : Z)
| VString (s : string)
| VObject (ref : nat).

(** ToBoolean. *)
Definition truthy (v : value) : bool :=
  match v with
  | VUndefined | VNull => false
  | VBool b => b
  | VNumber n => negb (n =? 0)%Z
  | VString s => negb (s =? "")
  | VObject _ => true
  end.

(** [typeof v === 'string'] *)
Definition isString (v : value) : bool :=
  match v with VString _ => true | _ => false end.

(** [a || b] *)
Definition orElse (a b : value) : value := if truthy a then a else b.

(** [a === b] on the values above. *)
Definition strictEq (a b : value) : bool :=
  match a, b with
  | VUndefined, VUndefined | VNull, VNull => true
  | VBool x, VBool y => Bool.eqb x y
  | VNumber x, VNumber y => (x =? y)%Z
  | VString x, VString y => (x =? y)
  | VObject x, VObject y => (x =? y)%nat
  | _, _ => false
  end.

(** The outcome of evaluating a block: a value, or a thrown exception. *)
Inductive completion (A : Type) : Type :=
| Normal (a : A)
| Throw (e : value).
Arguments Normal {A} a.
Arguments Throw {A} e.

(** Sequencing: the rest of a block runs on the value of its first
    statement unless that statement has thrown. *)
Definition andThen {A B : Type} (c : completion A) (k : A -> completion B) : completion B :=
  match c with
  | Normal a => k a
  | Throw e => Throw e
  end.

(** The [TypeError] raised by calling a value that is not a function. *)
Definition typeError : value := VObject 0.

(** [try { body } catch (e) { handler }] *)
Definition tryCatch {A : Type} (body : completion A) (handler : value -> A) : A :=
  match body with
  | Normal a => a
  | Throw e => handler e
  end.

(** White space and line terminators of [String.prototype.trim] among the
    code units of the range: TAB, LF, VT, FF, CR, SPACE and NO-BREAK SPACE
    (U+00A0). *)
Definition isWhiteSpace (c : ascii) : bool :=
  let n := nat_of_ascii c in
  ((9 <=? n)%nat && (n <=? 13)%nat) || (n =? 32)%nat || (n =? 160)%nat.

(** The letters of the range that have a one-unit counterpart in the other
    case, 32 code units away: [a]-[z] and U+00E0-U+00FE without the division
    sign U+00F7; [A]-[Z] and U+00C0-U+00DE without the multiplication sign
    U+00D7. *)
Definition isLowerAlpha (c : ascii) : bool :=
  let n := nat_of_ascii c in
  ((97 <=? n)%nat && (n <=? 122)%nat)
  || ((224 <=? n)%nat && (n <=? 254)%nat && negb (n =? 247)%nat).

Definition isUpperAlpha (c : ascii) : bool :=
  let n := nat_of_ascii c in
  ((65 <=? n)%nat && (n <=? 90)%nat)
  || ((192 <=? n)%nat && (n <=? 222)%nat && negb (n =? 215)%nat).

(** [toLowerCase] maps code unit to code unit on the range. *)
Definition toLowerChar (c : ascii) : ascii :=
  if isUpperAlpha c then ascii_of_nat (nat_of_ascii c + 32) else c.

Fixpoint mapChars (f : ascii -> ascii) (s : string) : string :=
  match s with
  | EmptyString => EmptyString
  | String c s' => String (f c) (mapChars f s')
  end.

Definition toLowerCase : string -> string := mapChars toLowerChar.

(** [toUpperCase] of one code unit: the sharp s U+00DF becomes the two
    units [SS]; a letter with a one-unit upper-case form becomes that form;
    every other code unit of the range is left as it is, except U+00B5 and
    U+00FF, whose upper-case forms U+039C and U+0178 lie outside the range:
    [upperInRange] tells them apart, and for them the value below is not
    what [toUpperCase] gives. *)
Definition toUpperUnits (c : ascii) : string :=
  if (nat_of_ascii c =? 223)%nat then "SS"
  else if isLowerAlpha c then String (ascii_of_nat (nat_of_ascii c - 32)) EmptyString
  else String c EmptyString.

Definition upperInRange (c : ascii) : bool :=
  negb ((nat_of_ascii c =? 181)%nat || (nat_of_ascii c =? 255)%nat).

Fixpoint toUpperCase (s : string) : string :=
  match s with
  | EmptyString => EmptyString
  | String c s' => toUpperUnits c +:+ toUpperCase s'
  end.

(** No code unit of the text has its upper-case form outside the range. *)
Fixpoint allUpperInRange (s : string) : bool :=
  match s with
  | EmptyString => true
  | String c s' => upperInRange c && allUpperInRange s'
  end.

(** [s.charAt(0)] and [s.slice(1)] *)
Definition charAt0 (s : string) : string :=
  match s with
  | EmptyString => EmptyString
  | String c _ => String c EmptyString
  end.

Definition slice1 (s : string) : string :=
  match s with
  | EmptyString => EmptyString
  | String _ s' => s'
  end.

(** Removal of the leading, respectively trailing, run of characters
    satisfying [p]. *)
Fixpoint dropStart (p : ascii -> bool) (s : string) : string :=
  match s with
  | EmptyString => EmptyString
  | String c s' => if p c then dropStart p s' else s
  end.

Fixpoint dropEnd (p : ascii -> bool) (s : string) : string :=
  match s with
  | EmptyString => EmptyString
  | String c s' =>
      let t := dropEnd p s' in
      if p c && (t =? "") then EmptyString else String c t
  end.

(** [s.trim()] *)
Definition trim (s : string) : string := dropEnd isWhiteSpace (dropStart isWhiteSpace s).

(** [s.includes(c)] for a one-character needle. *)
Fixpoint includes (c : ascii) (s : string) : bool :=
  match s with
  | EmptyString => false
  | String d s' => Ascii.eqb d c || includes c s'
  end.

(** [s.split(c)] for a one-character separator: the empty string splits
    into one empty piece. *)
Fixpoint split (sep : ascii) (s : string) : list string :=
  match s with
  | EmptyString => [EmptyString]
  | String c s' =>
      if Ascii.eqb c sep then EmptyString :: split sep s'
      else match split sep s' with
           | w :: ws => String c w :: ws
           | [] => [String c EmptyString]
           end
  end.

(** [pieces.join(sep)] *)
Fixpoint join (sep : string) (pieces : list string) : string :=
  match pieces with
  | [] => EmptyString
  | [w] => w
  | w :: ws => w +:+ sep +:+ join sep ws
  end.

(** [s.startsWith(p)] *)
Definition startsWith (p s : string) : bool := String.prefix p s.

(** Concatenation of a list of fragments, as repeated [html += ...]. *)
Fixpoint concat (pieces : list string) : string :=
  match pieces with
  | [] => EmptyString
  | w :: ws => w +:+ concat ws
  end.

End Js.

(** ** The part of the DOM the sanitizer works on *)

Module Dom.

(** A node of a parsed HTML fragment.  The HTML parser lower-cases element
    and attribute names and keeps one value per attribute name, so the
    attributes of an element form a finite map.  A [template] element is
    special in the DOM: the parser does not attach what is written inside
    it as child nodes but stores it in a separate document fragment, the
    template contents ([content]).  That fragment is outside the child
    tree, so [querySelectorAll] never returns anything inside it, while the
    fragment serialisation behind [innerHTML] writes it out in place of
    the children. *)
#[warnings="-register-all"]
Inductive node : Type :=
| Text (data : string)
| Comment (data : string)
| Element (localName : string) (attributes : gmap string string) (childNodes : list node)
| Template (attributes : gmap string string) (content : list node).

(** What is observed of one element: its tag and its attributes. *)
Definition element : Type := string * gmap string string.

(** The elements [root.querySelectorAll('*')] returns for each member of a
    child list: the element itself and its descendants through
    [childNodes], in tree order. *)
Fixpoint treeElements (n : node) : list element :=
  match n with
  | Text _ | Comment _ => []
  | Element name attrs children => (name, attrs) :: flat_map treeElements children
  | Template attrs _ => [("template", attrs)]
  end.

(** The elements written by the fragment serialisation ([innerHTML]): as
    above, and for a [template] its contents. *)
Fixpoint markupElements (n : node) : list element :=
  match n with
  | Text _ | Comment _ => []
  | Element name attrs children => (name, attrs) :: flat_map markupElements children
  | Template attrs content => ("template", attrs) :: flat_map markupElements content
  end.

(** [el.remove()] for every [el] of [root.querySelectorAll(tag)]: each
    matching element leaves its parent's child list, with its subtree. *)
Fixpoint removeNode (tag : string) (n : node) : option node :=
  match n with
  | Text _ | Comment _ => Some n
  | Element name attrs children =>
      if name =? tag then None
      else Some (Element name attrs (omap (removeNode tag) children))
  | Template _ _ => if "template" =? tag then None else Some n
  end.

Definition removeAll (tag : string) (children : list node) : list node :=
  omap (removeNode tag) children.

(** [el.hasAttribute(name)], [el.removeAttribute(name)] and
    [el.getAttribute(name)] on the attribute map. *)
Definition hasAttribute (name : string) (attrs : gmap string string) : bool :=
  match attrs !! name with Some _ => true | None => false end.

Definition removeAttribute (name : string) (attrs : gmap string string) : gmap string string :=
  delete name attrs.

Definition getAttribute (name : string) (attrs : gmap string string) : option string :=
  attrs !! name.

(** No [template] anywhere in a fragment. *)
Fixpoint templateFree (n : node) : bool :=
  match n with
  | Text _ | Comment _ => true
  | Element _ _ children => forallb templateFree children
  | Template _ _ => false
  end.

End Dom.

(** ** Text utilities, table renderer and sanitizer: [markdownUtils] *)

Module MarkdownUtils.
Import Js Dom.

(** [capitalizeWord] *)
Definition capitalizeWord (word : value) : string :=
  match word with
  | VString w =>
      if w =? "" then ""
      else toUpperCase (charAt0 w) +:+ toLowerCase (slice1 w)
  | _ => ""
  end.

Definition isUnderscore (c : ascii) : bool := Ascii.eqb c "_".

(** [text.replace(/^_+|_+$/g, '')]: the leading run and the trailing run
    of underscores are the only matches of the pattern. *)
Definition stripUnderscores (text : string) : string :=
  dropEnd isUnderscore (dropStart isUnderscore text).

(** [text.replace(/_+/g, '_')]: of every maximal run of underscores only
    the last one is kept. *)
Fixpoint collapseUnderscores (text : string) : string :=
  match text with
  | EmptyString => EmptyString
  | String c rest =>
      match rest with
      | String d _ =>
          if isUnderscore c && isUnderscore d then collapseUnderscores rest
          else String c (collapseUnderscores rest)
      | EmptyString => String c EmptyString
      end
  end.

Definition nonEmpty (w : string) : bool := negb (String.length w =? 0)%nat.

(** [convertSnakeCaseToTitle] *)
Definition convertSnakeCaseToTitle (text : value) : value :=
  match text with
  | VString s =>
      if negb (truthy text) then text
      else if negb (includes "_" s) then text
      else
        let cleaned := collapseUnderscores (stripUnderscores s) in
        VString (join " "
                   (map (fun word => capitalizeWord (VString word))
                      (List.filter nonEmpty (split "_" cleaned))))
  | _ => text
  end.

(** [escapeHtml]: the text is stored in a detached element through
    [textContent] and read back through [innerHTML]; the serialisation of a
    text node replaces the ampersand, the no-break space U+00A0 and the two
    angle brackets, and nothing else. *)
Definition nbsp : ascii := ascii_of_nat 160.

Definition escapeChar (c : ascii) : string :=
  if Ascii.eqb c "&" then "&amp;"
  else if Ascii.eqb c nbsp then "&nbsp;"
  else if Ascii.eqb c "<" then "&lt;"
  else if Ascii.eqb c ">" then "&gt;"
  else String c EmptyString.

Fixpoint escapeText (text : string) : string :=
  match text with
  | EmptyString => EmptyString
  | String c rest => escapeChar c +:+ escapeText rest
  end.

Definition escapeHtml (text : value) : string :=
  match text with
  | VString s => escapeText s
  | _ => ""
  end.

(** The double quote of the attribute values in the generated markup. *)
Definition dq : string := String (ascii_of_nat 34) EmptyString.
Definition quoted (s : string) : string := dq +:+ s +:+ dq.

Definition newline : ascii := ascii_of_nat 10.

(** The two early results of [convertMarkdownToTable]. *)
Definition noTableData : string :=
  "<p class=" +:+ quoted "text-gray-500 text-sm" +:+ ">No table data available</p>".

Definition rawFallback (markdown : value) : string :=
  "<pre class=" +:+ quoted "bg-gray-100 p-3 rounded text-sm overflow-x-auto" +:+ ">"
  +:+ escapeHtml markdown +:+ "</pre>".

(** [line.split('|').map(c => c.trim()).filter(c => c)] *)
Definition pipeCells (line : string) : list string :=
  List.filter nonEmpty (map trim (split "|" line)).

(** The header row: the cells of line 0, each through
    [convertSnakeCaseToTitle]. *)
Definition tableHeaders (headerLine : string) : list value :=
  map (fun h => convertSnakeCaseToTitle (VString h)) (pipeCells headerLine).

Definition thOpen : string :=
  "<th class="
  +:+ quoted "bg-gray-50 text-left font-semibold text-gray-900 px-4 py-3 border-b border-gray-200"
  +:+ ">".

Definition th (header : value) : string :=
  thOpen +:+ escapeHtml header +:+ "</th>".

Definition tdOpen : string :=
  "<td class=" +:+ quoted "px-4 py-3 border-b border-gray-200 text-gray-700" +:+ ">".

Definition td (cellValue : string) : string :=
  tdOpen +:+ escapeHtml (VString cellValue) +:+ "</td>".

(** [cells[i] || ''] *)
Definition cellValue (cells : list string) (i : nat) : string :=
  match nth_error cells i with
  | Some c => if c =? "" then "" else c
  | None => ""
  end.

(** The values written by [for (let i = 0; i < headers.length; i++)]. *)
Definition rowValues (headers : list value) (cells : list string) : list string :=
  map (cellValue cells) (seq 0 (length headers)).

Definition rowClass (index : nat) : string :=
  if Nat.even index then "bg-white" else "bg-gray-50".

Definition trOpen (index : nat) : string :=
  "<tr class=" +:+ quoted (rowClass index +:+ " hover:bg-gray-100") +:+ ">".

(** One iteration of [dataLines.forEach((line, index) => ...)]: the text
    appended to [html]. *)
Definition dataRow (headers : list value) (index : nat) (line : string) : string :=
  if nonEmpty (trim line) then
    let cells := pipeCells line in
    if (0 <? length cells)%nat then
      trOpen index
      +:+ concat (map td (rowValues headers cells))
      +:+ "</tr>"
    else ""
  else "".

Fixpoint dataRows (headers : list value) (index : nat) (dataLines : list string) : string :=
  match dataLines with
  | [] => ""
  | line :: rest => dataRow headers index line +:+ dataRows headers (S index) rest
  end.

Definition tableOpen : string :=
  "<div class=" +:+ quoted "overflow-x-auto" +:+ "><table class=" +:+ quoted "response-table" +:+ ">".

Definition tableHtml (headers : list value) (dataLines : list string) : string :=
  tableOpen
  +:+ "<thead><tr>" +:+ concat (map th headers) +:+ "</tr></thead>"
  +:+ "<tbody>" +:+ dataRows headers 0 dataLines +:+ "</tbody></table></div>".

(** The block guarded by [try] in [convertMarkdownToTable]. *)
Definition tableBody (markdown : string) : completion string :=
  let lines := split newline (trim markdown) in
  if (length lines <? 2)%nat then Normal (rawFallback (VString markdown))
  else
    let headerLine := nth 0 lines "" in
    let headers := tableHeaders headerLine in
    let dataLines := skipn 2 lines in
    if (length headers =? 0)%nat then Normal (rawFallback (VString markdown))
    else Normal (tableHtml headers dataLines).

(** [convertMarkdownToTable], first with the guarded block left open, then
    with the block of the source. *)
Definition convertMarkdownToTableWith (block : string -> completion string)
    (markdown : value) : string :=
  if negb (truthy markdown) || negb (isString markdown) then noTableData
  else
    match markdown with
    | VString md => tryCatch (block md) (fun _ => rawFallback markdown)
    | _ => noTableData
    end.

Definition convertMarkdownToTable (markdown : value) : string :=
  convertMarkdownToTableWith tableBody markdown.

(** [sanitizeHtml]: its two constant lists, the body of the callback of
    [allElements.forEach], and the function itself. *)
Definition dangerousElements : list string :=
  ["script"; "iframe"; "object"; "embed"; "link"; "style"].

Definition dangerousAttributes : list string :=
  ["onload"; "onerror"; "onclick"; "onmouseover"; "onfocus"; "onblur"].

Definition dropIfJavascript (name : string) (attrs : gmap string string) : gmap string string :=
  match getAttribute name attrs with
  | Some v => if startsWith "javascript:" v then removeAttribute name attrs else attrs
  | None => attrs
  end.

(** What the callback has done to the attributes of an element when it
    returns. *)
Definition cleanAttributes (attrs : gmap string string) : gmap string string :=
  let attrs1 :=
    fold_left (fun a attr => if hasAttribute attr a then removeAttribute attr a else a)
      dangerousAttributes attrs in
  let attrs2 := dropIfJavascript "href" attrs1 in
  dropIfJavascript "src" attrs2.

(** The tree once the callback has returned for every element of
    [querySelectorAll('*')]. *)
Fixpoint cleanNode (n : node) : node :=
  match n with
  | Text _ | Comment _ => n
  | Element name attrs children => Element name (cleanAttributes attrs) (map cleanNode children)
  | Template attrs content => Template (cleanAttributes attrs) content
  end.

(** The child list of [tempDiv] after the first loop, and after both. *)
Definition removeDangerous (children : list node) : list node :=
  fold_left (fun f tag => removeAll tag f) dangerousElements children.

Definition cleanFragment (children : list node) : list node :=
  map cleanNode (removeDangerous children).

Section Browser.
(** The browser's fragment parser ([tempDiv.innerHTML = html]) and
    serialiser ([tempDiv.innerHTML]), and its lookup of named properties:
    on a [form] element, reading a property whose name is the [name] or
    [id] of one of the form's controls gives that control, also where
    [Element] has a method of the name.  [named i m] says so of element
    number [i] of [allElements] and the name [m]. *)
Variable parseFragment : string -> list node.
Variable serializeFragment : list node -> string.
Variable named : nat -> string -> bool.

(** The call [el.m(...)] on element number [i]: when the property read
    gives a control instead of the method, calling it throws. *)
Definition call (i : nat) (el : element) (m : string) : completion unit :=
  if (fst el =? "form") && named i m then Throw typeError else Normal tt.

(** [if (el.hasAttribute(attr)) el.removeAttribute(attr)] *)
Definition removeDangerousAttribute (i : nat) (el : element)
    (attrs : gmap string string) (attr : string) : completion (gmap string string) :=
  andThen (call i el "hasAttribute") (fun _ =>
    if hasAttribute attr attrs
    then andThen (call i el "removeAttribute") (fun _ => Normal (removeAttribute attr attrs))
    else Normal attrs).

(** [if (el.hasAttribute(name) && el.getAttribute(name).startsWith('javascript:'))
    el.removeAttribute(name)] *)
Definition removeJavascript (i : nat) (el : element)
    (name : string) (attrs : gmap string string) : completion (gmap string string) :=
  andThen (call i el "hasAttribute") (fun _ =>
    match getAttribute name attrs with
    | Some v =>
        andThen (call i el "getAttribute") (fun _ =>
          if startsWith "javascript:" v
          then andThen (call i el "removeAttribute") (fun _ =>
                 Normal (removeAttribute name attrs))
          else Normal attrs)
    | None => Normal attrs
    end).

(** The callback of [allElements.forEach] on element number [i]: the
    attributes it leaves, unless a call throws. *)
Definition cleanElement (i : nat) (el : element) : completion (gmap string string) :=
  andThen
    (fold_left (fun done attr => andThen done (fun a => removeDangerousAttribute i el a attr))
       dangerousAttributes (Normal (snd el)))
    (fun attrs1 =>
       andThen (removeJavascript i el "href" attrs1) (fun attrs2 =>
         removeJavascript i el "src" attrs2)).

(** [allElements.forEach(...)]: the callback on one element after the
    other, in tree order, until one throws. *)
Fixpoint forEachElement (i : nat) (allElements : list element) : completion unit :=
  match allElements with
  | [] => Normal tt
  | el :: rest => andThen (cleanElement i el) (fun _ => forEachElement (S i) rest)
  end.

(** The child list of [tempDiv] when [sanitizeHtml] reads it back, from
    the child list the parser produced: nothing if a callback threw. *)
Definition sanitizeFragment (children : list node) : completion (list node) :=
  let kept := removeDangerous children in
  andThen (forEachElement 0 (flat_map treeElements kept)) (fun _ =>
    Normal (map cleanNode kept)).

Definition sanitizeHtml (html : value) : completion string :=
  if negb (truthy html) || negb (isString html) then Normal ""
  else
    match html with
    | VString s =>
        andThen (sanitizeFragment (parseFragment s)) (fun children =>
          Normal (serializeFragment children))
    | _ => Normal ""
    end.
End Browser.

(** The position of each member of a list, counted from [i]. *)
Fixpoint indexed {A : Type} (i : nat) (l : list A) : list (nat * A) :=
  match l with
  | [] => []
  | x :: l' => (i, x) :: indexed (S i) l'
  end.

End MarkdownUtils.

(** ** Connection and session manager: [useSocket] *)

Module UseSocket.
Import Js.

(** The values [setConnectionStatus] is called with. *)
Inductive status : Type :=
| disconnected | connecting | connected | reconnecting | error | failed.

(** What the client emits on the socket. *)
Inductive outbound : Type :=
| create_session (sessionId : string)
| user_query (query : string) (sessionId : value)
| ping
| get_session_info.

(** The socket object returned by [io(...)], as far as the hook uses it:
    whether [disconnect()] has been called on it, and what was emitted. *)
Record Socket : Type := mkSocket {
  closed : bool;
  emitted : list outbound
}.

(** The state of the hook: the four [useState] cells and the
    [reconnectAttempts] ref, and next to them the sockets the hook has let
    go of.  [connect()] stores the socket it creates in the [socket] cell
    without closing the socket that was there or taking its handlers off,
    so a socket replaced in this way stays alive, and its handlers go on
    setting the state of the hook: [replaced] keeps these sockets, in the
    order they were replaced. *)
Record state : Type := mkState {
  socket : option Socket;
  isConnected : bool;
  connectionStatus : status;
  currentSessionId : value;
  reconnectAttempts : nat;
  replaced : list Socket
}.

Definition maxReconnectAttempts : nat := 5.

Definition initial : state :=
  mkState None false disconnected VNull 0 [].

(** The socket an event comes from, and the [newSocket] its handler was
    registered with: the socket the hook holds, or one it has replaced. *)
Inductive origin : Type :=
| Held
| Replaced (i : nat).

Definition socketAt (o : origin) (st : state) : option Socket :=
  match o with
  | Held => socket st
  | Replaced i => replaced st !! i
  end.

Definition onSocket (o : origin) (f : Socket -> Socket) (st : state) : state :=
  match o with
  | Held =>
      mkState (option_map f (socket st))
        (isConnected st) (connectionStatus st) (currentSessionId st) (reconnectAttempts st)
        (replaced st)
  | Replaced i =>
      mkState (socket st)
        (isConnected st) (connectionStatus st) (currentSessionId st) (reconnectAttempts st)
        (alter f i (replaced st))
  end.

(** [sk.emit(...)] and [sk.disconnect()] on a socket. *)
Definition emitOn (o : origin) (ev : outbound) (st : state) : state :=
  onSocket o (fun sk => mkSocket (closed sk) (emitted sk ++ [ev])) st.

Definition disconnectOn (o : origin) (st : state) : state :=
  onSocket o (fun sk => mkSocket true (emitted sk)) st.

(** The same on the socket of the [socket] cell. *)
Definition emit (ev : outbound) (st : state) : state := emitOn Held ev st.

Definition socketDisconnect (st : state) : state := disconnectOn Held st.

Definition setIsConnected (b : bool) (st : state) : state :=
  mkState (socket st) b (connectionStatus st) (currentSessionId st) (reconnectAttempts st)
    (replaced st).

Definition setConnectionStatus (c : status) (st : state) : state :=
  mkState (socket st) (isConnected st) c (currentSessionId st) (reconnectAttempts st)
    (replaced st).

Definition setCurrentSessionId (v : value) (st : state) : state :=
  mkState (socket st) (isConnected st) (connectionStatus st) v (reconnectAttempts st)
    (replaced st).

Definition setReconnectAttempts (n : nat) (st : state) : state :=
  mkState (socket st) (isConnected st) (connectionStatus st) (currentSessionId st) n
    (replaced st).

Definition setSocket (sk : option Socket) (st : state) : state :=
  mkState sk (isConnected st) (connectionStatus st) (currentSessionId st)
    (reconnectAttempts st) (replaced st).

(** What [setSocket(newSocket)] leaves behind: the socket of the cell, if
    there is one, is no longer held but is still there. *)
Definition letGo (st : state) : list Socket :=
  match socket st with
  | Some sk => replaced st ++ [sk]
  | None => replaced st
  end.

(** [connect()]: a fresh socket with the reconnection options, the
    handlers below registered on it. *)
Definition connect (st : state) : state :=
  let st1 := setConnectionStatus connecting st in
  mkState (Some (mkSocket false []))
    (isConnected st1) (connectionStatus st1) (currentSessionId st1) (reconnectAttempts st1)
    (letGo st1).

(** The handlers registered in [connect()], each with the socket it was
    registered on.  [sessionId] is the value [generateSessionId()] returns
    when the handler runs. *)
Definition onConnect (newSocket : origin) (sessionId : string) (st : state) : state :=
  let st1 := setIsConnected true st in
  let st2 := setConnectionStatus connected st1 in
  let st3 := setReconnectAttempts 0 st2 in
  let st4 := setCurrentSessionId (VString sessionId) st3 in
  emitOn newSocket (create_session sessionId) st4.

Definition onConnectError (newSocket : origin) (st : state) : state :=
  let st1 := setIsConnected false st in
  let st2 := setConnectionStatus error st1 in
  let st3 := setReconnectAttempts (S (reconnectAttempts st2)) st2 in
  if (maxReconnectAttempts <=? reconnectAttempts st3)%nat then
    disconnectOn newSocket (setConnectionStatus failed st3)
  else st3.

Definition onDisconnect (reason : string) (st : state) : state :=
  let st1 := setIsConnected false st in
  let st2 := setConnectionStatus disconnected st1 in
  if reason =? "io client disconnect" then setConnectionStatus disconnected st2
  else setConnectionStatus reconnecting st2.

Definition onReconnect (attemptNumber : nat) (st : state) : state :=
  let st1 := setIsConnected true st in
  let st2 := setConnectionStatus connected st1 in
  setReconnectAttempts 0 st2.

Definition onReconnectFailed (st : state) : state :=
  setConnectionStatus failed st.

Definition onConnectionEstablished (session_id : value) (st : state) : state :=
  if truthy session_id then setCurrentSessionId session_id st else st.

(** The events the transport raises on a socket. *)
Inductive event : Type :=
| connect_ev (sessionId : string)
| connect_error
| disconnect_ev (reason : string)
| reconnect (attemptNumber : nat)
| reconnect_failed
| connection_established (session_id : value)
| error_ev.

Definition handle (o : origin) (ev : event) (st : state) : state :=
  match ev with
  | connect_ev sessionId => onConnect o sessionId st
  | connect_error => onConnectError o st
  | disconnect_ev reason => onDisconnect reason st
  | reconnect n => onReconnect n st
  | reconnect_failed => onReconnectFailed st
  | connection_established session_id => onConnectionEstablished session_id st
  | error_ev => st
  end.

(** What the transport does with an event.  Once [disconnect()] has been
    called on a socket the transport has torn it down: it is detached from
    its connection manager, the manager's reconnection schedule is
    cancelled, and no further event reaches the handlers.  [live] is a
    socket the transport still serves; [autoReconnect] says so of the
    socket the hook holds. *)
Definition live (o : origin) (st : state) : bool :=
  match socketAt o st with
  | Some sk => negb (closed sk)
  | None => false
  end.

Definition autoReconnect (st : state) : bool := live Held st.

Definition deliver (o : origin) (ev : event) (st : state) : state :=
  if live o st then handle o ev st else st.

Definition run (evs : list (origin * event)) (st : state) : state :=
  fold_left (fun s oe => deliver (fst oe) (snd oe) s) evs st.

(** [disconnect()] *)
Definition disconnect (st : state) : state :=
  match socket st with
  | Some _ =>
      let st1 := socketDisconnect st in
      let st2 := setSocket None st1 in
      let st3 := setIsConnected false st2 in
      let st4 := setConnectionStatus disconnected st3 in
      setCurrentSessionId VNull st4
  | None => st
  end.

(** [createNewSession()] *)
Definition createNewSession (sessionId : string) (st : state) : state :=
  match socket st with
  | Some _ =>
      if isConnected st then
        emit (create_session sessionId) (setCurrentSessionId (VString sessionId) st)
      else st
  | None => st
  end.

(** How the promise returned by [sendQuery] settles. *)
Inductive settled : Type :=
| Resolved
| Rejected (message : string).

(** [sendQuery(query)]: the executor of the promise runs at once, so the
    promise is settled when [sendQuery] returns. *)
Definition sendQuery (query : string) (st : state) : settled * state :=
  match socket st with
  | None => (Rejected "Not connected to server", st)
  | Some _ =>
      if negb (isConnected st) then (Rejected "Not connected to server", st)
      else if negb (truthy (VString (trim query))) then (Rejected "Query cannot be empty", st)
      else (Resolved, emit (user_query (trim query) (currentSessionId st)) st)
  end.

End UseSocket.

(** ** Response display: [DataSummaryResult] *)

Module DataSummaryResult.
Import Js Dom MarkdownUtils.

(** The fields of [data] that decide the body of the response. *)
Record envelope : Type := mkEnvelope {
  success : value;
  html_summary : value;
  markdown_data : value;
  error : value;
  summary : value
}.

Definition noTableSentinel : string :=
  "No data table available for non-analytics queries".

Definition unknownError : string :=
  "An unknown error occurred while processing your request.".

(** The element tree the component function returns, as far as the
    properties below look at it: the three sections of a successful
    response that are made from [html_summary], [markdown_data] and
    [summary], or the error display.  [None] is a section that is not
    rendered.  [plainSummarySection] and [ErrorDisplay] hold the child
    expression of their paragraph, the value React is given to show.  The
    response header, the list of key insights and the processing
    statistics are not part of the model; nothing in them throws or
    depends on the fields above. *)
Record successBody : Type := mkSuccessBody {
  htmlSummarySection : option string;
  dataTableSection : option string;
  plainSummarySection : option value
}.

Inductive body : Type :=
| SuccessBody (sections : successBody)
| ErrorDisplay (text : value).

Inductive rendered : Type :=
| NoResponseData
| Response (isSuccess : bool) (b : body).

Section Browser.
Variable parseFragment : string -> list node.
Variable serializeFragment : list node -> string.
Variable named : nat -> string -> bool.

(** The sections are evaluated in the order they are written; the only
    expression among them that can throw is the call of [sanitizeHtml], and
    what it throws leaves the component function. *)
Definition renderSuccess (data : envelope) : completion successBody :=
  andThen
    (if truthy (html_summary data)
     then andThen (sanitizeHtml parseFragment serializeFragment named (html_summary data))
            (fun html => Normal (Some html))
     else Normal None)
    (fun htmlSummary =>
       Normal
         (mkSuccessBody htmlSummary
            (if truthy (markdown_data data)
                && negb (strictEq (markdown_data data) (VString noTableSentinel))
             then Some (convertMarkdownToTable (markdown_data data))
             else None)
            (if negb (truthy (html_summary data)) && truthy (summary data)
             then Some (summary data)
             else None))).

Definition errorText (data : envelope) : value :=
  orElse (error data) (orElse (summary data) (VString unknownError)).

Definition DataSummaryResult (data : option envelope) : completion rendered :=
  match data with
  | None => Normal NoResponseData
  | Some d =>
      if truthy (success d)
      then andThen (renderSuccess d) (fun sections =>
             Normal (Response true (SuccessBody sections)))
      else Normal (Response false (ErrorDisplay (errorText d)))
  end.
End Browser.



End DataSummaryResult.

(** ** Conversation controller: [App] *)

Module App.
Import Js.

Inductive kind : Type := user | assistant | error.

Inductive content : Type :=
| Plain (text : value)
| Data (data : DataSummaryResult.envelope).

Record message : Type := mkMessage {
  id : N;
  type : kind;
  body : content;
  timestamp : N
}.

(** The component state: the hook, the three [useState] cells, the
    [loadingTimeoutRef] ref, and the environment the handlers touch: the
    time-outs the controller has pending (handle and due time; the
    heartbeat interval of the hook is not among them) and the clock, in
    milliseconds. *)
Record state : Type := mkState {
  hook : UseSocket.state;
  messages : list message;
  currentInput : string;
  isLoading : bool;
  loadingTimeoutRef : option nat;
  timers : list (nat * N);
  nextTimer : nat;
  now : N
}.

Definition initial : state :=
  mkState UseSocket.initial [] "" false None [] 1 0.

Definition safetyTimeout : N := 30000.

Definition setHook (h : UseSocket.state) (st : state) : state :=
  mkState h (messages st) (currentInput st) (isLoading st) (loadingTimeoutRef st)
    (timers st) (nextTimer st) (now st).

Definition setIsLoading (b : bool) (st : state) : state :=
  mkState (hook st) (messages st) (currentInput st) b (loadingTimeoutRef st)
    (timers st) (nextTimer st) (now st).

Definition appendMessage (m : message) (st : state) : state :=
  mkState (hook st) (messages st ++ [m]) (currentInput st) (isLoading st)
    (loadingTimeoutRef st) (timers st) (nextTimer st) (now st).

Definition setMessages (ms : list message) (st : state) : state :=
  mkState (hook st) ms (currentInput st) (isLoading st)
    (loadingTimeoutRef st) (timers st) (nextTimer st) (now st).

Definition setCurrentInput (s : string) (st : state) : state :=
  mkState (hook st) (messages st) s (isLoading st) (loadingTimeoutRef st)
    (timers st) (nextTimer st) (now st).

Definition setRef (r : option nat) (st : state) : state :=
  mkState (hook st) (messages st) (currentInput st) (isLoading st) r
    (timers st) (nextTimer st) (now st).

(** [clearTimeout(handle)] and [setTimeout(callback, delay)]; the only
    callback ever scheduled is the safety timeout. *)
Definition clearTimeout (handle : nat) (st : state) : state :=
  mkState (hook st) (messages st) (currentInput st) (isLoading st) (loadingTimeoutRef st)
    (List.filter (fun t => negb (fst t =? handle)%nat) (timers st)) (nextTimer st) (now st).

Definition setTimeout (delay : N) (st : state) : nat * state :=
  (nextTimer st,
   mkState (hook st) (messages st) (currentInput st) (isLoading st) (loadingTimeoutRef st)
     (timers st ++ [(nextTimer st, (now st + delay)%N)]) (S (nextTimer st)) (now st)).

(** [if (loadingTimeoutRef.current) clearTimeout(loadingTimeoutRef.current)];
    a handle is a positive number, so a handle that is held passes the
    test. *)
Definition clearPending (st : state) : state :=
  match loadingTimeoutRef st with
  | Some handle => clearTimeout handle st
  | None => st
  end.

(** The callback given to [setTimeout] in [handleSendMessage]. *)
Definition timeoutMessage (st : state) : message :=
  mkMessage (now st + 2)%N error (Plain (VString "Request timed out. Please try again.")) (now st).

Definition safetyCallback (st : state) : state :=
  let st1 := setIsLoading false st in
  let st2 := setRef None st1 in
  appendMessage (timeoutMessage st2) st2.

(** [handleSendMessage(message)]; the promise of [sendQuery] is already
    settled when it is awaited. *)
Definition handleSendMessage (text : string) (st : state) : state :=
  if negb (truthy (VString (trim text))) || negb (UseSocket.isConnected (hook st)) then st
  else
    let st1 := setIsLoading true st in
    let userMessage := mkMessage (now st1) user (Plain (VString text)) (now st1) in
    let st2 := setCurrentInput "" (appendMessage userMessage st1) in
    let st3 := clearPending st2 in
    let '(handle, st4) := setTimeout safetyTimeout st3 in
    let st5 := setRef (Some handle) st4 in
    match UseSocket.sendQuery text (hook st5) with
    | (UseSocket.Resolved, h) => setHook h st5
    | (UseSocket.Rejected _, h) =>
        let st6 := setRef None (clearPending (setHook h st5)) in
        let st7 := setIsLoading false st6 in
        let errorMessage :=
          mkMessage (now st7 + 1)%N error
            (Plain (VString "Failed to send message. Please try again.")) (now st7) in
        appendMessage errorMessage st7
    end.

(** [handleQueryResponse(data)] and [handleQueryError(data)], the
    listeners of [query_response] and [query_error]. *)
Definition handleQueryResponse (data : DataSummaryResult.envelope) (st : state) : state :=
  let st1 := setRef None (clearPending st) in
  let st2 := setIsLoading false st1 in
  appendMessage (mkMessage (now st2) assistant (Data data) (now st2)) st2.

(** The payload of [query_error] is [Some e] when it is a value with
    properties, [e] being what [data.error] gives ([undefined] when there is
    no such property), and [None] when the event comes without payload or
    with [null]: reading [data.error] then throws, after the timer and the
    loading flag have been cleared and before a message is made. *)
Definition handleQueryError (data : option value) (st : state) : state :=
  let st1 := setRef None (clearPending st) in
  let st2 := setIsLoading false st1 in
  match data with
  | Some dataError =>
      let text :=
        orElse dataError (VString "An error occurred while processing your request.") in
      appendMessage (mkMessage (now st2) error (Plain text) (now st2)) st2
  | None => st2
  end.

(** [handleNewSession()] *)
Definition handleNewSession (sessionId : string) (st : state) : state :=
  setCurrentInput "" (setMessages [] (setHook (UseSocket.createNewSession sessionId (hook st)) st)).

(** The passage of [dt] milliseconds.  Every pending timer that becomes
    due within them is taken off the pending list and its callback run, at
    the time the timer is due (the clock never goes back), in the order of
    scheduling, which is the order of the due times since all delays are
    equal; then the clock stands at the end of the interval. *)
Definition setNow (t : N) (st : state) : state :=
  mkState (hook st) (messages st) (currentInput st) (isLoading st) (loadingTimeoutRef st)
    (timers st) (nextTimer st) t.

Definition fire (deadline : N) (t : nat * N) (st : state) : state :=
  if existsb (fun u => (fst u =? fst t)%nat) (timers st) && (snd t <=? deadline)%N
  then safetyCallback (clearTimeout (fst t) (setNow (N.max (now st) (snd t)) st))
  else st.

Definition advance (dt : N) (st : state) : state :=
  let deadline := (now st + dt)%N in
  setNow deadline (fold_left (fun s t => fire deadline t s) (timers st) st).

(** The listeners of [query_response] and [query_error] are registered on
    the socket of the hook's [socket] cell, by the effect that runs when
    the cell changes; without a socket there is none, and a socket that was
    torn down raises no event. *)
Definition listening (st : state) : bool := UseSocket.autoReconnect (hook st).

(** What can happen to the mounted component: a submission, a new
    session, the passage of time, an answer or an error of the service, a
    call of the hook's [connect()], an event of the transport, and typing
    in the input field. *)
Inductive action : Type :=
| Submit (text : string)
| NewSession (sessionId : string)
| Elapse (dt : N)
| QueryResponse (data : DataSummaryResult.envelope)
| QueryError (data : option value)
| Connect
| Transport (o : UseSocket.origin) (ev : UseSocket.event)
| ChangeInput (value : string).

Definition step (a : action) (st : state) : state :=
  match a with
  | Submit text => handleSendMessage text st
  | NewSession sessionId => handleNewSession sessionId st
  | Elapse dt => advance dt st
  | QueryResponse data => if listening st then handleQueryResponse data st else st
  | QueryError data => if listening st then handleQueryError data st else st
  | Connect => setHook (UseSocket.connect (hook st)) st
  | Transport o ev => setHook (UseSocket.deliver o ev (hook st)) st
  | ChangeInput value => setCurrentInput value st
  end.

Inductive reachable : state -> Prop :=
| reachable_initial : reachable initial
| reachable_step : forall a st, reachable st -> reachable (step a st).

End App.

(** ** Vocabulary of the properties *)

Module Shape.
Import Js MarkdownUtils.

Definition firstChar (s : string) : option ascii :=
  match s with
  | EmptyString => None
  | String c _ => Some c
  end.

Fixpoint lastChar (s : string) : option ascii :=
  match s with
  | EmptyString => None
  | String c rest =>
      match rest with
      | EmptyString => Some c
      | String _ _ => lastChar rest
      end
  end.

(** The rows [dataLines.forEach] emits, each with its position among the
    data lines and its cells: the lines that are not blank and have at
    least one cell. *)
Fixpoint emittedRows (index : nat) (dataLines : list string) : list (nat * list string) :=
  match dataLines with
  | [] => []
  | line :: rest =>
      if nonEmpty (trim line) && (0 <? length (pipeCells line))%nat
      then (index, pipeCells line) :: emittedRows (S index) rest
      else emittedRows (S index) rest
  end.

(** A list of cells cut or filled with empty cells to [n] columns. *)
Definition padTruncate (n : nat) (cells : list string) : list string :=
  firstn n cells ++ repeat "" (n - length cells).

(** The markup of one emitted row, in terms of its cells. *)
Definition rowHtml (headers : list value) (row : nat * list string) : string :=
  trOpen (fst row)
  +:+ concat (map (fun v => tdOpen +:+ escapeHtml (VString v) +:+ "</td>")
                (padTruncate (length headers) (snd row)))
  +:+ "</tr>".

(** An element as the sanitizer policy wants it: no tag of the dangerous
    list, no event-handler attribute of the list, no [href] or [src] that
    starts with [javascript:]. *)
Definition clean (e : Dom.element) : Prop :=
  ~ In (fst e) dangerousElements /\
  (forall a, In a dangerousAttributes -> snd e !! a = None) /\
  (forall v, snd e !! "href" = Some v -> startsWith "javascript:" v = false) /\
  (forall v, snd e !! "src" = Some v -> startsWith "javascript:" v = false).

(** The fragment the design document uses as its sanitizer sample:
    a [script], a paragraph with [onclick], a link with a [javascript:]
    target. *)
Definition sampleFragment : list Dom.node :=
  [ Dom.Element "script" ∅ [Dom.Text "alert(1)"];
    Dom.Element "p" {[ "onclick" := "x()" ]} [Dom.Text "hi"];
    Dom.Element "a" {[ "href" := "javascript:x()" ]} [Dom.Text "l"] ].

(** What the parser builds for the same three elements written inside a
    [template] element, that is for the input
    [<template><script>alert(1)</script><p onclick='x()'>hi</p><a href='javascript:x()'>l</a></template>]:
    one [template] element without children, the three elements in its
    contents. *)
Definition sampleInTemplate : list Dom.node :=
  [ Dom.Template ∅ sampleFragment ].

(** The same as markup, with the attribute values in double quotes as the
    serialiser writes them. *)
Definition sampleInTemplateHtml : string :=
  "<template><script>alert(1)</script><p onclick=" +:+ quoted "x()" +:+ ">hi</p><a href="
  +:+ quoted "javascript:x()" +:+ ">l</a></template>".

(** What the parser builds for [<form><input name='hasAttribute'></form>],
    and the named properties of its elements: on the form, element 0, the
    name [hasAttribute] is answered by the control. *)
Definition shadowingForm : list Dom.node :=
  [ Dom.Element "form" ∅ [Dom.Element "input" {[ "name" := "hasAttribute" ]} []] ].

Definition shadowingFormNamed (i : nat) (m : string) : bool :=
  (i =? 0)%nat && (m =? "hasAttribute").

(** No [form] element in the child tree of a fragment. *)
Definition formFree (f : list Dom.node) : Prop :=
  forall e, In e (flat_map Dom.treeElements f) -> fst e <> "form".

(** The pending time-outs are those the controller holds a handle
    to: none, or the one safety timer of the query in flight. *)
Definition timersHeld (st : App.state) : Prop :=
  match App.loadingTimeoutRef st with
  | None => App.timers st = []
  | Some handle => exists due, App.timers st = [(handle, due)]
  end.

(** A text from its lines. *)
Definition unlines (ls : list string) : string := join (String newline EmptyString) ls.

(** The number of places at which [pat] occurs in [s]. *)
Fixpoint occurrences (pat s : string) : nat :=
  match s with
  | EmptyString => if String.prefix pat s then 1 else 0
  | String _ rest => (if String.prefix pat s then 1 else 0) + occurrences pat rest
  end.

(** Two underscores in a row somewhere in the text. *)
Fixpoint hasUnderscoreRun (s : string) : bool :=
  match s with
  | EmptyString => false
  | String c rest =>
      match rest with
      | EmptyString => false
      | String d _ => (isUnderscore c && isUnderscore d) || hasUnderscoreRun rest
      end
  end.

End Shape.

(** ** The remaining operations of the hook, and its runs *)

Module HookOps.
Import Js UseSocket.

(** [ping()] and [getSessionInfo()] *)
Definition ping (st : state) : state :=
  match socket st with
  | Some _ => if isConnected st then emit UseSocket.ping st else st
  | None => st
  end.

Definition getSessionInfo (st : state) : state :=
  match socket st with
  | Some _ => if isConnected st then emit get_session_info st else st
  | None => st
  end.

(** What happens to the hook between mount and unmount: a call of one of
    the functions it returns, or an event of the transport. *)
Inductive operation : Type :=
| Connect
| Disconnect
| CreateNewSession (sessionId : string)
| SendQuery (query : string)
| Ping
| GetSessionInfo
| Deliver (o : origin) (ev : event).

Definition perform (o : operation) (st : state) : state :=
  match o with
  | Connect => connect st
  | Disconnect => disconnect st
  | CreateNewSession sessionId => createNewSession sessionId st
  | SendQuery query => snd (sendQuery query st)
  | Ping => ping st
  | GetSessionInfo => getSessionInfo st
  | Deliver o ev => deliver o ev st
  end.

Inductive reachable : state -> Prop :=
| reachable_initial : reachable initial
| reachable_perform : forall o st, reachable st -> reachable (perform o st).

(** What has been emitted on the socket the hook holds. *)
Definition sent (st : state) : list outbound :=
  match socket st with
  | Some sk => emitted sk
  | None => []
  end.

(** Flag and status agree as far as they do: [connected] is shown only
    with the flag up, and with the flag up the status is [connected],
    [connecting] or [failed]. *)
Definition coherent (st : state) : Prop :=
  (connectionStatus st = connected -> isConnected st = true) /\
  (isConnected st = true ->
   connectionStatus st = connected \/ connectionStatus st = connecting \/
   connectionStatus st = failed).

(** What one emitted event tells about the state it was emitted in
    ([st]) and the state after it ([st']). *)
Definition justified (st st' : state) (ev : outbound) : Prop :=
  match ev with
  | user_query query sessionId =>
      isConnected st = true /\ query <> "" /\ trim query = query /\
      sessionId = currentSessionId st
  | create_session sessionId =>
      isConnected st' = true /\ currentSessionId st' = VString sessionId
  | UseSocket.ping | get_session_info => isConnected st = true
  end.

(** The texts of the [user-query] events among what a socket emitted. *)
Fixpoint queryTexts (evs : list outbound) : list string :=
  match evs with
  | [] => []
  | user_query query _ :: rest => query :: queryTexts rest
  | _ :: rest => queryTexts rest
  end.

End HookOps.

(** ** Connection indicator: [Header] *)

Module Header.
Import UseSocket.

(** [getStatusColor] and [getStatusText]; [disconnected] is the [default]
    branch of both. *)
Definition getStatusColor (connectionStatus : status) : string :=
  match connectionStatus with
  | connected => "bg-green-500"
  | connecting | reconnecting => "bg-yellow-500"
  | error | failed => "bg-red-500"
  | disconnected => "bg-gray-500"
  end.

Definition getStatusText (connectionStatus : status) : string :=
  match connectionStatus with
  | connected => "Connected"
  | connecting => "Connecting..."
  | reconnecting => "Reconnecting..."
  | error => "Connection Error"
  | failed => "Connection Failed"
  | disconnected => "Disconnected"
  end.

End Header.

(** ** The input form: [InputSection] *)

Module InputSection.
Import Js.

(** The component gets [value], [isLoading] and [isConnected] from [App],
    and calls back [onChange], [onSend] and [onNewSession]. *)
Definition onChange (value : string) (st : App.state) : App.state :=
  App.setCurrentInput value st.

(** [handleSubmit] *)
Definition handleSubmit (st : App.state) : App.state :=
  let value := App.currentInput st in
  if truthy (VString (trim value))
     && UseSocket.isConnected (App.hook st)
     && negb (App.isLoading st)
  then App.handleSendMessage (trim value) st
  else st.

(** [handleKeyPress]: Enter without Shift submits. *)
Definition handleKeyPress (key : string) (shiftKey : bool) (st : App.state) : App.state :=
  if (key =? "Enter") && negb shiftKey then handleSubmit st else st.

(** [handleNewSessionClick] *)
Definition handleNewSessionClick (sessionId : string) (st : App.state) : App.state :=
  if UseSocket.isConnected (App.hook st) then App.handleNewSession sessionId st else st.

End InputSection.

(** ** The query in flight *)

Module Conversation.

(** The controller waits for an answer exactly while it holds the handle
    of a pending safety timer, which is then the only pending timer and
    due later than now, within the safety delay. *)
Definition inFlight (st : App.state) : Prop :=
  match App.loadingTimeoutRef st with
  | None => App.timers st = [] /\ App.isLoading st = false
  | Some handle =>
      exists due : N,
        App.timers st = [(handle, due)] /\ App.isLoading st = true /\
        (App.now st < due)%N /\
        (due <= App.now st + App.safetyTimeout)%N
  end.

End Conversation.

(* ================================================================== *)
(** * Properties *)

Import Js Dom MarkdownUtils Shape.

(** ** Strings *)

Section StringFacts.

Lemma append_cons (c : ascii) (s t : string) : String c s +:+ t = String c (s +:+ t).
Proof. reflexivity. Qed.

Lemma append_nil_l (s : string) : "" +:+ s = s.
Proof. reflexivity. Qed.

Lemma append_nil_r (s : string) : s +:+ "" = s.
Proof. induction s as [|c s IH]; [reflexivity | rewrite append_cons; f_equal; exact IH]. Qed.

Lemma append_assoc (a b c : string) : (a +:+ b) +:+ c = a +:+ (b +:+ c).
Proof. induction a as [|x a IH]; [reflexivity | rewrite !append_cons; f_equal; exact IH]. Qed.

Lemma eqb_empty (s : string) : (s =? "") = true <-> s = "".
Proof. apply String.eqb_eq. Qed.

Lemma nonEmpty_false (w : string) : nonEmpty w = false <-> w = "".
Proof. destruct w; simpl; split; intros H; try reflexivity; discriminate. Qed.

Lemma nonEmpty_truthy (w : string) : nonEmpty w = truthy (VString w).
Proof. destruct w; reflexivity. Qed.

Lemma split_cons (sep c : ascii) (s : string) :
  split sep (String c s) =
  if Ascii.eqb c sep then "" :: split sep s
  else String c (hd "" (split sep s)) :: tl (split sep s).
Proof. simpl. destruct (Ascii.eqb c sep); [reflexivity|]. now destruct (split sep s). Qed.

Lemma split_not_nil (sep : ascii) (s : string) : split sep s <> [].
Proof. destruct s as [|c s]; [discriminate|]. rewrite split_cons. now destruct (Ascii.eqb c sep). Qed.

Lemma filter_nonEmpty_repeat (l : list string) (k : nat) :
  List.filter nonEmpty (l ++ repeat "" k) = List.filter nonEmpty l.
Proof.
  rewrite List.filter_app.
  replace (List.filter nonEmpty (repeat "" k)) with (@nil string); [apply app_nil_r|].
  induction k as [|k IH]; simpl; [reflexivity | exact IH].
Qed.

End StringFacts.

(** ** Text utilities *)

Section SnakeCase.

(** The segments a title is made of are those of the text itself: stripping
    and collapsing underscores only removes empty pieces. *)
Lemma segments_dropStart (s : string) :
  List.filter nonEmpty (split "_" (dropStart isUnderscore s)) =
  List.filter nonEmpty (split "_" s).
Proof.
  induction s as [|c s IH]; [reflexivity|].
  cbn [dropStart]. unfold isUnderscore at 1.
  destruct (Ascii.eqb c "_") eqn:E.
  - rewrite IH, (split_cons "_" c s), E. reflexivity.
  - reflexivity.
Qed.

Lemma split_dropEnd (s : string) :
  exists k, split "_" s = split "_" (dropEnd isUnderscore s) ++ repeat "" k.
Proof.
  induction s as [|c s [k IH]]; [exists 0; reflexivity|].
  cbn [dropEnd]. unfold isUnderscore at 1.
  destruct (Ascii.eqb c "_") eqn:E; cbn [andb].
  - destruct (dropEnd isUnderscore s =? "") eqn:T.
    + apply eqb_empty in T. rewrite T in IH. exists (S k).
      rewrite split_cons, E, IH. reflexivity.
    + exists k. rewrite !split_cons, E, IH. reflexivity.
  - exists k. rewrite !split_cons, E, IH.
    pose proof (split_not_nil "_" (dropEnd isUnderscore s)) as Hn.
    destruct (split "_" (dropEnd isUnderscore s)); [contradiction | reflexivity].
Qed.

Lemma segments_dropEnd (s : string) :
  List.filter nonEmpty (split "_" (dropEnd isUnderscore s)) =
  List.filter nonEmpty (split "_" s).
Proof.
  destruct (split_dropEnd s) as [k Hk]. rewrite Hk. symmetry. apply filter_nonEmpty_repeat.
Qed.

Lemma split_collapse (s : string) :
  hd "" (split "_" (collapseUnderscores s)) = hd "" (split "_" s) /\
  List.filter nonEmpty (tl (split "_" (collapseUnderscores s))) =
  List.filter nonEmpty (tl (split "_" s)).
Proof.
  induction s as [|c s [IHh IHt]]; [split; reflexivity|].
  cbn [collapseUnderscores]. destruct s as [|d r].
  - split; reflexivity.
  - unfold isUnderscore.
    destruct (Ascii.eqb c "_") eqn:Ec; cbn [andb].
    + destruct (Ascii.eqb d "_") eqn:Ed.
      * rewrite (split_cons "_" c (String d r)), Ec. cbn [hd tl].
        rewrite (split_cons "_" d r), Ed in IHh, IHt |- *. cbn [hd tl] in *.
        split; [exact IHh|]. cbn [List.filter nonEmpty String.length Nat.eqb negb].
        exact IHt.
      * rewrite !(split_cons "_" c), Ec. cbn [hd tl]. split; [reflexivity|].
        pose proof (split_not_nil "_" (collapseUnderscores (String d r))) as H1.
        pose proof (split_not_nil "_" (String d r)) as H2.
        destruct (split "_" (collapseUnderscores (String d r))) as [|x xs]; [contradiction|].
        destruct (split "_" (String d r)) as [|y ys]; [contradiction|].
        cbn [hd tl] in *. subst y. cbn [List.filter]. now rewrite IHt.
    + rewrite !(split_cons "_" c), Ec. cbn [hd tl]. split; [now rewrite IHh | exact IHt].
Qed.

Lemma segments_collapse (s : string) :
  List.filter nonEmpty (split "_" (collapseUnderscores s)) =
  List.filter nonEmpty (split "_" s).
Proof.
  destruct (split_collapse s) as [Hh Ht].
  pose proof (split_not_nil "_" (collapseUnderscores s)) as H1.
  pose proof (split_not_nil "_" s) as H2.
  destruct (split "_" (collapseUnderscores s)) as [|x xs]; [contradiction|].
  destruct (split "_" s) as [|y ys]; [contradiction|].
  cbn [hd tl] in *. subst y. cbn [List.filter]. now rewrite Ht.
Qed.

Lemma segments_cleaned (s : string) :
  List.filter nonEmpty (split "_" (collapseUnderscores (stripUnderscores s))) =
  List.filter nonEmpty (split "_" s).
Proof.
  unfold stripUnderscores.
  now rewrite segments_collapse, segments_dropEnd, segments_dropStart.
Qed.

End SnakeCase.

Section CleanedShape.

Lemma firstChar_dropStart (p : ascii -> bool) (s : string) (c : ascii) :
  firstChar (dropStart p s) = Some c -> p c = false.
Proof.
  induction s as [|d s IH]; [discriminate|].
  cbn [dropStart]. destruct (p d) eqn:E; [exact IH|].
  cbn. intros [= <-]. exact E.
Qed.

Lemma firstChar_dropEnd (p : ascii -> bool) (s : string) (c : ascii) :
  firstChar (dropEnd p s) = Some c -> firstChar s = Some c.
Proof.
  destruct s as [|d s]; [discriminate|].
  cbn [dropEnd]. destruct (p d && (dropEnd p s =? "")); [discriminate | tauto].
Qed.

Lemma lastChar_dropEnd (p : ascii -> bool) (s : string) (c : ascii) :
  lastChar (dropEnd p s) = Some c -> p c = false.
Proof.
  induction s as [|d s IH]; [discriminate|].
  cbn [dropEnd]. destruct (dropEnd p s) as [|e t] eqn:T.
  - rewrite andb_true_r. destruct (p d) eqn:E; [discriminate|].
    cbn. intros [= <-]. exact E.
  - rewrite andb_false_r. cbn [lastChar]. exact IH.
Qed.

Lemma firstChar_collapse (s : string) :
  firstChar (collapseUnderscores s) = firstChar s.
Proof.
  induction s as [|c s IH]; [reflexivity|].
  cbn [collapseUnderscores]. destruct s as [|d r]; [reflexivity|].
  unfold isUnderscore.
  destruct (Ascii.eqb c "_") eqn:Ec; [|reflexivity].
  destruct (Ascii.eqb d "_") eqn:Ed; [|reflexivity].
  cbn [andb]. rewrite IH. cbn.
  apply Ascii.eqb_eq in Ec, Ed. congruence.
Qed.

Lemma collapse_not_empty (c : ascii) (s : string) :
  collapseUnderscores (String c s) <> "".
Proof.
  intros H. pose proof (firstChar_collapse (String c s)) as F.
  rewrite H in F. discriminate.
Qed.

Lemma lastChar_cons (c : ascii) (t : string) :
  t <> "" -> lastChar (String c t) = lastChar t.
Proof. destruct t; [contradiction | reflexivity]. Qed.

Lemma lastChar_collapse (s : string) :
  lastChar (collapseUnderscores s) = lastChar s.
Proof.
  induction s as [|c s IH]; [reflexivity|].
  cbn [collapseUnderscores]. destruct s as [|d r]; [reflexivity|].
  destruct (isUnderscore c && isUnderscore d).
  - rewrite IH. reflexivity.
  - pose proof (collapse_not_empty d r) as Hn.
    rewrite (lastChar_cons c (String d r)) by discriminate.
    rewrite (lastChar_cons c _ Hn). exact IH.
Qed.

Lemma collapse_no_run (s : string) :
  hasUnderscoreRun (collapseUnderscores s) = false.
Proof.
  induction s as [|c s IH]; [reflexivity|].
  cbn [collapseUnderscores]. destruct s as [|d r]; [reflexivity|].
  destruct (isUnderscore c && isUnderscore d) eqn:E; [exact IH|].
  pose proof (firstChar_collapse (String d r)) as F.
  destruct (collapseUnderscores (String d r)) as [|e t]; [reflexivity|].
  cbn in F. injection F as ->.
  cbn [hasUnderscoreRun]. rewrite E. exact IH.
Qed.

Lemma cleaned_shape (s : string) :
  let cleaned := collapseUnderscores (stripUnderscores s) in
  firstChar cleaned <> Some "_"%char /\
  lastChar cleaned <> Some "_"%char /\
  hasUnderscoreRun cleaned = false.
Proof.
  cbv zeta. unfold stripUnderscores. repeat split.
  - rewrite firstChar_collapse. intros H.
    apply firstChar_dropEnd, firstChar_dropStart in H. discriminate.
  - rewrite lastChar_collapse. intros H.
    apply lastChar_dropEnd in H. discriminate.
  - apply collapse_no_run.
Qed.

End CleanedShape.

(** C7.  [convertSnakeCaseToTitle] is a total function that returns a value
    that is not a string, or a string without underscore, unchanged; on any
    other string it works on the text with its leading and trailing
    underscores stripped and its runs of underscores collapsed to one (which
    has the very segments of the text itself), and returns the non-empty
    segments between underscores, each capitalized, joined by single
    spaces.  Capitalizing a segment puts its first code unit in upper case
    and the rest in lower case: a lower-case letter in first place becomes
    the upper-case letter 32 code units below it (the sharp s becomes
    [SS]), an upper-case letter further on becomes the lower-case letter 32
    code units above it, and a code unit that is not a letter stays.  The
    four sample values are as documented. *)
Theorem convertSnakeCaseToTitle_spec :
  (forall v : value, isString v = false -> convertSnakeCaseToTitle v = v) /\
  (forall s : string, includes "_" s = false ->
     convertSnakeCaseToTitle (VString s) = VString s) /\
  (forall s : string, includes "_" s = true -> allUpperInRange s = true ->
     let cleaned := collapseUnderscores (stripUnderscores s) in
     firstChar cleaned <> Some "_"%char /\
     lastChar cleaned <> Some "_"%char /\
     hasUnderscoreRun cleaned = false /\
     List.filter nonEmpty (split "_" cleaned) = List.filter nonEmpty (split "_" s) /\
     convertSnakeCaseToTitle (VString s) =
       VString (join " " (map (fun word => capitalizeWord (VString word))
                            (List.filter nonEmpty (split "_" cleaned))))) /\
  (forall (c : ascii) (w : string), upperInRange c = true ->
     capitalizeWord (VString (String c w)) = toUpperUnits c +:+ toLowerCase w /\
     String.length (toLowerCase w) = String.length w /\
     (forall (i : nat) (d : ascii), String.get i w = Some d ->
        String.get i (toLowerCase w) = Some (toLowerChar d))) /\
  (forall c : ascii,
     let n := nat_of_ascii c in
     ((97 <= n <= 122)%nat ->
        toUpperUnits c = String (ascii_of_nat (n - 32)) "" /\ toLowerChar c = c) /\
     ((65 <= n <= 90)%nat ->
        toLowerChar c = ascii_of_nat (n + 32) /\ toUpperUnits c = String c "") /\
     ((n < 65 \/ 90 < n < 97 \/ 122 < n < 181)%nat ->
        toUpperUnits c = String c "" /\ toLowerChar c = c) /\
     (n = 223%nat -> toUpperUnits c = "SS" /\ toLowerChar c = c)) /\
  convertSnakeCaseToTitle (VString "data_points_analyzed") = VString "Data Points Analyzed" /\
  convertSnakeCaseToTitle (VString "") = VString "" /\
  convertSnakeCaseToTitle (VString "noUnderscore") = VString "noUnderscore" /\
  convertSnakeCaseToTitle (VString "__a__b__") = VString "A B" /\
  convertSnakeCaseToTitle (VString "PAYMENT_mETHOD_2nd") = VString "Payment Method 2nd".
Proof.
  split; [|split; [|split; [|split; [|split]]]].
  - intros v Hv. destruct v; try reflexivity. discriminate.
  - intros s Hs. unfold convertSnakeCaseToTitle. rewrite Hs.
    now destruct (negb (truthy (VString s))).
  - intros s Hs _ cleaned.
    destruct (cleaned_shape s) as (H1 & H2 & H3).
    repeat split; try assumption.
    + apply segments_cleaned.
    + unfold convertSnakeCaseToTitle. rewrite Hs.
      destruct s; [discriminate | reflexivity].
  - intros c w _. split; [|split].
    + cbn [capitalizeWord String.eqb charAt0 slice1 toUpperCase].
      now rewrite append_nil_r.
    + unfold toLowerCase. induction w as [|d w IH]; cbn; [reflexivity | now rewrite IH].
    + unfold toLowerCase. induction w as [|d w IH]; intros i e; [discriminate|].
      destruct i as [|i]; cbn [String.get mapChars].
      * intros [= <-]. reflexivity.
      * apply IH.
  - intros c n. subst n.
    destruct c as [[] [] [] [] [] [] [] []];
      repeat split; intros; repeat split; try (vm_compute; reflexivity);
      exfalso; match goal with H : _ |- _ => vm_compute in H; lia end.
  - repeat split; vm_compute; reflexivity.
Qed.

Lemma convertSnakeCaseToTitle_spec_witness :
  convertSnakeCaseToTitle (VNumber 7) = VNumber 7 /\
  convertSnakeCaseToTitle (VString "total") = VString "total" /\
  convertSnakeCaseToTitle (VString "_payment__STATUS_") = VString "Payment Status".
Proof.
  destruct convertSnakeCaseToTitle_spec as (Hother & Hplain & Hsnake & _).
  split; [apply Hother; reflexivity|].
  split; [apply Hplain; reflexivity|].
  destruct (Hsnake "_payment__STATUS_" eq_refl eq_refl) as (_ & _ & _ & _ & ->).
  vm_compute. reflexivity.
Defined.

(** ** Table renderer *)

Section TableRenderer.

Lemma cellValue_nth (cells : list string) (i : nat) :
  cellValue cells i = nth i cells "".
Proof.
  unfold cellValue. destruct (nth_error cells i) as [c|] eqn:E.
  - rewrite (nth_error_nth _ _ _ E).
    destruct (c =? "") eqn:C; [|reflexivity].
    apply eqb_empty in C. now subst c.
  - apply nth_error_None in E. now rewrite nth_overflow.
Qed.

Lemma map_nth_nil {A : Type} (d : A) (ks : list nat) :
  map (fun i => nth i [] d) ks = repeat d (length ks).
Proof.
  induction ks as [|i ks IH]; [reflexivity|].
  cbn [map length repeat]. rewrite IH. now destruct i.
Qed.

Lemma map_nth_seq {A : Type} (d : A) (n : nat) (l : list A) :
  map (fun i => nth i l d) (seq 0 n) = firstn n l ++ repeat d (n - length l).
Proof.
  revert l. induction n as [|n IH]; intros l; [reflexivity|].
  destruct l as [|x l].
  - rewrite map_nth_nil, length_seq. reflexivity.
  - cbn [seq map]. rewrite <- seq_shift, List.map_map.
    cbn [firstn length Nat.sub app nth]. f_equal. apply IH.
Qed.

Lemma rowValues_padTruncate (headers : list value) (cells : list string) :
  rowValues headers cells = padTruncate (length headers) cells.
Proof.
  unfold rowValues, padTruncate. rewrite <- map_nth_seq.
  apply map_ext. intros i. apply cellValue_nth.
Qed.

Lemma padTruncate_length (n : nat) (cells : list string) :
  length (padTruncate n cells) = n.
Proof.
  unfold padTruncate. rewrite length_app, length_firstn, repeat_length. lia.
Qed.

Lemma padTruncate_kept (n i : nat) (cells : list string) :
  i < n -> i < length cells -> nth i (padTruncate n cells) "" = nth i cells "".
Proof.
  intros Hn Hc. unfold padTruncate.
  rewrite app_nth1 by (rewrite length_firstn; lia).
  rewrite nth_firstn. apply Nat.ltb_lt in Hn. now rewrite Hn.
Qed.

Lemma padTruncate_filled (n i : nat) (cells : list string) :
  length cells <= i -> nth i (padTruncate n cells) "" = "".
Proof.
  intros H. unfold padTruncate.
  rewrite app_nth2 by (rewrite length_firstn; lia).
  apply nth_repeat.
Qed.

Lemma dataRows_emitted (headers : list value) (dataLines : list string) (index : nat) :
  dataRows headers index dataLines =
  concat (map (rowHtml headers) (emittedRows index dataLines)).
Proof.
  revert index. induction dataLines as [|line rest IH]; intros index; [reflexivity|].
  cbn [dataRows emittedRows]. unfold dataRow.
  destruct (nonEmpty (trim line)); cbn [andb].
  - destruct (0 <? length (pipeCells line))%nat.
    + cbn [map concat]. rewrite IH. unfold rowHtml at 1. cbn [fst snd].
      rewrite rowValues_padTruncate. reflexivity.
    + rewrite append_nil_l. apply IH.
  - rewrite append_nil_l. apply IH.
Qed.

Lemma emittedRows_cells (dataLines : list string) (index : nat) :
  Forall (fun row => exists line, In line dataLines /\ snd row = pipeCells line /\ snd row <> [])
    (emittedRows index dataLines).
Proof.
  revert index. induction dataLines as [|line rest IH]; intros index; [constructor|].
  cbn [emittedRows].
  assert (Hrest : Forall (fun row => exists l, In l (line :: rest) /\
                                snd row = pipeCells l /\ snd row <> [])
                    (emittedRows (S index) rest)).
  { eapply List.Forall_impl; [|apply IH]. intros row (l & Hin & Hc & Hn).
    exists l. split; [now right | now split]. }
  destruct (nonEmpty (trim line) && (0 <? length (pipeCells line))%nat) eqn:E; [|exact Hrest].
  constructor; [|exact Hrest].
  exists line. cbn [snd]. split; [now left|]. split; [reflexivity|].
  apply andb_true_iff in E as [_ E]. apply Nat.ltb_lt in E.
  destruct (pipeCells line); [cbn in E; lia | discriminate].
Qed.

Lemma convertMarkdownToTable_string (md : string) :
  md <> "" ->
  convertMarkdownToTable (VString md) =
  tryCatch (tableBody md) (fun _ => rawFallback (VString md)).
Proof.
  intros H. unfold convertMarkdownToTable, convertMarkdownToTableWith.
  destruct md; [contradiction | reflexivity].
Qed.

Lemma tableBody_normal (md : string) : exists html, tableBody md = Normal html.
Proof.
  unfold tableBody.
  destruct (length (split newline (trim md)) <? 2)%nat; [eauto|].
  destruct (length (tableHeaders (nth 0 (split newline (trim md)) "")) =? 0)%nat; eauto.
Qed.

(** Counting cell tags in the generated markup: escaped text has no
    opening angle bracket, and every constant piece is known. *)
Lemma occ_char (c : ascii) (s : string) :
  Ascii.eqb c "<" = false -> occurrences "<td" (String c s) = occurrences "<td" s.
Proof.
  intros H. cbn [occurrences String.prefix].
  destruct (ascii_dec "<" c) as [E|E]; [|reflexivity].
  subst c. discriminate.
Qed.

Lemma occ_escapeText (t s : string) :
  occurrences "<td" (escapeText t +:+ s) = occurrences "<td" s.
Proof.
  induction t as [|c t IH]; [reflexivity|].
  cbn [escapeText]. rewrite append_assoc. unfold escapeChar.
  destruct (Ascii.eqb c "&") eqn:E1; [exact IH|].
  destruct (Ascii.eqb c nbsp) eqn:E0; [exact IH|].
  destruct (Ascii.eqb c "<") eqn:E2; [exact IH|].
  destruct (Ascii.eqb c ">") eqn:E3; [exact IH|].
  rewrite append_cons, append_nil_l, occ_char by exact E2. exact IH.
Qed.

Lemma occ_td (v s : string) :
  occurrences "<td" (td v +:+ s) = S (occurrences "<td" s).
Proof.
  unfold td. rewrite !append_assoc.
  change (occurrences "<td" (tdOpen +:+ escapeHtml (VString v) +:+ "</td>" +:+ s))
    with (S (occurrences "<td" (escapeText v +:+ "</td>" +:+ s))).
  rewrite occ_escapeText. reflexivity.
Qed.

Lemma occ_escapeHtml (v : value) (s : string) :
  occurrences "<td" (escapeHtml v +:+ s) = occurrences "<td" s.
Proof. destruct v; try reflexivity. apply occ_escapeText. Qed.

Lemma occ_th (h : value) (s : string) :
  occurrences "<td" (th h +:+ s) = occurrences "<td" s.
Proof.
  unfold th. rewrite !append_assoc.
  change (occurrences "<td" (thOpen +:+ escapeHtml h +:+ "</th>" +:+ s))
    with (occurrences "<td" (escapeHtml h +:+ "</th>" +:+ s)).
  rewrite occ_escapeHtml. reflexivity.
Qed.

Lemma occ_headers (headers : list value) (s : string) :
  occurrences "<td" (concat (map th headers) +:+ s) = occurrences "<td" s.
Proof.
  induction headers as [|h headers IH]; [reflexivity|].
  cbn [map concat]. rewrite append_assoc, occ_th. exact IH.
Qed.

Lemma occ_cells (vals : list string) (s : string) :
  occurrences "<td" (concat (map td vals) +:+ s) = length vals + occurrences "<td" s.
Proof.
  induction vals as [|v vals IH]; [reflexivity|].
  cbn [map concat length]. rewrite append_assoc, occ_td, IH. reflexivity.
Qed.

Lemma occ_trOpen (index : nat) (s : string) :
  occurrences "<td" (trOpen index +:+ s) = occurrences "<td" s.
Proof. unfold trOpen, rowClass. destruct (Nat.even index); reflexivity. Qed.

Lemma occ_row (headers : list value) (row : nat * list string) (s : string) :
  occurrences "<td" (rowHtml headers row +:+ s) = length headers + occurrences "<td" s.
Proof.
  unfold rowHtml. rewrite !append_assoc, occ_trOpen.
  change (map _ (padTruncate (length headers) (snd row)))
    with (map td (padTruncate (length headers) (snd row))).
  rewrite occ_cells, padTruncate_length. reflexivity.
Qed.

Lemma occ_rows (headers : list value) (rows : list (nat * list string)) (s : string) :
  occurrences "<td" (concat (map (rowHtml headers) rows) +:+ s) =
  length headers * length rows + occurrences "<td" s.
Proof.
  induction rows as [|row rows IH]; [cbn [map concat length]; now rewrite Nat.mul_0_r|].
  cbn [map concat length]. rewrite append_assoc, occ_row, IH. lia.
Qed.

Lemma occ_table (headers : list value) (dataLines : list string) :
  occurrences "<td" (tableHtml headers dataLines) =
  length headers * length (emittedRows 0 dataLines).
Proof.
  unfold tableHtml. rewrite dataRows_emitted.
  change (occurrences "<td" (tableOpen +:+ "<thead><tr>" +:+ ?x))
    with (occurrences "<td" x).
  rewrite occ_headers.
  change (occurrences "<td" ("</tr></thead>" +:+ "<tbody>" +:+ ?x))
    with (occurrences "<td" x).
  rewrite occ_rows. change (occurrences "<td" "</tbody></table></div>") with 0. lia.
Qed.

End TableRenderer.

(** C3.  On the table path (at least two lines, at least one header) the
    markup is the header row followed by one row per emitted data line, and
    every such row has exactly as many cells as there are headers: cell
    number [i] of the row, for every [i] below the number of headers, holds
    cell [i] of the line when the line has one and the empty text when it
    has not, so that cells beyond the headers are dropped and missing cells
    are empty; every cell value and every header goes through the HTML
    escaping (the markup is written out for header lines whose upper-case
    forms stay in the modelled range; the count of cells holds for all).
    Hence the markup has as many cell tags as headers times
    emitted rows.  Three cells under two headers give two cells; one cell
    under three headers gives three cells, two of them empty.  A cell of
    no-break spaces only is blank like one of spaces, and a no-break space
    inside a cell is written as [&nbsp;]. *)
Theorem convertMarkdownToTable_rows :
  (forall md : string,
     let lines := split newline (trim md) in
     let headers := tableHeaders (nth 0 lines "") in
     let rows := emittedRows 0 (skipn 2 lines) in
     2 <= length lines -> 1 <= length headers ->
     (allUpperInRange (nth 0 lines "") = true ->
      convertMarkdownToTable (VString md) =
       tableOpen +:+ "<thead><tr>"
       +:+ concat (map (fun h => thOpen +:+ escapeHtml h +:+ "</th>") headers)
       +:+ "</tr></thead><tbody>"
       +:+ concat
             (map (fun row =>
                     trOpen (fst row)
                     +:+ concat
                           (map (fun i =>
                                   tdOpen +:+ escapeHtml (VString (nth i (snd row) ""))
                                   +:+ "</td>")
                              (seq 0 (length headers)))
                     +:+ "</tr>")
                rows)
       +:+ "</tbody></table></div>")
     /\ occurrences "<td" (convertMarkdownToTable (VString md)) =
        length headers * length rows)
  /\ (let html := convertMarkdownToTable (VString (unlines ["a|b"; "-|-"; "1|2|3"])) in
      html = tableOpen +:+ "<thead><tr>" +:+ th (VString "a") +:+ th (VString "b")
             +:+ "</tr></thead><tbody>"
             +:+ trOpen 0 +:+ td "1" +:+ td "2" +:+ "</tr>"
             +:+ "</tbody></table></div>"
      /\ occurrences "<td" html = 2)
  /\ (let html := convertMarkdownToTable (VString (unlines ["a|b|c"; "-|-|-"; "1"])) in
      html = tableOpen +:+ "<thead><tr>" +:+ th (VString "a") +:+ th (VString "b")
             +:+ th (VString "c") +:+ "</tr></thead><tbody>"
             +:+ trOpen 0 +:+ td "1" +:+ td "" +:+ td "" +:+ "</tr>"
             +:+ "</tbody></table></div>"
      /\ occurrences "<td" html = 3
      /\ occurrences (tdOpen +:+ "</td>") html = 2)
  /\ (let html := convertMarkdownToTable (VString (unlines ["<i>|b&c"; "-|-"; "1<2|"])) in
      html = tableOpen +:+ "<thead><tr>"
             +:+ thOpen +:+ "&lt;i&gt;</th>" +:+ thOpen +:+ "b&amp;c</th>"
             +:+ "</tr></thead><tbody>"
             +:+ trOpen 0 +:+ tdOpen +:+ "1&lt;2</td>" +:+ tdOpen +:+ "</td>" +:+ "</tr>"
             +:+ "</tbody></table></div>")
  /\ (let html :=
        convertMarkdownToTable
          (VString (unlines ["a|b"; "-|-"; String nbsp "|2"; String nbsp "";
                             "x" +:+ String nbsp "y|1"])) in
      html = tableOpen +:+ "<thead><tr>" +:+ th (VString "a") +:+ th (VString "b")
             +:+ "</tr></thead><tbody>"
             +:+ trOpen 0 +:+ td "2" +:+ td "" +:+ "</tr>"
             +:+ trOpen 2 +:+ tdOpen +:+ "x&nbsp;y</td>" +:+ td "1" +:+ "</tr>"
             +:+ "</tbody></table></div>").
Proof.
  split; [|split; [|split; [|split]]; vm_compute; repeat split].
  intros md lines headers rows Hlines Hheaders.
  assert (Htable : convertMarkdownToTable (VString md) = tableHtml headers (skipn 2 lines)).
  { assert (Hmd : md <> "") by (intros ->; vm_compute in Hlines; lia).
    rewrite (convertMarkdownToTable_string md Hmd). unfold tableBody.
    fold lines. fold headers.
    apply Nat.ltb_ge in Hlines. rewrite Hlines.
    destruct (length headers =? 0)%nat eqn:E; [apply Nat.eqb_eq in E; lia|].
    reflexivity. }
  split.
  - intros _. rewrite Htable. unfold tableHtml. rewrite dataRows_emitted.
    rewrite (map_ext (rowHtml headers)
               (fun row =>
                  trOpen (fst row)
                  +:+ concat
                        (map (fun i =>
                                tdOpen +:+ escapeHtml (VString (nth i (snd row) ""))
                                +:+ "</td>")
                           (seq 0 (length headers)))
                  +:+ "</tr>")).
    + reflexivity.
    + intros row. unfold rowHtml, padTruncate.
      rewrite <- map_nth_seq, List.map_map. reflexivity.
  - rewrite Htable. apply occ_table.
Qed.

Lemma convertMarkdownToTable_rows_witness :
  let md := unlines ["region|total_amount"; "---|---"; "EU|10|extra"; ""; "US"] in
  occurrences "<td" (convertMarkdownToTable (VString md)) = 4.
Proof.
  cbv zeta.
  destruct convertMarkdownToTable_rows as (Hrows & _).
  destruct (Hrows (unlines ["region|total_amount"; "---|---"; "EU|10|extra"; ""; "US"]))
    as (_ & Htd); [vm_compute; lia | vm_compute; lia |].
  exact Htd.
Defined.

(** C4 as stated fails on the empty string: it has fewer than two lines,
    and the result is the fixed notice, not the preformatted block. *)
Lemma convertMarkdownToTable_empty_string :
  length (split newline (trim "")) = 1 /\
  convertMarkdownToTable (VString "") = noTableData /\
  (convertMarkdownToTable (VString "") =? rawFallback (VString "")) = false.
Proof. vm_compute. repeat split. Qed.

(** C4, amended.  The guarded block of [convertMarkdownToTable] never
    throws, so the function returns to its caller on every input; for every
    non-empty string with fewer than two lines after trimming, for every
    non-empty string whose header line yields no column, and whenever the
    guarded block throws on a non-empty string, the result is the raw-text
    fallback: the input, HTML-escaped, inside a preformatted block.  The
    empty string and every non-string value give the fixed notice
    instead.  A trailing line of no-break spaces is trimmed away like one
    of spaces, and is written as [&nbsp;] in the fallback. *)
Theorem convertMarkdownToTable_fallback :
  (forall md : string, exists html, tableBody md = Normal html) /\
  (forall md : string, md <> "" -> length (split newline (trim md)) < 2 ->
     convertMarkdownToTable (VString md) = rawFallback (VString md)) /\
  (forall md : string, md <> "" ->
     length (tableHeaders (nth 0 (split newline (trim md)) "")) = 0 ->
     convertMarkdownToTable (VString md) = rawFallback (VString md)) /\
  (forall (block : string -> completion string) (md : string) (e : value),
     md <> "" -> block md = Throw e ->
     convertMarkdownToTableWith block (VString md) = rawFallback (VString md)) /\
  (forall md : string,
     rawFallback (VString md) =
     "<pre class=" +:+ quoted "bg-gray-100 p-3 rounded text-sm overflow-x-auto" +:+ ">"
     +:+ escapeText md +:+ "</pre>") /\
  (forall v : value, truthy v = false \/ isString v = false ->
     convertMarkdownToTable v = noTableData) /\
  noTableData =
    "<p class=" +:+ quoted "text-gray-500 text-sm" +:+ ">No table data available</p>" /\
  convertMarkdownToTable (VString (unlines ["a < b"; String nbsp ""])) =
    "<pre class=" +:+ quoted "bg-gray-100 p-3 rounded text-sm overflow-x-auto" +:+ ">"
    +:+ "a &lt; b" +:+ String newline "&nbsp;</pre>".
Proof.
  split; [exact tableBody_normal|].
  split; [|split; [|split; [|split]]].
  - intros md Hmd Hlines. rewrite (convertMarkdownToTable_string md Hmd).
    unfold tableBody. apply Nat.ltb_lt in Hlines. now rewrite Hlines.
  - intros md Hmd Hheaders. rewrite (convertMarkdownToTable_string md Hmd).
    unfold tableBody. rewrite Hheaders.
    now destruct (length (split newline (trim md)) <? 2)%nat.
  - intros block md e Hmd Hthrow. unfold convertMarkdownToTableWith.
    destruct md; [contradiction|]. cbn [truthy isString negb orb String.eqb].
    now rewrite Hthrow.
  - reflexivity.
  - split; [|split; vm_compute; reflexivity].
    intros v [H|H]; unfold convertMarkdownToTable, convertMarkdownToTableWith;
      rewrite H; cbn [negb orb]; [reflexivity | now rewrite orb_true_r].
Qed.

Lemma convertMarkdownToTable_fallback_witness :
  convertMarkdownToTable (VString "no table here") = rawFallback (VString "no table here") /\
  convertMarkdownToTable (VString (unlines ["|"; "x"])) = rawFallback (VString (unlines ["|"; "x"])) /\
  convertMarkdownToTableWith (fun _ => Throw VUndefined) (VString "a") = rawFallback (VString "a") /\
  convertMarkdownToTable VNull = noTableData.
Proof.
  destruct convertMarkdownToTable_fallback as (_ & Hshort & Hcols & Hthrow & _ & Hother & _).
  split; [apply Hshort; [discriminate | vm_compute; lia]|].
  split; [apply Hcols; [discriminate | reflexivity]|].
  split; [apply (Hthrow _ "a" VUndefined); [discriminate | reflexivity]|].
  apply Hother. left. reflexivity.
Defined.

(** ** Sanitizer *)

Section Sanitizer.

(** Induction over a node and, through the child list, its subtrees. *)
Lemma node_induction (P : node -> Prop) :
  (forall data, P (Text data)) ->
  (forall data, P (Comment data)) ->
  (forall name attrs children, Forall P children -> P (Element name attrs children)) ->
  (forall attrs content, P (Template attrs content)) ->
  forall n, P n.
Proof.
  intros HText HComment HElement HTemplate.
  fix IH 1. intros [data|data|name attrs children|attrs content].
  - apply HText.
  - apply HComment.
  - apply HElement. induction children as [|c children IHc]; constructor.
    + apply IH.
    + exact IHc.
  - apply HTemplate.
Qed.

Lemma in_omap {A B : Type} (f : A -> option B) (l : list A) (y : B) :
  In y (omap f l) <-> exists x, In x l /\ f x = Some y.
Proof.
  induction l as [|a l IH]; cbn.
  - split; [tauto | intros (x & [] & _)].
  - destruct (f a) as [b|] eqn:E; cbn; rewrite IH; split.
    + intros [<-|(x & Hx & Hf)]; [exists a; tauto | exists x; tauto].
    + intros (x & [<-|Hx] & Hf); [left; congruence | right; eauto].
    + intros (x & Hx & Hf). exists x. tauto.
    + intros (x & [<-|Hx] & Hf); [congruence | eauto].
Qed.

(** Removal by tag. *)
Lemma removeNode_elements (tag : string) (n n' : node) (e : element) :
  removeNode tag n = Some n' -> In e (treeElements n') ->
  fst e <> tag /\ In e (treeElements n).
Proof.
  revert n' e. induction n as [data|data|name attrs children IH|attrs content]
    using node_induction; intros n' e; cbn [removeNode].
  - intros [= <-] [].
  - intros [= <-] [].
  - destruct (name =? tag) eqn:E; [discriminate|]. intros [= <-].
    apply String.eqb_neq in E. cbn [treeElements].
    intros [<-|Hin]; [split; [exact E | now left]|].
    apply in_flat_map in Hin as (c' & Hc' & He).
    apply in_omap in Hc' as (c & Hc & Hrm).
    rewrite List.Forall_forall in IH.
    destruct (IH c Hc c' e Hrm He) as [Hne Hin].
    split; [exact Hne|]. right. apply in_flat_map. eauto.
  - destruct ("template" =? tag) eqn:E; [discriminate|]. intros [= <-].
    apply String.eqb_neq in E. cbn [treeElements].
    intros [<-|[]]. split; [exact E | now left].
Qed.

Lemma removeAll_elements (tag : string) (f : list node) (e : element) :
  In e (flat_map treeElements (removeAll tag f)) ->
  fst e <> tag /\ In e (flat_map treeElements f).
Proof.
  intros Hin. apply in_flat_map in Hin as (n' & Hn' & He).
  apply in_omap in Hn' as (n & Hn & Hrm).
  destruct (removeNode_elements tag n n' e Hrm He) as [Hne Hin].
  split; [exact Hne|]. apply in_flat_map. eauto.
Qed.

Lemma removeTags_elements (tags : list string) (f : list node) (e : element) :
  In e (flat_map treeElements (fold_left (fun g tag => removeAll tag g) tags f)) ->
  ~ In (fst e) tags /\ In e (flat_map treeElements f).
Proof.
  revert f. induction tags as [|tag tags IH]; intros f; cbn [fold_left].
  - intros H. split; [intros [] | exact H].
  - intros H. apply IH in H as [Hnot Hin].
    apply removeAll_elements in Hin as [Hne Hin].
    split; [|exact Hin]. intros [Heq|Hin']; [now apply Hne | now apply Hnot].
Qed.

(** Attribute cleaning. *)
Lemma removeIfPresent (name : string) (attrs : gmap string string) :
  (if hasAttribute name attrs then removeAttribute name attrs else attrs) = delete name attrs.
Proof.
  unfold hasAttribute, removeAttribute.
  destruct (attrs !! name) eqn:E; [reflexivity|]. symmetry. now apply delete_id.
Qed.

Lemma removeNamed_lookup (names : list string) (attrs : gmap string string) (k : string) :
  In k names \/ attrs !! k = None ->
  fold_left (fun a attr => if hasAttribute attr a then removeAttribute attr a else a)
    names attrs !! k = None.
Proof.
  revert attrs. induction names as [|name names IH]; intros attrs; cbn [fold_left].
  - intros [[]|H]. exact H.
  - intros H. apply IH. rewrite removeIfPresent, lookup_delete_None.
    destruct H as [[->|H]|H]; tauto.
Qed.

Lemma dropIfJavascript_absent (name k : string) (attrs : gmap string string) :
  attrs !! k = None -> dropIfJavascript name attrs !! k = None.
Proof.
  intros H. unfold dropIfJavascript, getAttribute, removeAttribute.
  destruct (attrs !! name) as [v|]; [|exact H].
  destruct (startsWith "javascript:" v); [|exact H].
  apply lookup_delete_None. now right.
Qed.

Lemma dropIfJavascript_same (name v : string) (attrs : gmap string string) :
  dropIfJavascript name attrs !! name = Some v -> startsWith "javascript:" v = false.
Proof.
  unfold dropIfJavascript, getAttribute, removeAttribute.
  destruct (attrs !! name) as [w|] eqn:E.
  - destruct (startsWith "javascript:" w) eqn:J.
    + rewrite lookup_delete_eq. discriminate.
    + rewrite E. intros [= <-]. exact J.
  - rewrite E. discriminate.
Qed.

Lemma dropIfJavascript_kept (name k v : string) (attrs : gmap string string) :
  dropIfJavascript name attrs !! k = Some v -> attrs !! k = Some v.
Proof.
  unfold dropIfJavascript, getAttribute, removeAttribute.
  destruct (attrs !! name) as [w|]; [|tauto].
  destruct (startsWith "javascript:" w); [|tauto].
  rewrite lookup_delete. destruct (decide (name = k)); [discriminate | tauto].
Qed.

Lemma cleanAttributes_clean (name : string) (attrs : gmap string string) :
  ~ In name dangerousElements -> clean (name, cleanAttributes attrs).
Proof.
  intros Hname. unfold clean, cleanAttributes. cbn [fst snd].
  split; [exact Hname|]. split; [|split].
  - intros a Ha. do 2 apply dropIfJavascript_absent.
    apply removeNamed_lookup. now left.
  - intros v H. apply dropIfJavascript_kept in H.
    now apply dropIfJavascript_same in H.
  - intros v H. now apply dropIfJavascript_same in H.
Qed.

Lemma cleanNode_elements (n : node) :
  treeElements (cleanNode n) =
  map (fun e => (fst e, cleanAttributes (snd e))) (treeElements n).
Proof.
  induction n as [data|data|name attrs children IH|attrs content] using node_induction;
    try reflexivity.
  cbn [cleanNode treeElements map fst snd]. f_equal.
  induction children as [|c children IHc]; [reflexivity|].
  inversion IH as [|? ? Hc Hrest]; subst.
  cbn [map flat_map]. rewrite List.map_app, Hc, (IHc Hrest). reflexivity.
Qed.

Lemma cleanFragment_tree (f : list node) (e : element) :
  In e (flat_map treeElements (cleanFragment f)) -> clean e.
Proof.
  unfold cleanFragment, removeDangerous. intros Hin.
  apply in_flat_map in Hin as (n' & Hn' & He).
  apply in_map_iff in Hn' as (n & <- & Hn).
  rewrite cleanNode_elements in He.
  apply in_map_iff in He as (e0 & <- & He0).
  apply cleanAttributes_clean.
  assert (Hin : In e0 (flat_map treeElements
            (fold_left (fun g tag => removeAll tag g) dangerousElements f)))
    by (apply in_flat_map; eauto).
  now apply removeTags_elements in Hin as [Hnot _].
Qed.

(** Fragments without [template]: the markup shows the child tree and
    nothing else, and sanitizing keeps it so. *)
Lemma templateFree_markup (n : node) :
  templateFree n = true -> markupElements n = treeElements n.
Proof.
  induction n as [data|data|name attrs children IH|attrs content] using node_induction;
    try reflexivity; [|discriminate].
  cbn [templateFree markupElements treeElements]. intros Hfree. f_equal.
  induction children as [|c children IHc]; [reflexivity|].
  inversion IH as [|? ? Hc Hrest]; subst.
  cbn [forallb] in Hfree. apply andb_true_iff in Hfree as [Hfc Hfr].
  cbn [flat_map]. now rewrite (Hc Hfc), (IHc Hrest Hfr).
Qed.

Lemma templateFree_removeNode (tag : string) (n n' : node) :
  templateFree n = true -> removeNode tag n = Some n' -> templateFree n' = true.
Proof.
  revert n'. induction n as [data|data|name attrs children IH|attrs content]
    using node_induction; intros n'; cbn [removeNode templateFree].
  - intros _ [= <-]. reflexivity.
  - intros _ [= <-]. reflexivity.
  - intros Hfree. destruct (name =? tag); [discriminate|]. intros [= <-].
    cbn [templateFree]. apply forallb_forall. intros c' Hc'.
    apply in_omap in Hc' as (c & Hc & Hrm).
    rewrite List.Forall_forall in IH. rewrite forallb_forall in Hfree. eauto.
  - discriminate.
Qed.

Lemma templateFree_cleanNode (n : node) :
  templateFree n = true -> templateFree (cleanNode n) = true.
Proof.
  induction n as [data|data|name attrs children IH|attrs content] using node_induction;
    try tauto.
  cbn [cleanNode templateFree]. rewrite !forallb_forall. intros Hfree c' Hc'.
  apply in_map_iff in Hc' as (c & <- & Hc).
  rewrite List.Forall_forall in IH. eauto.
Qed.

Lemma templateFree_removeTags (tags : list string) (f : list node) :
  forallb templateFree f = true ->
  forallb templateFree (fold_left (fun g tag => removeAll tag g) tags f) = true.
Proof.
  revert f. induction tags as [|tag tags IH]; intros f Hfree; [exact Hfree|].
  cbn [fold_left]. apply IH. apply forallb_forall. intros n' Hn'.
  apply in_omap in Hn' as (n & Hn & Hrm). rewrite forallb_forall in Hfree.
  eapply templateFree_removeNode; eauto.
Qed.

Lemma templateFree_cleanFragment (f : list node) :
  forallb templateFree f = true -> forallb templateFree (cleanFragment f) = true.
Proof.
  intros Hfree. unfold cleanFragment, removeDangerous. apply forallb_forall. intros n' Hn'.
  apply in_map_iff in Hn' as (n & <- & Hn). apply templateFree_cleanNode.
  pose proof (templateFree_removeTags dangerousElements f Hfree) as H.
  rewrite forallb_forall in H. eauto.
Qed.

Lemma templateFree_markup_all (f : list node) :
  forallb templateFree f = true -> flat_map markupElements f = flat_map treeElements f.
Proof.
  induction f as [|n f IH]; [reflexivity|]. cbn [forallb flat_map].
  intros H. apply andb_true_iff in H as [Hn Hf].
  now rewrite (templateFree_markup n Hn), (IH Hf).
Qed.


(** The callbacks with their calls: a callback that returns has cleaned
    the attributes of its element, and the only thing thrown is the
    [TypeError] of a call on a form that answers for the method's name. *)
Section Calls.
Variable named : nat -> string -> bool.

Lemma call_cases (i : nat) (el : element) (m : string) :
  (call named i el m = Normal tt /\ (fst el =? "form") && named i m = false) \/
  (call named i el m = Throw typeError /\ (fst el =? "form") && named i m = true).
Proof. unfold call. destruct ((fst el =? "form") && named i m); tauto. Qed.

Lemma removeDangerousAttribute_result (i : nat) (el : element)
    (attrs : gmap string string) (attr : string) :
  removeDangerousAttribute named i el attrs attr =
    Normal (if hasAttribute attr attrs then removeAttribute attr attrs else attrs) \/
  removeDangerousAttribute named i el attrs attr = Throw typeError.
Proof.
  unfold removeDangerousAttribute.
  destruct (call_cases i el "hasAttribute") as [[-> _]|[-> _]]; [|now right].
  cbn [andThen]. destruct (hasAttribute attr attrs); [|now left].
  destruct (call_cases i el "removeAttribute") as [[-> _]|[-> _]]; [now left | now right].
Qed.

Lemma removeJavascript_result (i : nat) (el : element)
    (name : string) (attrs : gmap string string) :
  removeJavascript named i el name attrs = Normal (dropIfJavascript name attrs) \/
  removeJavascript named i el name attrs = Throw typeError.
Proof.
  unfold removeJavascript, dropIfJavascript.
  destruct (call_cases i el "hasAttribute") as [[-> _]|[-> _]]; [|now right].
  cbn [andThen]. destruct (getAttribute name attrs) as [v|]; [|now left].
  destruct (call_cases i el "getAttribute") as [[-> _]|[-> _]]; [|now right].
  cbn [andThen]. destruct (startsWith "javascript:" v); [|now left].
  destruct (call_cases i el "removeAttribute") as [[-> _]|[-> _]]; [now left | now right].
Qed.

Lemma removeAttributes_result (i : nat) (el : element) (names : list string)
    (done : completion (gmap string string)) :
  (exists attrs,
     done = Normal attrs /\
     fold_left (fun d attr => andThen d (fun a => removeDangerousAttribute named i el a attr))
       names done =
     Normal (fold_left
               (fun a attr => if hasAttribute attr a then removeAttribute attr a else a)
               names attrs)) \/
  fold_left (fun d attr => andThen d (fun a => removeDangerousAttribute named i el a attr))
    names done = Throw typeError \/
  (exists e, done = Throw e).
Proof.
  revert done. induction names as [|name names IH]; intros done.
  - destruct done as [attrs|e]; [left; eauto | right; right; eauto].
  - cbn [fold_left]. destruct done as [attrs|e]; [|right; right; eauto].
    cbn [andThen].
    destruct (removeDangerousAttribute_result i el attrs name) as [E|E]; rewrite E.
    + destruct (IH (Normal (if hasAttribute name attrs
                            then removeAttribute name attrs else attrs)))
        as [(a & [= <-] & H)|[H|(e & [=])]]; [left | right; left; exact H].
      exists attrs. split; [reflexivity | exact H].
    + right. left. clear. induction names as [|n names IHn]; [reflexivity | exact IHn].
Qed.

Lemma cleanElement_result (i : nat) (el : element) :
  cleanElement named i el = Normal (cleanAttributes (snd el)) \/
  cleanElement named i el = Throw typeError.
Proof.
  unfold cleanElement, cleanAttributes.
  destruct (removeAttributes_result i el dangerousAttributes (Normal (snd el)))
    as [(a & [= <-] & ->)|[->|(e & [=])]]; [|now right].
  cbn [andThen].
  destruct (removeJavascript_result i el "href"
              (fold_left (fun a attr => if hasAttribute attr a then removeAttribute attr a else a)
                 dangerousAttributes (snd el))) as [->| ->]; [|now right].
  cbn [andThen]. apply removeJavascript_result.
Qed.

Lemma cleanElement_other (i : nat) (el : element) :
  (fst el =? "form") && named i "hasAttribute" = false ->
  (fst el =? "form") && named i "removeAttribute" = false ->
  (fst el =? "form") && named i "getAttribute" = false ->
  cleanElement named i el = Normal (cleanAttributes (snd el)).
Proof.
  intros Hh Hr Hg.
  assert (Hcall : forall m, m = "hasAttribute" \/ m = "removeAttribute" \/ m = "getAttribute" ->
            call named i el m = Normal tt).
  { intros m [->|[->| ->]]; unfold call; now rewrite ?Hh, ?Hr, ?Hg. }
  assert (Hstep : forall attrs attr,
            removeDangerousAttribute named i el attrs attr =
            Normal (if hasAttribute attr attrs then removeAttribute attr attrs else attrs)).
  { intros attrs attr. unfold removeDangerousAttribute.
    rewrite !Hcall by tauto. cbn [andThen]. now destruct (hasAttribute attr attrs). }
  assert (Hdrop : forall name attrs,
            removeJavascript named i el name attrs = Normal (dropIfJavascript name attrs)).
  { intros name attrs. unfold removeJavascript, dropIfJavascript.
    rewrite !Hcall by tauto. cbn [andThen].
    destruct (getAttribute name attrs) as [v|]; [|reflexivity].
    now destruct (startsWith "javascript:" v). }
  unfold cleanElement, cleanAttributes.
  assert (Hfold : forall names attrs,
            fold_left (fun d attr => andThen d (fun a => removeDangerousAttribute named i el a attr))
              names (Normal attrs) =
            Normal (fold_left
                      (fun a attr => if hasAttribute attr a then removeAttribute attr a else a)
                      names attrs)).
  { induction names as [|n names IHn]; intros attrs; [reflexivity|].
    cbn [fold_left andThen]. rewrite Hstep. apply IHn. }
  rewrite Hfold. cbn [andThen]. rewrite Hdrop. cbn [andThen]. apply Hdrop.
Qed.

Lemma cleanElement_shadowed (i : nat) (el : element) :
  fst el = "form" -> named i "hasAttribute" = true ->
  cleanElement named i el = Throw typeError.
Proof.
  intros Hform Hnamed.
  assert (Hstep : forall attrs attr,
            removeDangerousAttribute named i el attrs attr = Throw typeError).
  { intros attrs attr. unfold removeDangerousAttribute, call.
    now rewrite Hform, Hnamed. }
  unfold cleanElement, dangerousAttributes.
  cbn [fold_left andThen]. rewrite Hstep. reflexivity.
Qed.

Lemma forEachElement_result (i : nat) (l : list element) :
  forEachElement named i l = Normal tt \/ forEachElement named i l = Throw typeError.
Proof.
  revert i. induction l as [|el l IH]; intros i; [now left|].
  cbn [forEachElement]. destruct (cleanElement_result i el) as [->| ->]; [|now right].
  apply IH.
Qed.

Lemma forEachElement_other (i : nat) (l : list element) :
  Forall (fun el => fst el <> "form") l -> forEachElement named i l = Normal tt.
Proof.
  intros H. revert i. induction H as [|el l Hel _ IH]; intros i; [reflexivity|].
  cbn [forEachElement]. apply String.eqb_neq in Hel.
  rewrite cleanElement_other by (now rewrite Hel). apply IH.
Qed.

Lemma forEachElement_shadowed (i k : nat) (l : list element) (el : element) :
  nth_error l k = Some el -> fst el = "form" -> named (i + k) "hasAttribute" = true ->
  forEachElement named i l = Throw typeError.
Proof.
  revert i k. induction l as [|el0 l IH]; intros i k; [now destruct k|].
  destruct k as [|k]; cbn [nth_error forEachElement].
  - intros [= ->] Hform Hnamed. rewrite Nat.add_0_r in Hnamed.
    now rewrite cleanElement_shadowed.
  - intros Hk Hform Hnamed.
    destruct (cleanElement_result i el0) as [->| ->]; [|reflexivity].
    cbn [andThen]. apply (IH (S i) k Hk Hform).
    now rewrite Nat.add_succ_comm.
Qed.

Lemma sanitizeFragment_result (f : list node) :
  sanitizeFragment named f = Normal (cleanFragment f) \/
  sanitizeFragment named f = Throw typeError.
Proof.
  unfold sanitizeFragment, cleanFragment.
  destruct (forEachElement_result 0 (flat_map treeElements (removeDangerous f)))
    as [->| ->]; [now left | now right].
Qed.

Lemma formFree_removeDangerous (f : list node) :
  formFree f -> formFree (removeDangerous f).
Proof.
  intros H e He. apply removeTags_elements in He as [_ He]. now apply H.
Qed.

Lemma sanitizeFragment_formFree (f : list node) :
  formFree f -> sanitizeFragment named f = Normal (cleanFragment f).
Proof.
  intros H. unfold sanitizeFragment, cleanFragment.
  rewrite forEachElement_other; [reflexivity|].
  apply List.Forall_forall. apply formFree_removeDangerous, H.
Qed.

Lemma sanitizeFragment_shadowed (f : list node) (k : nat) (el : element) :
  nth_error (flat_map treeElements (removeDangerous f)) k = Some el ->
  fst el = "form" -> named k "hasAttribute" = true ->
  sanitizeFragment named f = Throw typeError.
Proof.
  intros Hk Hform Hnamed. unfold sanitizeFragment.
  now rewrite (forEachElement_shadowed 0 k _ el Hk Hform Hnamed).
Qed.

End Calls.

End Sanitizer.

(** C5.  What the code does on the sample elements written inside a
    [template]: the parser puts them into the template contents, which
    neither loop reaches, so the fragment handed to the serialiser is the
    fragment the parser built, with the [script] element, the [onclick]
    attribute and the [javascript:] target in its markup; where the
    serialiser writes a parsed text back as it was, the output is the
    input. *)
Theorem sanitizeHtml_template_contents :
  forall (parseFragment : string -> list node) (serializeFragment : list node -> string)
         (named : nat -> string -> bool) (html : string),
    html <> "" ->
    parseFragment html = sampleInTemplate ->
    sanitizeHtml parseFragment serializeFragment named (VString html) =
      Normal (serializeFragment (parseFragment html)) /\
    In ("script", ∅) (flat_map markupElements (parseFragment html)) /\
    In ("p", {[ "onclick" := "x()" ]}) (flat_map markupElements (parseFragment html)) /\
    In ("a", {[ "href" := "javascript:x()" ]}) (flat_map markupElements (parseFragment html)) /\
    (serializeFragment (parseFragment html) = html ->
     sanitizeHtml parseFragment serializeFragment named (VString html) = Normal html).
Proof.
  intros parseFragment serializeFragment named html Hne Hparse.
  assert (Hout : sanitizeHtml parseFragment serializeFragment named (VString html) =
                 Normal (serializeFragment (parseFragment html))).
  { unfold sanitizeHtml. destruct html as [|c html]; [contradiction|].
    cbn [truthy isString negb orb String.eqb]. rewrite Hparse. reflexivity. }
  split; [exact Hout|]. rewrite Hparse.
  split; [cbn; tauto|]. split; [cbn; tauto|]. split; [cbn; tauto|].
  intros Hround. rewrite Hout, Hparse. now f_equal.
Qed.

Lemma sanitizeHtml_template_contents_witness :
  sanitizeHtml (fun _ => sampleInTemplate) (fun _ => sampleInTemplateHtml) (fun _ _ => false)
    (VString sampleInTemplateHtml)
  = Normal sampleInTemplateHtml /\
  occurrences "<script>" sampleInTemplateHtml = 1 /\
  occurrences "onclick=" sampleInTemplateHtml = 1 /\
  occurrences "javascript:" sampleInTemplateHtml = 1.
Proof.
  destruct (sanitizeHtml_template_contents
              (fun _ => sampleInTemplate) (fun _ => sampleInTemplateHtml) (fun _ _ => false)
              sampleInTemplateHtml) as (_ & _ & _ & _ & H).
  - discriminate.
  - reflexivity.
  - split; [apply H; reflexivity|]. vm_compute. repeat split.
Defined.

(** ** Connection and session manager *)

Section ConnectionManager.
Import UseSocket HookOps.

Lemma run_cons (o : origin) (ev : event) (evs : list (origin * event)) (st : state) :
  run ((o, ev) :: evs) st = run evs (deliver o ev st).
Proof. reflexivity. Qed.

Lemma run_torn_down (evs : list event) (st : state) :
  autoReconnect st = false -> run (map (pair Held) evs) st = st.
Proof.
  intros H. induction evs as [|ev evs IH]; [reflexivity|].
  cbn [map]. rewrite run_cons. unfold deliver. unfold autoReconnect in H.
  now rewrite H.
Qed.

Lemma onConnectError_attempts (o : origin) (st : state) :
  reconnectAttempts (onConnectError o st) = S (reconnectAttempts st).
Proof.
  unfold onConnectError.
  match goal with |- context [if ?b then _ else _] => destruct b end;
    [destruct o|]; reflexivity.
Qed.

Lemma onConnectError_cases (st : state) :
  (maxReconnectAttempts <= S (reconnectAttempts st) /\
   onConnectError Held st =
   mkState (option_map (fun sk => mkSocket true (emitted sk)) (socket st))
     false failed (currentSessionId st) (S (reconnectAttempts st)) (replaced st))
  \/
  (S (reconnectAttempts st) < maxReconnectAttempts /\
   onConnectError Held st =
   mkState (socket st) false error (currentSessionId st) (S (reconnectAttempts st))
     (replaced st)).
Proof.
  unfold onConnectError.
  match goal with |- context [if ?b then _ else _] => destruct b eqn:E end.
  - left. split; [now apply Nat.leb_le in E | reflexivity].
  - right. split; [now apply Nat.leb_gt in E | reflexivity].
Qed.

Lemma deliver_held (ev : event) (st : state) (sk : Socket) :
  socket st = Some sk -> closed sk = false -> deliver Held ev st = handle Held ev st.
Proof. intros Hsk Hopen. unfold deliver, live, socketAt. now rewrite Hsk, Hopen. Qed.

Lemma connect_errors_fail (k : nat) (st : state) (sk : Socket) :
  socket st = Some sk -> closed sk = false ->
  maxReconnectAttempts <= reconnectAttempts st + k -> 1 <= k ->
  let st' := run (repeat (Held, connect_error) k) st in
  connectionStatus st' = failed /\ isConnected st' = false /\
  socket st' = Some (mkSocket true (emitted sk)).
Proof.
  revert st. induction k as [|k IH]; intros st Hsk Hopen Hmax Hk; [lia|].
  cbn [repeat]. rewrite run_cons, (deliver_held _ st sk Hsk Hopen). cbn [handle].
  destruct (onConnectError_cases st) as [[Hge ->]|[Hlt Heq]].
  - change (repeat (Held, connect_error) k) with (repeat (Held, connect_error) k).
    replace (repeat (Held, connect_error) k) with (map (pair Held) (repeat connect_error k))
      by (clear; induction k as [|k IHk]; [reflexivity | cbn; now rewrite IHk]).
    rewrite run_torn_down by (unfold autoReconnect, live; cbn; now rewrite Hsk).
    cbn. now rewrite Hsk.
  - cbv zeta. unfold maxReconnectAttempts in *.
    apply IH; try rewrite Heq; cbn; try assumption; lia.
Qed.

Lemma connect_errors_below (k : nat) (st : state) (sk : Socket) :
  socket st = Some sk -> closed sk = false ->
  reconnectAttempts st + k < maxReconnectAttempts -> 1 <= k ->
  run (repeat (Held, connect_error) k) st =
  mkState (socket st) false error (currentSessionId st) (reconnectAttempts st + k)
    (replaced st).
Proof.
  revert st. induction k as [|k IH]; intros st Hsk Hopen Hmax Hk; [lia|].
  cbn [repeat]. rewrite run_cons, (deliver_held _ st sk Hsk Hopen). cbn [handle].
  destruct (onConnectError_cases st) as [[Hge _]|[Hlt Heq]]; [lia|].
  rewrite Heq. destruct k as [|k].
  - cbn. f_equal. lia.
  - set (st1 := mkState _ _ _ _ _ _).
    rewrite (IH st1); subst st1; cbn; try assumption; try lia. f_equal. lia.
Qed.

(** Flag and status in the states the hook reaches. *)
Lemma onSocket_fields (o : origin) (f : Socket -> Socket) (st : state) :
  isConnected (onSocket o f st) = isConnected st /\
  connectionStatus (onSocket o f st) = connectionStatus st /\
  currentSessionId (onSocket o f st) = currentSessionId st /\
  reconnectAttempts (onSocket o f st) = reconnectAttempts st.
Proof. destruct o; repeat split. Qed.

Lemma onSocket_coherent (o : origin) (f : Socket -> Socket) (st : state) :
  coherent st -> coherent (onSocket o f st).
Proof.
  unfold coherent. destruct (onSocket_fields o f st) as (-> & -> & _). tauto.
Qed.

Lemma handle_coherent (o : origin) (ev : event) (st : state) :
  coherent st -> coherent (handle o ev st).
Proof.
  intros [H1 H2]. destruct ev as [sid| |reason|k| |v| ]; cbn [handle].
  - apply onSocket_coherent. split; [reflexivity | now left].
  - unfold onConnectError.
    match goal with |- context [if ?b then _ else _] => destruct b end;
      [apply onSocket_coherent|]; split; discriminate.
  - unfold onDisconnect. destruct (reason =? "io client disconnect"); split; discriminate.
  - split; [reflexivity | now left].
  - split; [discriminate | now right; right].
  - unfold onConnectionEstablished. destruct (truthy v); split; assumption.
  - split; assumption.
Qed.

Lemma perform_coherent (o : operation) (st : state) :
  coherent st -> coherent (perform o st).
Proof.
  intros H. destruct o as [| |sid|q| | |o ev]; cbn [perform].
  - split; [discriminate | now right; left].
  - unfold disconnect. destruct (socket st); [|exact H]. split; discriminate.
  - unfold createNewSession. destruct (socket st); [|exact H].
    destruct (isConnected st) eqn:E; [|exact H].
    apply onSocket_coherent. exact H.
  - unfold sendQuery. destruct (socket st); [|exact H].
    destruct (negb (isConnected st)); [exact H|].
    destruct (negb (truthy (VString (trim q)))); [exact H|].
    now apply onSocket_coherent.
  - unfold ping. destruct (socket st); [|exact H].
    destruct (isConnected st); [now apply onSocket_coherent | exact H].
  - unfold getSessionInfo. destruct (socket st); [|exact H].
    destruct (isConnected st); [now apply onSocket_coherent | exact H].
  - unfold deliver. destruct (live o st); [|exact H].
    now apply handle_coherent.
Qed.

Lemma reachable_coherent (st : state) : reachable st -> coherent st.
Proof.
  induction 1 as [|o st _ IH]; [|now apply perform_coherent].
  split; [discriminate | discriminate].
Qed.

End ConnectionManager.

(** C1.  From [connecting], with the socket just created, five
    [connect_error] events in a row leave the connection state [failed]
    and the transport torn down ([disconnect()] was called on the socket),
    after which no event of that socket is delivered any more: whatever
    the transport would raise on it, the state stays as it is and no
    reconnection takes place.  The limit is five: with the counter at 0,
    after one to four [connect_error] events the state is [error], the
    socket is the same and still open, and the counter holds their number.
    The attempt counter grows by one at every [connect_error] and is 0
    after [reconnect] and after [connect], which both enter [connected]. *)
Theorem connect_error_five_times :
  (forall (st : UseSocket.state) (sk : UseSocket.Socket),
     UseSocket.connectionStatus st = UseSocket.connecting ->
     UseSocket.socket st = Some sk -> UseSocket.closed sk = false ->
     let st5 := UseSocket.run (repeat (UseSocket.Held, UseSocket.connect_error) 5) st in
     UseSocket.connectionStatus st5 = UseSocket.failed /\
     UseSocket.isConnected st5 = false /\
     UseSocket.socket st5 = Some (UseSocket.mkSocket true (UseSocket.emitted sk)) /\
     UseSocket.autoReconnect st5 = false /\
     (forall evs, UseSocket.run (map (pair UseSocket.Held) evs) st5 = st5)) /\
  (forall (st : UseSocket.state) (sk : UseSocket.Socket) (k : nat),
     UseSocket.connectionStatus st = UseSocket.connecting ->
     UseSocket.socket st = Some sk -> UseSocket.closed sk = false ->
     UseSocket.reconnectAttempts st = 0 ->
     1 <= k < 5 ->
     let stk := UseSocket.run (repeat (UseSocket.Held, UseSocket.connect_error) k) st in
     UseSocket.connectionStatus stk = UseSocket.error /\
     UseSocket.isConnected stk = false /\
     UseSocket.socket stk = Some sk /\
     UseSocket.autoReconnect stk = true /\
     UseSocket.reconnectAttempts stk = k) /\
  (forall (o : UseSocket.origin) (st : UseSocket.state),
     UseSocket.reconnectAttempts (UseSocket.handle o UseSocket.connect_error st) =
     S (UseSocket.reconnectAttempts st)) /\
  (forall (o : UseSocket.origin) (st : UseSocket.state) (attemptNumber : nat),
     let st' := UseSocket.handle o (UseSocket.reconnect attemptNumber) st in
     UseSocket.reconnectAttempts st' = 0 /\
     UseSocket.connectionStatus st' = UseSocket.connected) /\
  (forall (o : UseSocket.origin) (st : UseSocket.state) (sessionId : string),
     let st' := UseSocket.handle o (UseSocket.connect_ev sessionId) st in
     UseSocket.reconnectAttempts st' = 0 /\
     UseSocket.connectionStatus st' = UseSocket.connected).
Proof.
  split; [|split; [|split; [|split]]].
  - intros st sk _ Hsk Hopen st5.
    destruct (connect_errors_fail 5 st sk Hsk Hopen) as (Hs & Hc & Hsock);
      [unfold UseSocket.maxReconnectAttempts; lia | lia |].
    fold st5 in Hs, Hc, Hsock.
    assert (Ha : UseSocket.autoReconnect st5 = false)
      by (unfold UseSocket.autoReconnect, UseSocket.live, UseSocket.socketAt;
          now rewrite Hsock).
    repeat split; try assumption.
    intros evs. now apply run_torn_down.
  - intros st sk k _ Hsk Hopen Hzero Hk stk. subst stk.
    rewrite (connect_errors_below k st sk Hsk Hopen)
      by (rewrite ?Hzero; unfold UseSocket.maxReconnectAttempts; lia).
    unfold UseSocket.autoReconnect, UseSocket.live, UseSocket.socketAt.
    cbn. rewrite Hsk, Hopen, Hzero. repeat split.
  - intros o st. apply onConnectError_attempts.
  - intros o st n. split; reflexivity.
  - intros o st sid. unfold UseSocket.handle, UseSocket.onConnect.
    match goal with |- context [UseSocket.emitOn ?o ?e ?s] =>
      destruct (onSocket_fields o
                  (fun sk => UseSocket.mkSocket (UseSocket.closed sk)
                               (UseSocket.emitted sk ++ [e])) s)
        as (_ & Hst & _ & Hat) end.
    unfold UseSocket.emitOn. rewrite Hst, Hat. split; reflexivity.
Qed.

Lemma connect_error_five_times_witness :
  UseSocket.connectionStatus
    (UseSocket.run (repeat (UseSocket.Held, UseSocket.connect_error) 5)
       (UseSocket.connect UseSocket.initial))
  = UseSocket.failed /\
  UseSocket.autoReconnect
    (UseSocket.run (repeat (UseSocket.Held, UseSocket.connect_error) 5)
       (UseSocket.connect UseSocket.initial))
  = false /\
  UseSocket.connectionStatus
    (UseSocket.run (repeat (UseSocket.Held, UseSocket.connect_error) 4)
       (UseSocket.connect UseSocket.initial))
  = UseSocket.error /\
  UseSocket.autoReconnect
    (UseSocket.run (repeat (UseSocket.Held, UseSocket.connect_error) 4)
       (UseSocket.connect UseSocket.initial))
  = true.
Proof.
  destruct connect_error_five_times as (Hfive & Hbelow & _).
  destruct (Hfive (UseSocket.connect UseSocket.initial) (UseSocket.mkSocket false [])
              eq_refl eq_refl eq_refl) as (Hs & _ & _ & Ha & _).
  destruct (Hbelow (UseSocket.connect UseSocket.initial) (UseSocket.mkSocket false []) 4
              eq_refl eq_refl eq_refl eq_refl) as (Hs4 & _ & _ & Ha4 & _); [lia|].
  repeat split; assumption.
Defined.

(** C2 as stated fails while the hook is [connecting] with the flag up:
    [connect()] called on a connected hook sets the connection state to
    [connecting] and leaves the flag as it is, and [sendQuery] looks at the
    flag: the query is emitted on the new socket and the promise
    resolved. *)
Lemma sendQuery_while_connecting :
  let st :=
    UseSocket.connect
      (UseSocket.deliver UseSocket.Held (UseSocket.connect_ev "s1")
         (UseSocket.connect UseSocket.initial)) in
  UseSocket.connectionStatus st = UseSocket.connecting /\
  UseSocket.isConnected st = true /\
  fst (UseSocket.sendQuery "What is success rate" st) = UseSocket.Resolved /\
  HookOps.sent (snd (UseSocket.sendQuery "What is success rate" st)) =
    [UseSocket.user_query "What is success rate" (VString "s1")].
Proof. vm_compute. repeat split. Qed.

(** C2, amended.  [sendQuery] settles at once.  When the hook is not
    connected (it holds no socket, or its connected flag is down) the
    promise is rejected with the not-connected error and nothing is
    emitted; in the states the hook reaches this is so whenever the
    connection state is [disconnected], [reconnecting] or [error].  When
    the hook is connected and the trimmed text is empty, the promise is
    rejected with the empty-query error and nothing is emitted.  Otherwise
    exactly one [user-query] event, carrying the trimmed text and the
    current session id, is added to what the socket has emitted, nothing
    else changes, and the promise is resolved. *)
Theorem sendQuery_spec :
  forall (query : string) (st : UseSocket.state),
    (UseSocket.socket st = None \/ UseSocket.isConnected st = false ->
     UseSocket.sendQuery query st = (UseSocket.Rejected "Not connected to server", st)) /\
    (HookOps.reachable st ->
     UseSocket.connectionStatus st = UseSocket.disconnected \/
     UseSocket.connectionStatus st = UseSocket.reconnecting \/
     UseSocket.connectionStatus st = UseSocket.error ->
     UseSocket.sendQuery query st = (UseSocket.Rejected "Not connected to server", st)) /\
    (forall sk : UseSocket.Socket,
       UseSocket.socket st = Some sk -> UseSocket.isConnected st = true ->
       (trim query = "" ->
        UseSocket.sendQuery query st = (UseSocket.Rejected "Query cannot be empty", st)) /\
       (trim query <> "" ->
        UseSocket.sendQuery query st =
        (UseSocket.Resolved,
         UseSocket.mkState
           (Some (UseSocket.mkSocket (UseSocket.closed sk)
                    (UseSocket.emitted sk ++
                     [UseSocket.user_query (trim query) (UseSocket.currentSessionId st)])))
           (UseSocket.isConnected st) (UseSocket.connectionStatus st)
           (UseSocket.currentSessionId st) (UseSocket.reconnectAttempts st)
           (UseSocket.replaced st)))).
Proof.
  intros query st.
  assert (Hnot : UseSocket.socket st = None \/ UseSocket.isConnected st = false ->
                 UseSocket.sendQuery query st =
                 (UseSocket.Rejected "Not connected to server", st)).
  { unfold UseSocket.sendQuery. intros [H|H]; rewrite H; [reflexivity|].
    now destruct (UseSocket.socket st). }
  split; [exact Hnot|]. split.
  - intros Hreach Hstate. apply Hnot. right.
    destruct (reachable_coherent st Hreach) as [_ H2].
    destruct (UseSocket.isConnected st); [|reflexivity].
    destruct (H2 eq_refl) as [E|[E|E]]; rewrite E in Hstate;
      destruct Hstate as [[=]|[[=]|[=]]].
  - intros sk Hsk Hconn. unfold UseSocket.sendQuery.
    rewrite Hsk, Hconn. cbn [negb]. split.
    + intros ->. reflexivity.
    + intros Hne. destruct (trim query) as [|c q]; [contradiction|].
      cbn [truthy String.eqb negb]. f_equal.
      unfold UseSocket.emit, UseSocket.emitOn, UseSocket.onSocket.
      now rewrite Hsk, Hconn.
Qed.

Lemma sendQuery_spec_witness :
  UseSocket.sendQuery "x" UseSocket.initial =
    (UseSocket.Rejected "Not connected to server", UseSocket.initial) /\
  UseSocket.sendQuery "x"
    (UseSocket.deliver UseSocket.Held UseSocket.connect_error
       (UseSocket.connect UseSocket.initial)) =
    (UseSocket.Rejected "Not connected to server",
     UseSocket.deliver UseSocket.Held UseSocket.connect_error
       (UseSocket.connect UseSocket.initial)) /\
  UseSocket.sendQuery (String (ascii_of_nat 160) " ")
    (UseSocket.handle UseSocket.Held (UseSocket.connect_ev "s1")
       (UseSocket.connect UseSocket.initial)) =
    (UseSocket.Rejected "Query cannot be empty",
     UseSocket.handle UseSocket.Held (UseSocket.connect_ev "s1")
       (UseSocket.connect UseSocket.initial)) /\
  fst (UseSocket.sendQuery " What is success rate "
         (UseSocket.handle UseSocket.Held (UseSocket.connect_ev "s1")
            (UseSocket.connect UseSocket.initial)))
  = UseSocket.Resolved.
Proof.
  split; [|split; [|split]].
  - destruct (sendQuery_spec "x" UseSocket.initial) as (H & _).
    apply H. left. reflexivity.
  - destruct (sendQuery_spec "x"
                (UseSocket.deliver UseSocket.Held UseSocket.connect_error
                   (UseSocket.connect UseSocket.initial))) as (_ & H & _).
    apply H.
    + apply (HookOps.reachable_perform (HookOps.Deliver UseSocket.Held UseSocket.connect_error)).
      apply (HookOps.reachable_perform HookOps.Connect). apply HookOps.reachable_initial.
    + right. right. reflexivity.
  - destruct (sendQuery_spec (String (ascii_of_nat 160) " ")
                (UseSocket.handle UseSocket.Held (UseSocket.connect_ev "s1")
                   (UseSocket.connect UseSocket.initial))) as (_ & _ & H).
    destruct (H (UseSocket.mkSocket false [UseSocket.create_session "s1"]) eq_refl eq_refl)
      as (He & _).
    apply He. reflexivity.
  - destruct (sendQuery_spec " What is success rate "
                (UseSocket.handle UseSocket.Held (UseSocket.connect_ev "s1")
                   (UseSocket.connect UseSocket.initial))) as (_ & _ & H).
    destruct (H (UseSocket.mkSocket false [UseSocket.create_session "s1"]) eq_refl eq_refl)
      as (_ & Hs).
    rewrite Hs; [reflexivity | vm_compute; discriminate].
Defined.

(** ** Response display *)

Section ResponseDisplay.
Import DataSummaryResult.


Variable parseFragment : string -> list node.
Variable serializeFragment : list node -> string.
Variable named : nat -> string -> bool.

Lemma sanitizeHtml_result (html : value) :
  (exists out, sanitizeHtml parseFragment serializeFragment named html = Normal out) \/
  sanitizeHtml parseFragment serializeFragment named html = Throw typeError.
Proof.
  unfold sanitizeHtml.
  destruct (negb (truthy html) || negb (isString html)); [left; eauto|].
  destruct html as [| |b|n|s|r]; try (left; eauto; fail).
  destruct (sanitizeFragment_result named (parseFragment s)) as [->| ->];
    [left; cbn; eauto | now right].
Qed.



End ResponseDisplay.






(** ** Conversation controller *)

Section Controller.
Import App.

Lemma filter_own_timer (handle : nat) (due : N) :
  List.filter (fun t : nat * N => negb (fst t =? handle)%nat) [(handle, due)] = [].
Proof. cbn. now rewrite Nat.eqb_refl. Qed.

Lemma clearPending_timers (st : state) :
  timersHeld st -> timers (clearPending st) = [].
Proof.
  unfold timersHeld, clearPending. destruct (loadingTimeoutRef st) as [handle|].
  - intros [due H]. cbn. rewrite H. apply filter_own_timer.
  - tauto.
Qed.

Lemma clearPending_rest (st : state) :
  hook (clearPending st) = hook st /\ messages (clearPending st) = messages st /\
  currentInput (clearPending st) = currentInput st /\
  isLoading (clearPending st) = isLoading st /\
  loadingTimeoutRef (clearPending st) = loadingTimeoutRef st /\
  nextTimer (clearPending st) = nextTimer st /\ now (clearPending st) = now st.
Proof. unfold clearPending. destruct (loadingTimeoutRef st) eqn:E; now rewrite ?E. Qed.

Lemma sendQuery_resolved (text : string) (h : UseSocket.state) (sk : UseSocket.Socket) :
  UseSocket.socket h = Some sk -> UseSocket.isConnected h = true -> trim text <> "" ->
  UseSocket.sendQuery text h =
  (UseSocket.Resolved,
   UseSocket.emit (UseSocket.user_query (trim text) (UseSocket.currentSessionId h)) h).
Proof.
  intros Hsk Hconn Hne. unfold UseSocket.sendQuery. rewrite Hsk, Hconn.
  destruct (trim text); [contradiction | reflexivity].
Qed.

(** A submission that passes the guard and is sent. *)
Lemma handleSendMessage_sent (text : string) (st : state) (sk : UseSocket.Socket) :
  timersHeld st ->
  UseSocket.socket (hook st) = Some sk -> UseSocket.isConnected (hook st) = true ->
  trim text <> "" ->
  handleSendMessage text st =
  mkState
    (UseSocket.emit
       (UseSocket.user_query (trim text) (UseSocket.currentSessionId (hook st))) (hook st))
    (messages st ++ [mkMessage (now st) user (Plain (VString text)) (now st)])
    "" true (Some (nextTimer st))
    [(nextTimer st, (now st + safetyTimeout)%N)] (S (nextTimer st)) (now st).
Proof.
  intros Hheld Hsk Hconn Hne. unfold handleSendMessage.
  rewrite Hconn. replace (truthy (VString (trim text))) with true
    by (destruct (trim text); [contradiction | reflexivity]).
  cbn [negb orb].
  set (st2 := setCurrentInput "" _).
  assert (Hheld2 : timersHeld st2) by exact Hheld.
  pose proof (clearPending_timers st2 Hheld2) as Ht.
  destruct (clearPending_rest st2) as (Hh & Hm & Hi & Hl & Hr & Hn & Hnow).
  unfold setTimeout. cbn [setRef hook messages currentInput isLoading
                            loadingTimeoutRef timers nextTimer now].
  rewrite Ht, Hh, Hm, Hi, Hl, Hn, Hnow. subst st2.
  cbn [setCurrentInput appendMessage setIsLoading hook messages currentInput isLoading
         loadingTimeoutRef timers nextTimer now].
  rewrite (sendQuery_resolved text (hook st) sk Hsk Hconn Hne).
  reflexivity.
Qed.

(** The passage of time with one pending timer, and with none. *)
Lemma advance_single (d : N) (st : state) (handle : nat) (due : N) :
  timers st = [(handle, due)] ->
  advance d st =
  if (due <=? now st + d)%N
  then setNow (now st + d)%N
         (safetyCallback (clearTimeout handle (setNow (N.max (now st) due) st)))
  else setNow (now st + d)%N st.
Proof.
  intros H. unfold advance. rewrite H. cbn [fold_left].
  unfold fire. rewrite H. cbn [fst snd existsb]. rewrite Nat.eqb_refl. cbn [orb andb].
  now destruct (due <=? now st + d)%N.
Qed.

Lemma advance_idle (dt : N) (st : state) :
  timers st = [] -> advance dt st = setNow (now st + dt)%N st.
Proof. intros H. unfold advance. rewrite H. reflexivity. Qed.

(** The invariant of the timers holds in every reachable state. *)
Lemma advance_held (dt : N) (st : state) : timersHeld st -> timersHeld (advance dt st).
Proof.
  unfold timersHeld. destruct (loadingTimeoutRef st) as [handle|] eqn:Href.
  - intros [due H]. rewrite (advance_single dt st handle due H).
    destruct (due <=? now st + dt)%N.
    + cbn. rewrite H. apply filter_own_timer.
    + cbn. rewrite Href. eauto.
  - intros H. rewrite (advance_idle dt st H). cbn. now rewrite Href.
Qed.

Lemma handleSendMessage_held (text : string) (st : state) :
  timersHeld st -> timersHeld (handleSendMessage text st).
Proof.
  intros H. unfold handleSendMessage.
  destruct (negb (truthy (VString (trim text))) || negb (UseSocket.isConnected (hook st)));
    [exact H|].
  set (st2 := setCurrentInput "" _).
  assert (Hheld2 : timersHeld st2) by exact H.
  pose proof (clearPending_timers st2 Hheld2) as Ht.
  unfold setTimeout. cbn [setRef hook messages currentInput isLoading
                            loadingTimeoutRef timers nextTimer now].
  rewrite Ht.
  destruct (UseSocket.sendQuery text _) as [[|msg] h].
  - unfold timersHeld. cbn. eauto.
  - unfold timersHeld. cbn. now rewrite Nat.eqb_refl.
Qed.

Lemma response_held (st : state) :
  timersHeld st -> timersHeld (setRef None (clearPending st)).
Proof.
  intros H. unfold timersHeld. cbn. now apply clearPending_timers.
Qed.

Lemma handleQueryError_held (data : option value) (st : state) :
  timersHeld st -> timersHeld (handleQueryError data st).
Proof.
  intros H. unfold handleQueryError. destruct data; exact (response_held st H).
Qed.

Lemma step_held (a : action) (st : state) : timersHeld st -> timersHeld (step a st).
Proof.
  intros H. destruct a; cbn [step].
  - now apply handleSendMessage_held.
  - exact H.
  - now apply advance_held.
  - destruct (listening st); [exact (response_held st H) | exact H].
  - destruct (listening st); [now apply handleQueryError_held | exact H].
  - exact H.
  - exact H.
  - exact H.
Qed.

Lemma reachable_held (st : state) : reachable st -> timersHeld st.
Proof.
  induction 1 as [|a st _ IH]; [reflexivity | now apply step_held].
Qed.

(** The hook of the controller goes through states of the hook. *)
Lemma handleSendMessage_hook (text : string) (st : state) :
  hook (handleSendMessage text st) = hook st \/
  hook (handleSendMessage text st) = snd (UseSocket.sendQuery text (hook st)).
Proof.
  unfold handleSendMessage.
  destruct (negb (truthy (VString (trim text))) || negb (UseSocket.isConnected (hook st)));
    [now left|].
  right. unfold setTimeout.
  cbn [setRef hook messages currentInput isLoading loadingTimeoutRef timers nextTimer now].
  match goal with |- context [clearPending ?s] =>
    destruct (clearPending_rest s) as (Hh & _) end.
  rewrite Hh. cbn [setCurrentInput appendMessage setIsLoading hook].
  now destruct (UseSocket.sendQuery text (hook st)) as [[|msg] h].
Qed.

Lemma fire_hook (deadline : N) (t : nat * N) (st : state) :
  hook (fire deadline t st) = hook st.
Proof. unfold fire. now destruct (existsb _ _ && _). Qed.

Lemma advance_hook (dt : N) (st : state) : hook (advance dt st) = hook st.
Proof.
  unfold advance. cbn [setNow hook]. generalize (now st + dt)%N. intros deadline.
  generalize (timers st) at 1. intros ts. revert st.
  induction ts as [|t ts IH]; intros st; [reflexivity|].
  cbn [fold_left]. now rewrite IH, fire_hook.
Qed.

Lemma step_hook (a : action) (st : state) :
  hook (step a st) = hook st \/
  exists o : HookOps.operation, hook (step a st) = HookOps.perform o (hook st).
Proof.
  destruct a as [text|sid|dt|data|data| |o ev|v]; cbn [step]; [| | | | | | |now left].
  - destruct (handleSendMessage_hook text st) as [H|H]; [now left|].
    right. exists (HookOps.SendQuery text). exact H.
  - right. exists (HookOps.CreateNewSession sid). reflexivity.
  - left. apply advance_hook.
  - left. destruct (listening st); [|reflexivity].
    unfold handleQueryResponse. cbn. now destruct (clearPending_rest st) as (-> & _).
  - left. destruct (listening st); [|reflexivity].
    unfold handleQueryError. destruct data; cbn; now destruct (clearPending_rest st) as (-> & _).
  - right. exists HookOps.Connect. reflexivity.
  - right. exists (HookOps.Deliver o ev). reflexivity.
Qed.

Lemma reachable_hook (st : state) : reachable st -> HookOps.reachable (hook st).
Proof.
  induction 1 as [|a st _ IH]; [apply HookOps.reachable_initial|].
  destruct (step_hook a st) as [->|(o & ->)]; [exact IH|].
  now apply HookOps.reachable_perform.
Qed.

End Controller.

(** C9 as stated fails while the hook is [connecting] with the flag up:
    after [connect()] on a connected hook the connection state is
    [connecting], the flag is still up, and a submission goes through. *)
Lemma handleSendMessage_while_connecting :
  let st :=
    App.step App.Connect
      (App.step (App.Transport UseSocket.Held (UseSocket.connect_ev "s1"))
         (App.step App.Connect App.initial)) in
  let st' := App.handleSendMessage "What is success rate" st in
  UseSocket.connectionStatus (App.hook st) = UseSocket.connecting /\
  App.messages st' =
    [App.mkMessage 0 App.user (App.Plain (VString "What is success rate")) 0] /\
  App.isLoading st' = true /\
  map snd (App.timers st') = [30000%N] /\
  HookOps.sent (App.hook st') =
    [UseSocket.user_query "What is success rate" (VString "s1")].
Proof. vm_compute. repeat split. Qed.

(** C9, amended.  A submission whose trimmed text is empty, or made while
    the hook is not connected (its connected flag is down, as it is in
    every state the controller reaches with the connection state
    [disconnected], [reconnecting] or [error]), changes nothing: the state
    after it is the state before it, so no message is appended, the
    loading flag keeps its value, no timer is armed and nothing is emitted
    on the socket. *)
Theorem handleSendMessage_noop :
  forall (text : string) (st : App.state),
    (trim text = "" \/ UseSocket.isConnected (App.hook st) = false \/
     (App.reachable st /\
      (UseSocket.connectionStatus (App.hook st) = UseSocket.disconnected \/
       UseSocket.connectionStatus (App.hook st) = UseSocket.reconnecting \/
       UseSocket.connectionStatus (App.hook st) = UseSocket.error))) ->
    let st' := App.handleSendMessage text st in
    st' = st /\
    App.messages st' = App.messages st /\
    App.isLoading st' = App.isLoading st /\
    App.timers st' = App.timers st /\
    App.loadingTimeoutRef st' = App.loadingTimeoutRef st /\
    UseSocket.socket (App.hook st') = UseSocket.socket (App.hook st) /\
    HookOps.sent (App.hook st') = HookOps.sent (App.hook st).
Proof.
  intros text st H st'.
  assert (Heq : st' = st).
  { subst st'. unfold App.handleSendMessage.
    destruct H as [H|[H|[Hreach Hstate]]].
    - rewrite H. reflexivity.
    - rewrite H. cbn [negb]. now rewrite orb_true_r.
    - destruct (reachable_coherent _ (reachable_hook st Hreach)) as [_ H2].
      destruct (UseSocket.isConnected (App.hook st)) eqn:E.
      + destruct (H2 eq_refl) as [E'|[E'|E']]; rewrite E' in Hstate;
          destruct Hstate as [[=]|[[=]|[=]]].
      + cbn [negb]. now rewrite orb_true_r. }
  rewrite Heq. repeat split.
Qed.

Lemma handleSendMessage_noop_witness :
  App.handleSendMessage (String (ascii_of_nat 160) " ")
    (App.step (App.Transport UseSocket.Held (UseSocket.connect_ev "s1"))
       (App.step App.Connect App.initial))
  = App.step (App.Transport UseSocket.Held (UseSocket.connect_ev "s1"))
      (App.step App.Connect App.initial) /\
  App.handleSendMessage "What is success rate" App.initial = App.initial /\
  App.handleSendMessage "What is success rate"
    (App.step (App.Transport UseSocket.Held UseSocket.connect_error)
       (App.step App.Connect App.initial))
  = App.step (App.Transport UseSocket.Held UseSocket.connect_error)
      (App.step App.Connect App.initial).
Proof.
  split; [|split].
  - apply (handleSendMessage_noop (String (ascii_of_nat 160) " ")
             (App.step (App.Transport UseSocket.Held (UseSocket.connect_ev "s1"))
                (App.step App.Connect App.initial))).
    left. reflexivity.
  - apply (handleSendMessage_noop "What is success rate" App.initial). right. left. reflexivity.
  - apply (handleSendMessage_noop "What is success rate"
             (App.step (App.Transport UseSocket.Held UseSocket.connect_error)
                (App.step App.Connect App.initial))).
    right. right. split.
    + do 2 apply App.reachable_step. apply App.reachable_initial.
    + right. right. reflexivity.
Defined.

(** C6.  After a submission that was sent, the loading flag is up and one
    safety timer is pending, due 30000 ms later.  While less time than
    that passes nothing is appended.  When 30000 ms or more pass without a
    response, the timer has fired when it was due: the loading flag is
    cleared, exactly one message is appended, an error message with the
    time-out notice, stamped with the time the timer was due, and no timer
    is left.  A [query_response] that arrives afterwards is still handled:
    it appends one assistant message holding the response. *)
Theorem safety_timeout_then_late_response :
  forall (st : App.state) (text : string) (sk : UseSocket.Socket)
         (data : DataSummaryResult.envelope) (dt : N),
    App.reachable st ->
    UseSocket.socket (App.hook st) = Some sk ->
    UseSocket.isConnected (App.hook st) = true ->
    trim text <> "" ->
    (App.safetyTimeout <= dt)%N ->
    let st1 := App.handleSendMessage text st in
    let st2 := App.advance dt st1 in
    let st3 := App.handleQueryResponse data st2 in
    (App.isLoading st1 = true /\
     App.messages st1 =
       App.messages st ++
       [App.mkMessage (App.now st) App.user (App.Plain (VString text)) (App.now st)] /\
     App.timers st1 = [(App.nextTimer st, (App.now st + 30000)%N)]) /\
    (forall early : N, (early < App.safetyTimeout)%N ->
       App.messages (App.advance early st1) = App.messages st1 /\
       App.isLoading (App.advance early st1) = true) /\
    (App.isLoading st2 = false /\
     App.messages st2 =
       App.messages st1 ++
       [App.mkMessage (App.now st + 30000 + 2)%N App.error
          (App.Plain (VString "Request timed out. Please try again."))
          (App.now st + 30000)%N] /\
     App.timers st2 = [] /\
     App.loadingTimeoutRef st2 = None /\
     App.now st2 = (App.now st + dt)%N) /\
    (App.isLoading st3 = false /\
     App.messages st3 =
       App.messages st2 ++
       [App.mkMessage (App.now st + dt)%N App.assistant (App.Data data)
          (App.now st + dt)%N] /\
     (UseSocket.closed sk = false -> App.step (App.QueryResponse data) st2 = st3)).
Proof.
  intros st text sk data dt Hreach Hsk Hconn Hne Hdt. cbv zeta.
  rewrite (handleSendMessage_sent text st sk (reachable_held st Hreach) Hsk Hconn Hne).
  split; [repeat split|]. split; [|split].
  - intros early Hearly. erewrite advance_single by reflexivity.
    cbn [App.now].
    replace (App.now st + App.safetyTimeout <=? App.now st + early)%N with false
      by (symmetry; apply N.leb_gt; lia).
    split; reflexivity.
  - erewrite advance_single by reflexivity. cbn [App.now].
    replace (App.now st + App.safetyTimeout <=? App.now st + dt)%N with true
      by (symmetry; apply N.leb_le; lia).
    replace (N.max (App.now st) (App.now st + App.safetyTimeout))
      with (App.now st + 30000)%N by (unfold App.safetyTimeout; lia).
    cbn. rewrite ?Nat.eqb_refl. repeat split.
  - erewrite advance_single by reflexivity. cbn [App.now].
    replace (App.now st + App.safetyTimeout <=? App.now st + dt)%N with true
      by (symmetry; apply N.leb_le; lia).
    unfold App.handleQueryResponse. cbn. rewrite ?Nat.eqb_refl. cbn.
    split; [reflexivity|]. split; [reflexivity|].
    intros Hopen. unfold App.listening, UseSocket.autoReconnect, UseSocket.live. cbn.
    rewrite Hsk. cbn. now rewrite Hopen.
Qed.

Lemma safety_timeout_then_late_response_witness :
  App.messages
    (App.handleQueryResponse
       (DataSummaryResult.mkEnvelope (VBool true) VUndefined VUndefined VUndefined
          (VString "42%"))
       (App.advance 45000
          (App.handleSendMessage "What is success rate"
             (App.step (App.Transport UseSocket.Held (UseSocket.connect_ev "s1"))
                (App.step App.Connect App.initial)))))
  = [ App.mkMessage 0 App.user (App.Plain (VString "What is success rate")) 0;
      App.mkMessage 30002 App.error
        (App.Plain (VString "Request timed out. Please try again.")) 30000;
      App.mkMessage 45000 App.assistant
        (App.Data (DataSummaryResult.mkEnvelope (VBool true) VUndefined VUndefined
                     VUndefined (VString "42%"))) 45000 ].
Proof.
  destruct (safety_timeout_then_late_response
              (App.step (App.Transport UseSocket.Held (UseSocket.connect_ev "s1"))
                 (App.step App.Connect App.initial))
              "What is success rate"
              (UseSocket.mkSocket false [UseSocket.create_session "s1"])
              (DataSummaryResult.mkEnvelope (VBool true) VUndefined VUndefined VUndefined
                 (VString "42%"))
              45000%N)
    as ((_ & Hm1 & _) & _ & (_ & Hm2 & _) & (_ & Hm3 & _)).
  - do 2 apply App.reachable_step. apply App.reachable_initial.
  - reflexivity.
  - reflexivity.
  - vm_compute. discriminate.
  - vm_compute. discriminate.
  - rewrite Hm3, Hm2, Hm1. reflexivity.
Defined.


(* ================================================================== *)
(** * Further properties of the code *)

(** ** Text utilities *)

Section MoreStrings.

Lemma includes_append (c : ascii) (a b : string) :
  includes c (a +:+ b) = includes c a || includes c b.
Proof.
  induction a as [|d a IH]; [reflexivity|].
  rewrite append_cons. cbn [includes]. rewrite IH. apply orb_assoc.
Qed.

Lemma dropEnd_idempotent (p : ascii -> bool) (s : string) :
  dropEnd p (dropEnd p s) = dropEnd p s.
Proof.
  induction s as [|c s IH]; [reflexivity|].
  cbn [dropEnd]. destruct (p c && (dropEnd p s =? "")) eqn:E; [reflexivity|].
  cbn [dropEnd]. rewrite IH, E. reflexivity.
Qed.

Lemma dropStart_fixed (p : ascii -> bool) (s : string) :
  (forall c, firstChar s = Some c -> p c = false) -> dropStart p s = s.
Proof.
  destruct s as [|c s]; [reflexivity|]. intros H. cbn [dropStart].
  now rewrite (H c eq_refl).
Qed.

Lemma trim_idempotent (s : string) : trim (trim s) = trim s.
Proof.
  unfold trim at 1. rewrite dropStart_fixed.
  - apply dropEnd_idempotent.
  - intros c H. unfold trim in H.
    now apply firstChar_dropEnd, firstChar_dropStart in H.
Qed.

Lemma split_pieces (sep : ascii) (s w : string) :
  In w (split sep s) -> includes sep w = false.
Proof.
  revert w. induction s as [|c s IH]; intros w.
  - intros [<-|[]]. reflexivity.
  - rewrite split_cons. destruct (Ascii.eqb c sep) eqn:E.
    + intros [<-|H]; [reflexivity | now apply IH].
    + pose proof (split_not_nil sep s) as Hn.
      destruct (split sep s) as [|x xs]; [contradiction|]. cbn [hd tl].
      intros [<-|H].
      * cbn [includes]. rewrite E. apply IH. now left.
      * apply IH. now right.
Qed.

Lemma caseMap_underscore (c : ascii) :
  includes "_" (toUpperUnits c) = Ascii.eqb c "_" /\
  Ascii.eqb (toLowerChar c) "_" = Ascii.eqb c "_".
Proof.
  destruct c as [[] [] [] [] [] [] [] []]; split; reflexivity.
Qed.

Lemma mapChars_underscore (f : ascii -> ascii) (s : string) :
  (forall c, Ascii.eqb (f c) "_" = Ascii.eqb c "_") ->
  includes "_" (mapChars f s) = includes "_" s.
Proof.
  intros Hf. induction s as [|c s IH]; [reflexivity|].
  cbn [mapChars includes]. now rewrite Hf, IH.
Qed.

Lemma capitalizeWord_underscore (w : string) :
  includes "_" w = false -> includes "_" (capitalizeWord (VString w)) = false.
Proof.
  destruct w as [|c w]; [reflexivity|]. intros H.
  cbn [includes] in H. apply orb_false_iff in H as [Hc Hw].
  cbn [capitalizeWord String.eqb charAt0 slice1 toUpperCase].
  rewrite append_nil_r, includes_append. unfold toLowerCase.
  rewrite mapChars_underscore by (intros d; apply caseMap_underscore).
  destruct (caseMap_underscore c) as [-> _]. now rewrite Hc, Hw.
Qed.

Lemma join_underscore (pieces : list string) :
  Forall (fun w => includes "_" w = false) pieces ->
  includes "_" (join " " pieces) = false.
Proof.
  induction 1 as [|w ws Hw _ IH]; [reflexivity|].
  cbn [join]. destruct ws as [|v ws]; [exact Hw|].
  rewrite !includes_append, Hw, IH. reflexivity.
Qed.

End MoreStrings.

(** X1.  The title made by [convertSnakeCaseToTitle] from any text is a
    text without underscore, and converting it again changes nothing: the
    function is idempotent on every value. *)
Theorem convertSnakeCaseToTitle_no_underscore :
  (forall s : string,
     exists title : string,
       convertSnakeCaseToTitle (VString s) = VString title /\
       (includes "_" s = true -> includes "_" title = false)) /\
  (forall v : value,
     convertSnakeCaseToTitle (convertSnakeCaseToTitle v) = convertSnakeCaseToTitle v).
Proof.
  assert (Htitle : forall s : string,
            exists title : string,
              convertSnakeCaseToTitle (VString s) = VString title /\
              (includes "_" s = true -> includes "_" title = false)).
  { intros s. unfold convertSnakeCaseToTitle.
    destruct (includes "_" s) eqn:Hs.
    - destruct s as [|c s]; [discriminate|]. cbn [truthy String.eqb negb].
      eexists. split; [reflexivity|]. intros _.
      apply join_underscore. apply List.Forall_forall. intros piece Hin.
      apply in_map_iff in Hin as (w & <- & Hw).
      apply filter_In in Hw as [Hw _].
      apply capitalizeWord_underscore. eapply split_pieces, Hw.
    - exists s. split; [|discriminate]. now destruct (negb (truthy (VString s))). }
  split; [exact Htitle|].
  intros v. destruct v as [| |b|n|s|r]; try reflexivity.
  destruct (Htitle s) as (title & Heq & Hno). rewrite Heq.
  destruct (includes "_" s) eqn:Hs.
  - unfold convertSnakeCaseToTitle. rewrite (Hno eq_refl).
    now destruct (negb (truthy (VString title))).
  - unfold convertSnakeCaseToTitle in Heq. rewrite Hs in Heq.
    assert (title = s) as ->
      by (destruct (negb (truthy (VString s))); cbn [negb] in Heq; congruence).
    unfold convertSnakeCaseToTitle. rewrite Hs.
    now destruct (negb (truthy (VString s))).
Qed.

Lemma convertSnakeCaseToTitle_no_underscore_witness :
  exists title : string,
    convertSnakeCaseToTitle (VString "__payment_method__type_") = VString title /\
    includes "_" title = false.
Proof.
  destruct convertSnakeCaseToTitle_no_underscore as (H & _).
  destruct (H "__payment_method__type_") as (title & Heq & Hno).
  exists title. split; [exact Heq | apply Hno; reflexivity].
Defined.

Section Escaping.

Lemma append_cancel_l (p a b : string) : p +:+ a = p +:+ b -> a = b.
Proof.
  induction p as [|c p IH]; [tauto|]. rewrite !append_cons. intros [= H]. now apply IH.
Qed.

Lemma escapeChar_cases (c : ascii) :
  (c = "&"%char /\ escapeChar c = "&amp;") \/
  (c = nbsp /\ escapeChar c = "&nbsp;") \/
  (c = "<"%char /\ escapeChar c = "&lt;") \/
  (c = ">"%char /\ escapeChar c = "&gt;") \/
  (c <> "&"%char /\ c <> nbsp /\ c <> "<"%char /\ c <> ">"%char /\
   escapeChar c = String c "").
Proof.
  unfold escapeChar.
  destruct (Ascii.eqb_spec c "&"); [now left|].
  destruct (Ascii.eqb_spec c nbsp); [now right; left|].
  destruct (Ascii.eqb_spec c "<"); [now right; right; left|].
  destruct (Ascii.eqb_spec c ">"); [now right; right; right; left|].
  now right; right; right; right.
Qed.

Lemma escapeText_no_bracket (s : string) :
  includes "<" (escapeText s) = false /\ includes ">" (escapeText s) = false /\
  includes nbsp (escapeText s) = false.
Proof.
  induction s as [|c s (IHl & IHg & IHn)]; [repeat split; reflexivity|].
  cbn [escapeText]. rewrite !includes_append, IHl, IHg, IHn, !orb_false_r.
  destruct (escapeChar_cases c)
    as [[_ ->]|[[_ ->]|[[_ ->]|[[_ ->]|(_ & Hn & Hl & Hg & ->)]]]];
    try (repeat split; reflexivity).
  cbn [includes]. rewrite !orb_false_r.
  repeat split; apply Ascii.eqb_neq; assumption.
Qed.

Lemma escapeText_plain (s : string) :
  includes "&" s = false -> includes nbsp s = false ->
  includes "<" s = false -> includes ">" s = false ->
  escapeText s = s.
Proof.
  induction s as [|c s IH]; [reflexivity|]. cbn [includes].
  intros Ha Hn Hl Hg.
  apply orb_false_iff in Ha as [Ha Ha'], Hn as [Hn Hn'], Hl as [Hl Hl'], Hg as [Hg Hg'].
  cbn [escapeText]. unfold escapeChar. rewrite Ha, Hn, Hl, Hg.
  rewrite append_cons, append_nil_l. f_equal. now apply IH.
Qed.

Lemma escapeText_injective (a b : string) :
  escapeText a = escapeText b -> a = b.
Proof.
  revert b. induction a as [|c a IH]; intros [|d b]; cbn [escapeText]; intros H.
  - reflexivity.
  - exfalso.
    destruct (escapeChar_cases d)
      as [[_ E]|[[_ E]|[[_ E]|[[_ E]|(_ & _ & _ & _ & E)]]]];
      rewrite E, append_cons in H; discriminate.
  - exfalso.
    destruct (escapeChar_cases c)
      as [[_ E]|[[_ E]|[[_ E]|[[_ E]|(_ & _ & _ & _ & E)]]]];
      rewrite E, append_cons in H; discriminate.
  - destruct (escapeChar_cases c)
      as [[-> E]|[[-> E]|[[-> E]|[[-> E]|(Hca & Hcn & Hcl & Hcg & E)]]]];
      destruct (escapeChar_cases d)
        as [[-> F]|[[-> F]|[[-> F]|[[-> F]|(Hda & Hdn & Hdl & Hdg & F)]]]];
      rewrite ?E, ?F in H;
      try (apply append_cancel_l in H; f_equal; now apply IH);
      repeat rewrite append_cons in H; rewrite ?append_nil_l in H;
      try congruence.
    injection H as -> H. f_equal. now apply IH.
Qed.

End Escaping.

(** X2.  What [escapeHtml] returns holds no angle bracket and no no-break
    space, so it cannot open or close a tag where it is inserted; the
    ampersand, the no-break space and the angle brackets are written as
    [&amp;], [&nbsp;], [&lt;] and [&gt;] and every other code unit as
    itself, so that text without these four comes back as it is; different
    texts stay different, and a value that is not a string gives the empty
    text. *)
Theorem escapeHtml_safe :
  (forall v : value,
     includes "<" (escapeHtml v) = false /\ includes ">" (escapeHtml v) = false /\
     includes nbsp (escapeHtml v) = false) /\
  (forall (c : ascii) (s : string),
     exists units : string,
       escapeHtml (VString (String c s)) = units +:+ escapeHtml (VString s) /\
       ((c = "&"%char /\ units = "&amp;") \/
        (c = nbsp /\ units = "&nbsp;") \/
        (c = "<"%char /\ units = "&lt;") \/
        (c = ">"%char /\ units = "&gt;") \/
        (c <> "&"%char /\ c <> nbsp /\ c <> "<"%char /\ c <> ">"%char /\
         units = String c ""))) /\
  (forall s : string,
     includes "&" s = false -> includes nbsp s = false ->
     includes "<" s = false -> includes ">" s = false ->
     escapeHtml (VString s) = s) /\
  (forall a b : string, escapeHtml (VString a) = escapeHtml (VString b) -> a = b) /\
  (forall v : value, isString v = false -> escapeHtml v = "").
Proof.
  split; [|split; [|split; [|split]]].
  - intros v. destruct v; try (repeat split; reflexivity). apply escapeText_no_bracket.
  - intros c s. exists (escapeChar c). split; [reflexivity|].
    destruct (escapeChar_cases c) as [[-> E]|[[-> E]|[[-> E]|[[-> E]|H]]]]; tauto.
  - exact escapeText_plain.
  - exact escapeText_injective.
  - intros v H. destruct v; try reflexivity. discriminate.
Qed.

Lemma escapeHtml_safe_witness :
  escapeHtml (VString "total amount (USD)") = "total amount (USD)" /\
  escapeHtml (VNumber 3) = "".
Proof.
  destruct escapeHtml_safe as (_ & _ & Hplain & _ & Hother).
  split; [apply Hplain; reflexivity | apply Hother; reflexivity].
Defined.

(** ** Table renderer: the tags of the markup *)

Section OwnTags.

Lemma prefix_empty (s : string) : String.prefix "" s = true.
Proof. now destruct s. Qed.

Lemma lt_append (a b : string) :
  occurrences "<" (a +:+ b) = occurrences "<" a + occurrences "<" b.
Proof.
  induction a as [|c a IH]; [reflexivity|].
  rewrite append_cons. cbn [occurrences String.prefix]. rewrite IH, !prefix_empty.
  destruct (ascii_dec "<" c); lia.
Qed.

Lemma lt_none (a : string) : includes "<" a = false -> occurrences "<" a = 0.
Proof.
  induction a as [|c a IH]; [reflexivity|]. cbn [includes occurrences String.prefix].
  intros H. apply orb_false_iff in H as [Hc Ha]. rewrite (IH Ha), prefix_empty.
  destruct (ascii_dec "<" c) as [<-|]; [discriminate | reflexivity].
Qed.

Lemma lt_escapeHtml (v : value) : occurrences "<" (escapeHtml v) = 0.
Proof.
  apply lt_none. destruct v; try reflexivity. apply escapeText_no_bracket.
Qed.

Lemma lt_th (h : value) : occurrences "<" (th h) = 2.
Proof. unfold th. now rewrite !lt_append, lt_escapeHtml. Qed.

Lemma lt_td (v : string) : occurrences "<" (td v) = 2.
Proof. unfold td. now rewrite !lt_append, lt_escapeHtml. Qed.

Lemma lt_concat_map {A : Type} (f : A -> string) (k : nat) (l : list A) :
  (forall x, occurrences "<" (f x) = k) ->
  occurrences "<" (concat (map f l)) = length l * k.
Proof.
  intros Hf. induction l as [|x l IH]; [reflexivity|].
  cbn [map concat length]. rewrite lt_append, Hf, IH. lia.
Qed.

Lemma lt_trOpen (index : nat) : occurrences "<" (trOpen index) = 1.
Proof. unfold trOpen, rowClass. now destruct (Nat.even index). Qed.

Lemma lt_rowHtml (headers : list value) (row : nat * list string) :
  occurrences "<" (rowHtml headers row) = 2 + 2 * length headers.
Proof.
  unfold rowHtml. rewrite !lt_append, lt_trOpen.
  change (map _ (padTruncate (length headers) (snd row)))
    with (map td (padTruncate (length headers) (snd row))).
  rewrite (lt_concat_map td 2) by exact lt_td.
  rewrite padTruncate_length. change (occurrences "<" "</tr>") with 1. lia.
Qed.

Lemma lt_tableHtml (headers : list value) (dataLines : list string) :
  occurrences "<" (tableHtml headers dataLines) =
  10 + 2 * length headers + length (emittedRows 0 dataLines) * (2 + 2 * length headers).
Proof.
  unfold tableHtml. rewrite dataRows_emitted, !lt_append.
  rewrite (lt_concat_map th 2) by exact lt_th.
  rewrite (lt_concat_map (rowHtml headers) (2 + 2 * length headers))
    by (intros row; apply lt_rowHtml).
  change (occurrences "<" tableOpen) with 2.
  change (occurrences "<" "<thead><tr>") with 2.
  change (occurrences "<" "</tr></thead>") with 2.
  change (occurrences "<" "<tbody>") with 1.
  change (occurrences "<" "</tbody></table></div>") with 3.
  lia.
Qed.

Lemma lt_rawFallback (v : value) : occurrences "<" (rawFallback v) = 2.
Proof. unfold rawFallback. now rewrite !lt_append, lt_escapeHtml. Qed.

End OwnTags.

(** X3.  Every opening angle bracket in what [convertMarkdownToTable]
    returns belongs to the renderer's own tags, whatever the cells and
    headers hold: there are two in the notice and in the preformatted
    fallback, and in a table their number is fixed by the number of headers
    and of emitted rows alone. *)
Theorem convertMarkdownToTable_own_tags :
  (forall md : string,
     let lines := split newline (trim md) in
     let headers := tableHeaders (nth 0 lines "") in
     let rows := emittedRows 0 (skipn 2 lines) in
     occurrences "<" (convertMarkdownToTable (VString md)) =
     if (2 <=? length lines)%nat && (1 <=? length headers)%nat
     then 10 + 2 * length headers + length rows * (2 + 2 * length headers)
     else 2) /\
  (forall v : value, isString v = false -> occurrences "<" (convertMarkdownToTable v) = 2).
Proof.
  split.
  - intros md lines headers rows.
    destruct md as [|c md]; [reflexivity|].
    rewrite convertMarkdownToTable_string by discriminate.
    unfold tableBody. fold lines. fold headers.
    destruct (Nat.ltb_spec (length lines) 2) as [Hl|Hl].
    + replace (2 <=? length lines)%nat with false by (symmetry; apply Nat.leb_gt; lia).
      apply lt_rawFallback.
    + replace (2 <=? length lines)%nat with true by (symmetry; apply Nat.leb_le; lia).
      destruct (Nat.eqb_spec (length headers) 0) as [Hh|Hh].
      * rewrite Hh. apply lt_rawFallback.
      * replace (1 <=? length headers)%nat with true by (symmetry; apply Nat.leb_le; lia).
        apply lt_tableHtml.
  - intros v Hv. unfold convertMarkdownToTable, convertMarkdownToTableWith.
    rewrite Hv. now rewrite orb_true_r.
Qed.

Lemma convertMarkdownToTable_own_tags_witness :
  occurrences "<"
    (convertMarkdownToTable
       (VString (unlines ["order_id|<b>"; "---|---"; "1 < 2|x"; "| |"; "3|<i>y</i>|z"]))) = 26 /\
  occurrences "<"
    (convertMarkdownToTable (VString (unlines ["a|b"; "-|-"; String nbsp ""]))) = 14 /\
  occurrences "<" (convertMarkdownToTable (VString (unlines ["a"; String nbsp ""]))) = 2 /\
  occurrences "<" (convertMarkdownToTable (VString "a < b")) = 2 /\
  occurrences "<" (convertMarkdownToTable (VObject 1)) = 2.
Proof.
  destruct convertMarkdownToTable_own_tags as (Htext & Hother).
  split; [|split; [|split; [|split]]].
  - rewrite Htext. vm_compute. reflexivity.
  - rewrite Htext. vm_compute. reflexivity.
  - rewrite Htext. vm_compute. reflexivity.
  - rewrite Htext. vm_compute. reflexivity.
  - apply Hother. reflexivity.
Defined.
(** ** Sanitizer: what it keeps *)

Section SanitizerKeeps.

Lemma omap_fixed {A : Type} (f : A -> option A) (l : list A) :
  Forall (fun x => f x = Some x) l -> omap f l = l.
Proof.
  induction 1 as [|x l Hx _ IH]; [reflexivity|].
  cbn. rewrite Hx. cbn. now rewrite IH.
Qed.

Lemma omap_append {A B : Type} (f : A -> option B) (l k : list A) :
  omap f (l ++ k) = omap f l ++ omap f k.
Proof.
  induction l as [|x l IH]; [reflexivity|].
  cbn. destruct (f x); cbn; now rewrite IH.
Qed.

Lemma removeNode_fixed (tag : string) (n : node) :
  (forall e, In e (treeElements n) -> fst e <> tag) -> removeNode tag n = Some n.
Proof.
  induction n as [data|data|name attrs children IH|attrs content] using node_induction;
    intros H; cbn [removeNode]; try reflexivity.
  - cbn [treeElements] in H.
    destruct (String.eqb_spec name tag) as [E|E];
      [exfalso; apply (H (name, attrs)); [now left | exact E]|].
    do 2 f_equal. apply omap_fixed.
    rewrite List.Forall_forall in IH. apply List.Forall_forall. intros c Hc.
    apply IH; [exact Hc|]. intros e He. apply H. right. apply in_flat_map. eauto.
  - destruct (String.eqb_spec "template" tag) as [E|E]; [|reflexivity].
    exfalso. apply (H ("template", attrs)); [now left | exact E].
Qed.

Lemma removeAll_fixed (tag : string) (f : list node) :
  (forall e, In e (flat_map treeElements f) -> fst e <> tag) -> removeAll tag f = f.
Proof.
  intros H. apply omap_fixed, List.Forall_forall. intros n Hn.
  apply removeNode_fixed. intros e He. apply H, in_flat_map. eauto.
Qed.

Lemma removeTags_fixed (tags : list string) (f : list node) :
  (forall e, In e (flat_map treeElements f) -> ~ In (fst e) tags) ->
  fold_left (fun g tag => removeAll tag g) tags f = f.
Proof.
  induction tags as [|tag tags IH]; intros H; [reflexivity|].
  cbn [fold_left]. rewrite removeAll_fixed.
  - apply IH. intros e He Hin. apply (H e He). now right.
  - intros e He Heq. apply (H e He). now left.
Qed.

Lemma removeNamed_fixed (names : list string) (attrs : gmap string string) :
  (forall a, In a names -> attrs !! a = None) ->
  fold_left (fun a attr => if hasAttribute attr a then removeAttribute attr a else a)
    names attrs = attrs.
Proof.
  induction names as [|name names IH]; intros H; [reflexivity|].
  cbn [fold_left]. unfold hasAttribute at 2. rewrite (H name) by now left.
  apply IH. intros a Ha. apply H. now right.
Qed.

Lemma removeNamed_other (names : list string) (attrs : gmap string string) (k : string) :
  ~ In k names ->
  fold_left (fun a attr => if hasAttribute attr a then removeAttribute attr a else a)
    names attrs !! k = attrs !! k.
Proof.
  revert attrs. induction names as [|name names IH]; intros attrs H; [reflexivity|].
  cbn [fold_left]. rewrite IH by (intros Hin; apply H; now right).
  rewrite removeIfPresent. apply lookup_delete_ne. intros ->. apply H. now left.
Qed.

Lemma dropIfJavascript_fixed (name : string) (attrs : gmap string string) :
  (forall v, attrs !! name = Some v -> startsWith "javascript:" v = false) ->
  dropIfJavascript name attrs = attrs.
Proof.
  intros H. unfold dropIfJavascript, getAttribute.
  destruct (attrs !! name) as [v|]; [|reflexivity]. now rewrite (H v).
Qed.

Lemma dropIfJavascript_other (name k : string) (attrs : gmap string string) :
  (k <> name \/ forall v, attrs !! k = Some v -> startsWith "javascript:" v = false) ->
  dropIfJavascript name attrs !! k = attrs !! k.
Proof.
  intros H. destruct (decide (k = name)) as [->|Hne].
  - destruct H as [H|H]; [contradiction|]. now rewrite dropIfJavascript_fixed.
  - unfold dropIfJavascript, getAttribute, removeAttribute.
    destruct (attrs !! name) as [v|]; [|reflexivity].
    destruct (startsWith "javascript:" v); [|reflexivity].
    now apply lookup_delete_ne.
Qed.

Lemma cleanAttributes_fixed (name : string) (attrs : gmap string string) :
  clean (name, attrs) -> cleanAttributes attrs = attrs.
Proof.
  intros (_ & Hattrs & Hhref & Hsrc). cbn [snd] in *. unfold cleanAttributes.
  rewrite (removeNamed_fixed _ _ Hattrs).
  rewrite (dropIfJavascript_fixed "href" _ Hhref).
  apply (dropIfJavascript_fixed "src" _ Hsrc).
Qed.

Lemma cleanNode_fixed (n : node) :
  (forall e, In e (treeElements n) -> clean e) -> cleanNode n = n.
Proof.
  induction n as [data|data|name attrs children IH|attrs content] using node_induction;
    intros H; cbn [cleanNode]; try reflexivity.
  - cbn [treeElements] in H.
    rewrite (cleanAttributes_fixed name attrs) by (apply H; now left). f_equal.
    rewrite List.Forall_forall in IH.
    rewrite <- (map_id children) at 2. apply map_ext_in. intros c Hc.
    apply IH; [exact Hc|]. intros e He. apply H. right. apply in_flat_map. eauto.
  - rewrite (cleanAttributes_fixed "template" attrs); [reflexivity|].
    apply H. now left.
Qed.

Lemma cleanFragment_fixed (f : list node) :
  (forall e, In e (flat_map treeElements f) -> clean e) -> cleanFragment f = f.
Proof.
  intros H. unfold cleanFragment, removeDangerous. rewrite removeTags_fixed.
  - rewrite <- (map_id f) at 2. apply map_ext_in. intros n Hn.
    apply cleanNode_fixed. intros e He. apply H, in_flat_map. eauto.
  - intros e He. now destruct (H e He).
Qed.

Lemma cleanAttributes_lookup (attrs : gmap string string) (k : string) :
  ~ In k dangerousAttributes ->
  (forall v, (k = "href" \/ k = "src") -> attrs !! k = Some v ->
             startsWith "javascript:" v = false) ->
  cleanAttributes attrs !! k = attrs !! k.
Proof.
  intros Hk Hjs. unfold cleanAttributes.
  set (attrs1 := fold_left _ dangerousAttributes attrs).
  assert (H1 : attrs1 !! k = attrs !! k) by (now apply removeNamed_other).
  rewrite dropIfJavascript_other.
  - rewrite dropIfJavascript_other; [exact H1|].
    destruct (decide (k = "href")) as [->|Hne]; [right | now left].
    intros v Hv. rewrite H1 in Hv. apply (Hjs v); tauto.
  - destruct (decide (k = "src")) as [->|Hne]; [right | now left].
    intros v Hv. rewrite dropIfJavascript_other in Hv by (left; discriminate).
    rewrite H1 in Hv. apply (Hjs v); tauto.
Qed.

Lemma cleanAttributes_subset (attrs : gmap string string) (k v : string) :
  cleanAttributes attrs !! k = Some v -> attrs !! k = Some v.
Proof.
  unfold cleanAttributes. intros H.
  do 2 apply dropIfJavascript_kept in H.
  destruct (decide (In k dangerousAttributes)) as [Hin|Hin].
  - rewrite removeNamed_lookup in H by now left. discriminate.
  - now rewrite removeNamed_other in H.
Qed.

Lemma removeAll_append (tag : string) (f g : list node) :
  removeAll tag (f ++ g) = removeAll tag f ++ removeAll tag g.
Proof. apply omap_append. Qed.

Lemma removeAll_element (tag name : string) (attrs : gmap string string)
    (children : list node) :
  removeAll tag [Element name attrs children] =
  if name =? tag then [] else [Element name attrs (removeAll tag children)].
Proof. unfold removeAll. cbn. now destruct (name =? tag). Qed.

Lemma removeTags_append (tags : list string) (f g : list node) :
  fold_left (fun h tag => removeAll tag h) tags (f ++ g) =
  fold_left (fun h tag => removeAll tag h) tags f ++
  fold_left (fun h tag => removeAll tag h) tags g.
Proof.
  revert f g. induction tags as [|tag tags IH]; intros f g; [reflexivity|].
  cbn [fold_left]. rewrite removeAll_append. apply IH.
Qed.

Lemma removeTags_nil (tags : list string) :
  fold_left (fun h tag => removeAll tag h) tags [] = [].
Proof. induction tags as [|tag tags IH]; [reflexivity | exact IH]. Qed.

Lemma removeTags_element (tags : list string) (name : string)
    (attrs : gmap string string) (children : list node) :
  fold_left (fun h tag => removeAll tag h) tags [Element name attrs children] =
  if existsb (String.eqb name) tags then []
  else [Element name attrs (fold_left (fun h tag => removeAll tag h) tags children)].
Proof.
  revert children. induction tags as [|tag tags IH]; intros children; [reflexivity|].
  cbn [fold_left existsb]. rewrite removeAll_element.
  destruct (name =? tag); cbn [orb].
  - apply removeTags_nil.
  - apply IH.
Qed.

Lemma cleanFragment_tags (f : list node) (e : element) :
  In e (flat_map treeElements (cleanFragment f)) ->
  exists e0, In e0 (flat_map treeElements f) /\ fst e = fst e0.
Proof.
  unfold cleanFragment, removeDangerous. intros Hin.
  apply in_flat_map in Hin as (n' & Hn' & He).
  apply in_map_iff in Hn' as (n & <- & Hn).
  rewrite cleanNode_elements in He.
  apply in_map_iff in He as (e0 & <- & He0).
  exists e0. split; [|reflexivity].
  assert (Hin : In e0 (flat_map treeElements
            (fold_left (fun g tag => removeAll tag g) dangerousElements f)))
    by (apply in_flat_map; eauto).
  now apply removeTags_elements in Hin as [_ Hin].
Qed.

Lemma formFree_cleanFragment (f : list node) : formFree f -> formFree (cleanFragment f).
Proof.
  intros H e He. apply cleanFragment_tags in He as (e0 & He0 & ->). now apply H.
Qed.

End SanitizerKeeps.

(** X4.  On a fragment without [form] element the sanitizer returns; a
    fragment of this kind whose elements are all clean already (no
    dangerous tag, no handler attribute, no [javascript:] target) passes
    through unchanged; hence sanitizing twice gives what sanitizing once
    gives. *)
Theorem sanitizeFragment_idempotent :
  forall (named : nat -> string -> bool) (f : list node),
    formFree f ->
    (exists g,
       sanitizeFragment named f = Normal g /\
       (forall e, In e (flat_map treeElements g) -> clean e) /\
       sanitizeFragment named g = Normal g) /\
    ((forall e, In e (flat_map treeElements f) -> clean e) ->
     sanitizeFragment named f = Normal f).
Proof.
  intros named f Hform. split.
  - exists (cleanFragment f). split; [now apply sanitizeFragment_formFree|].
    split; [intros e; apply cleanFragment_tree|].
    rewrite (sanitizeFragment_formFree named _ (formFree_cleanFragment f Hform)).
    f_equal. apply cleanFragment_fixed. intros e. apply cleanFragment_tree.
  - intros Hclean. rewrite (sanitizeFragment_formFree named f Hform).
    f_equal. now apply cleanFragment_fixed.
Qed.

Lemma sanitizeFragment_idempotent_witness :
  sanitizeFragment (fun _ _ => true)
    [Element "p" {[ "class" := "note" ]} [Text "hi"; Element "b" ∅ [Text "42%"]]]
  = Normal [Element "p" {[ "class" := "note" ]} [Text "hi"; Element "b" ∅ [Text "42%"]]].
Proof.
  destruct (sanitizeFragment_idempotent (fun _ _ => true)
              [Element "p" {[ "class" := "note" ]} [Text "hi"; Element "b" ∅ [Text "42%"]]])
    as (_ & H).
  - intros e He. cbn in He. destruct He as [<-|[<-|[]]]; discriminate.
  - apply H. intros e He.
    assert (Hclean : forall name attrs,
              ~ In name dangerousElements ->
              (forall a, In a dangerousAttributes -> attrs !! a = None) ->
              attrs !! "href" = None -> attrs !! "src" = None ->
              clean (name, attrs)).
    { intros name attrs H1 H2 H3 H4.
      repeat split; cbn [fst snd]; try assumption; intros v Hv; congruence. }
    cbn in He. destruct He as [<-|[<-|[]]]; apply Hclean; try reflexivity;
      try (cbn; intuition discriminate);
      intros a Ha; cbn in Ha; intuition (subst; reflexivity).
Defined.

(** X5.  Whenever the sanitizer returns, the fragment it returns is made
    node by node and by deleting only: the fragment is treated piece by
    piece, text and comments are kept, an element of the denylist is
    dropped with all it contains, and any other element is kept in place
    with its cleaned attributes and its sanitized children.  Of such an
    element's attributes none is added or altered, and every attribute
    that is neither one of the six handlers nor an [href] or [src] starting
    with [javascript:] is kept. *)
Theorem sanitizeFragment_keeps :
  (forall (named : nat -> string -> bool) (f g : list node),
     sanitizeFragment named f = Normal g -> g = cleanFragment f) /\
  (forall f g : list node,
     cleanFragment (f ++ g) = cleanFragment f ++ cleanFragment g) /\
  (forall data : string,
     cleanFragment [Text data] = [Text data] /\
     cleanFragment [Comment data] = [Comment data]) /\
  (forall (name : string) (attrs : gmap string string) (children : list node),
     (In name dangerousElements -> cleanFragment [Element name attrs children] = []) /\
     (~ In name dangerousElements ->
      cleanFragment [Element name attrs children] =
      [Element name (cleanAttributes attrs) (cleanFragment children)])) /\
  (forall (attrs : gmap string string) (k v : string),
     cleanAttributes attrs !! k = Some v -> attrs !! k = Some v) /\
  (forall (attrs : gmap string string) (k : string),
     ~ In k dangerousAttributes ->
     (forall v, k = "href" \/ k = "src" -> attrs !! k = Some v ->
                startsWith "javascript:" v = false) ->
     cleanAttributes attrs !! k = attrs !! k).
Proof.
  split; [|split; [|split; [|split; [|split]]]].
  - intros named f g H.
    destruct (sanitizeFragment_result named f) as [E|E]; rewrite E in H; congruence.
  - intros f g. unfold cleanFragment, removeDangerous.
    now rewrite removeTags_append, List.map_app.
  - intros data. split; reflexivity.
  - intros name attrs children. unfold cleanFragment, removeDangerous.
    rewrite removeTags_element.
    destruct (existsb (String.eqb name) dangerousElements) eqn:E.
    + split; [reflexivity|]. intros Hnot. exfalso. apply Hnot.
      apply existsb_exists in E as (tag & Hin & Heq).
      apply String.eqb_eq in Heq. now subst.
    + split; [|reflexivity]. intros Hin. exfalso.
      assert (existsb (String.eqb name) dangerousElements = true) as Ht
        by (apply existsb_exists; exists name; split; [exact Hin | apply String.eqb_refl]).
      congruence.
  - exact cleanAttributes_subset.
  - exact cleanAttributes_lookup.
Qed.

Lemma sanitizeFragment_keeps_witness :
  cleanFragment
    [Element "a" {[ "href" := "https://example.org/report"; "onclick" := "x()" ]} [Text "l"]]
  = [Element "a"
       (cleanAttributes {[ "href" := "https://example.org/report"; "onclick" := "x()" ]})
       (cleanFragment [Text "l"])] /\
  cleanAttributes {[ "href" := "https://example.org/report"; "onclick" := "x()" ]} !! "href"
  = Some "https://example.org/report".
Proof.
  destruct sanitizeFragment_keeps as (_ & _ & _ & Helement & _ & Hkept).
  split.
  - apply Helement. cbn. intuition discriminate.
  - rewrite Hkept; [reflexivity | cbn; intuition discriminate |].
    intros v _ Hv. vm_compute in Hv. injection Hv as <-. reflexivity.
Defined.

(** ** Sanitizer: when it throws *)

(** X6.  The sanitizer either returns or throws a [TypeError], and it
    throws whenever, after the dangerous elements are removed, some [form]
    element of the fragment has a control named [hasAttribute]: the call
    [el.hasAttribute] on that form is a call of the control.  Nothing is
    returned then, whatever else the fragment holds, and a display given
    such a summary in a successful envelope throws with it, so that none
    of its sections is rendered. *)
Theorem sanitizeHtml_throws :
  forall (parseFragment : string -> list node) (serializeFragment : list node -> string)
         (named : nat -> string -> bool) (html : string),
    ((exists out, sanitizeHtml parseFragment serializeFragment named (VString html) =
                  Normal out) \/
     sanitizeHtml parseFragment serializeFragment named (VString html) = Throw typeError) /\
    (forall (k : nat) (el : element),
       html <> "" ->
       nth_error (flat_map treeElements (removeDangerous (parseFragment html))) k = Some el ->
       fst el = "form" -> named k "hasAttribute" = true ->
       sanitizeHtml parseFragment serializeFragment named (VString html) = Throw typeError /\
       forall data : DataSummaryResult.envelope,
         truthy (DataSummaryResult.success data) = true ->
         DataSummaryResult.html_summary data = VString html ->
         DataSummaryResult.DataSummaryResult parseFragment serializeFragment named (Some data)
         = Throw typeError).
Proof.
  intros parseFragment serializeFragment named html.
  split; [apply sanitizeHtml_result|].
  intros k el Hne Hk Hform Hnamed.
  assert (Hthrow : sanitizeHtml parseFragment serializeFragment named (VString html) =
                   Throw typeError).
  { unfold sanitizeHtml. destruct html as [|c html]; [contradiction|].
    cbn [truthy isString negb orb String.eqb].
    now rewrite (sanitizeFragment_shadowed named _ k el Hk Hform Hnamed). }
  split; [exact Hthrow|].
  intros data Hsuccess Hsummary.
  unfold DataSummaryResult.DataSummaryResult, DataSummaryResult.renderSuccess.
  rewrite Hsuccess, Hsummary, Hthrow.
  destruct html; [contradiction | reflexivity].
Qed.

Lemma sanitizeHtml_throws_witness :
  sanitizeHtml (fun _ => shadowingForm) (fun _ => "") shadowingFormNamed
    (VString "<form><input name=hasAttribute></form>")
  = Throw typeError.
Proof.
  destruct (sanitizeHtml_throws (fun _ => shadowingForm) (fun _ => "") shadowingFormNamed
              "<form><input name=hasAttribute></form>") as (_ & H).
  destruct (H 0 ("form", ∅)) as (Hthrow & _).
  - discriminate.
  - reflexivity.
  - reflexivity.
  - reflexivity.
  - exact Hthrow.
Defined.


(** X22.  The fragment the sanitizer serialises is clean where its two
    loops reach: whenever [sanitizeHtml] returns on a text that is not
    empty, what it returns is the serialisation of a fragment in whose
    child tree no element bears a tag of the denylist, one of the six
    handler attributes, or an [href] or [src] starting with [javascript:];
    and when the parsed fragment has no [template] element, there are no
    template contents besides the child tree, so this holds of every
    element of that fragment. *)
Theorem sanitizeHtml_returns_clean :
  forall (parseFragment : string -> list node) (serializeFragment : list node -> string)
         (named : nat -> string -> bool) (html out : string),
    html <> "" ->
    sanitizeHtml parseFragment serializeFragment named (VString html) = Normal out ->
    exists g : list node,
      sanitizeFragment named (parseFragment html) = Normal g /\
      out = serializeFragment g /\
      (forall e, In e (flat_map treeElements g) -> clean e) /\
      (forallb templateFree (parseFragment html) = true ->
       forall e, In e (flat_map markupElements g) -> clean e).
Proof.
  intros parseFragment serializeFragment named html out Hne Hout.
  unfold sanitizeHtml in Hout. destruct html as [|c html]; [contradiction|].
  cbn [truthy isString negb orb String.eqb] in Hout.
  destruct (sanitizeFragment_result named (parseFragment (String c html))) as [Hg|Hg];
    rewrite Hg in Hout; [|discriminate].
  cbn [andThen] in Hout. injection Hout as <-.
  exists (cleanFragment (parseFragment (String c html))).
  split; [exact Hg|]. split; [reflexivity|]. split.
  - intros e. apply cleanFragment_tree.
  - intros Hfree e He.
    rewrite (templateFree_markup_all _ (templateFree_cleanFragment _ Hfree)) in He.
    now apply cleanFragment_tree in He.
Qed.

Lemma sanitizeHtml_returns_clean_witness :
  clean ("p", cleanAttributes {[ "onclick" := "x()" ]}) /\
  clean ("a", cleanAttributes {[ "href" := "javascript:x()" ]}).
Proof.
  destruct (sanitizeHtml_returns_clean (fun _ => sampleFragment) (fun _ => "<p>hi</p><a>l</a>")
              (fun _ _ => true) "<script>alert(1)</script><p onclick=x()>hi</p><a href=javascript:x()>l</a>"
              "<p>hi</p><a>l</a>")
    as (g & Hg & _ & Htree & _).
  - discriminate.
  - vm_compute. reflexivity.
  - vm_compute in Hg. injection Hg as <-.
    split; apply Htree; vm_compute; tauto.
Defined.
(** ** Connection and session manager: runs of the hook *)

Section HookRuns.
Import UseSocket HookOps.

Lemma emit_fields (ev : outbound) (st : state) :
  isConnected (emit ev st) = isConnected st /\
  connectionStatus (emit ev st) = connectionStatus st /\
  currentSessionId (emit ev st) = currentSessionId st /\
  reconnectAttempts (emit ev st) = reconnectAttempts st /\
  autoReconnect (emit ev st) = autoReconnect st /\
  sent (emit ev st) = match socket st with Some _ => sent st ++ [ev] | None => [] end.
Proof.
  unfold emit, emitOn, autoReconnect, live, sent. cbn. destruct (socket st); repeat split.
Qed.

Lemma onSocket_replaced_sent (i : nat) (f : Socket -> Socket) (st : state) :
  sent (onSocket (Replaced i) f st) = sent st /\
  socket (onSocket (Replaced i) f st) = socket st.
Proof. split; reflexivity. Qed.

Lemma disconnect_live (i : nat) (st : state) :
  live (Replaced i) (disconnect st) = live (Replaced i) st.
Proof. unfold disconnect. now destruct (socket st). Qed.

Lemma run_dead (evs : list (origin * event)) (st : state) :
  (forall o, live o st = false) -> run evs st = st.
Proof.
  intros H. induction evs as [|[o ev] evs IH]; [reflexivity|].
  rewrite run_cons. unfold deliver. now rewrite H.
Qed.

End HookRuns.

(** X7.  [connect()] does not close the socket it replaces: the socket
    stays alive beside the new one, and its handlers still set the state
    of the hook.  A [connect] event of such a socket puts the flag up and
    the state to [connected] whatever socket the hook holds, and emits its
    [create_session] on the replaced socket, not on the held one.  So
    after [disconnect()], which closes the held socket only, such an event
    leaves a hook whose header reads "Connected" while it holds no socket
    and rejects every query.  In every state the hook reaches, the state
    [connected] is shown only with the flag up, and with the flag up the
    state is [connected], [connecting] or [failed]. *)
Theorem replaced_socket_stays_live :
  (forall (st : UseSocket.state) (sk : UseSocket.Socket),
     UseSocket.socket st = Some sk ->
     let st' := UseSocket.connect st in
     UseSocket.socket st' = Some (UseSocket.mkSocket false []) /\
     UseSocket.replaced st' = UseSocket.replaced st ++ [sk] /\
     UseSocket.live (UseSocket.Replaced (length (UseSocket.replaced st))) st' =
       negb (UseSocket.closed sk) /\
     UseSocket.isConnected st' = UseSocket.isConnected st) /\
  (forall (st : UseSocket.state) (i : nat) (sessionId : string),
     UseSocket.live (UseSocket.Replaced i) st = true ->
     let st' := UseSocket.deliver (UseSocket.Replaced i) (UseSocket.connect_ev sessionId) st in
     UseSocket.isConnected st' = true /\
     UseSocket.connectionStatus st' = UseSocket.connected /\
     UseSocket.currentSessionId st' = VString sessionId /\
     UseSocket.socket st' = UseSocket.socket st /\
     HookOps.sent st' = HookOps.sent st) /\
  (forall (st : UseSocket.state) (i : nat) (sessionId query : string),
     UseSocket.live (UseSocket.Replaced i) st = true ->
     let st' :=
       UseSocket.deliver (UseSocket.Replaced i) (UseSocket.connect_ev sessionId)
         (UseSocket.disconnect st) in
     Header.getStatusText (UseSocket.connectionStatus st') = "Connected" /\
     UseSocket.isConnected st' = true /\
     UseSocket.socket st' = None /\
     UseSocket.sendQuery query st' = (UseSocket.Rejected "Not connected to server", st')) /\
  (forall st : UseSocket.state,
     HookOps.reachable st ->
     (UseSocket.connectionStatus st = UseSocket.connected ->
      UseSocket.isConnected st = true) /\
     (UseSocket.isConnected st = true ->
      UseSocket.connectionStatus st = UseSocket.connected \/
      UseSocket.connectionStatus st = UseSocket.connecting \/
      UseSocket.connectionStatus st = UseSocket.failed)).
Proof.
  split; [|split; [|split]].
  - intros st sk Hsk st'. subst st'.
    unfold UseSocket.connect, UseSocket.letGo, UseSocket.live, UseSocket.socketAt.
    cbn. rewrite Hsk. repeat split.
    rewrite lookup_app_r by reflexivity. now rewrite Nat.sub_diag.
  - intros st i sid Hlive st'. subst st'. unfold UseSocket.deliver. rewrite Hlive.
    cbn [UseSocket.handle]. unfold UseSocket.onConnect, UseSocket.emitOn.
    repeat split.
  - intros st i sid query Hlive st'.
    assert (Hnone : UseSocket.socket st' = None).
    { subst st'. unfold UseSocket.deliver. rewrite disconnect_live, Hlive.
      cbn [UseSocket.handle]. unfold UseSocket.onConnect, UseSocket.emitOn.
      cbn. unfold UseSocket.disconnect. now destruct (UseSocket.socket st) eqn:E. }
    assert (Hflag : UseSocket.isConnected st' = true /\
                    UseSocket.connectionStatus st' = UseSocket.connected).
    { subst st'. unfold UseSocket.deliver. rewrite disconnect_live, Hlive.
      split; reflexivity. }
    destruct Hflag as [Hflag Hstatus]. rewrite Hstatus.
    repeat split; try assumption.
    unfold UseSocket.sendQuery. now rewrite Hnone.
  - intros st Hreach. exact (reachable_coherent st Hreach).
Qed.

Lemma replaced_socket_stays_live_witness :
  let st :=
    UseSocket.deliver (UseSocket.Replaced 0) (UseSocket.connect_ev "s1")
      (UseSocket.disconnect (UseSocket.connect (UseSocket.connect UseSocket.initial))) in
  Header.getStatusText (UseSocket.connectionStatus st) = "Connected" /\
  UseSocket.sendQuery "What is success rate" st =
    (UseSocket.Rejected "Not connected to server", st).
Proof.
  cbv zeta.
  destruct replaced_socket_stays_live as (_ & _ & H & _).
  destruct (H (UseSocket.connect (UseSocket.connect UseSocket.initial)) 0 "s1"
              "What is success rate" eq_refl) as (Htext & _ & _ & Hq).
  split; [exact Htext | exact Hq].
Defined.

Section EmittedEvents.
Import UseSocket HookOps.

Lemma queryTexts_app (a b : list outbound) :
  queryTexts (a ++ b) = queryTexts a ++ queryTexts b.
Proof.
  induction a as [|ev a IH]; [reflexivity|].
  destruct ev; cbn; now rewrite IH.
Qed.

Lemma deliver_replaced_sent (i : nat) (ev : event) (st : state) :
  sent (deliver (Replaced i) ev st) = sent st.
Proof.
  unfold deliver. destruct (live (Replaced i) st); [|reflexivity].
  destruct ev as [sid| |reason|k| |v| ]; cbn [handle]; try reflexivity.
  - unfold onConnectError.
    match goal with |- context [if ?b then _ else _] => destruct b end; reflexivity.
  - unfold onDisconnect. now destruct (reason =? "io client disconnect").
  - unfold onConnectionEstablished. now destruct (truthy v).
Qed.

Lemma perform_sent (o : operation) (st : state) :
  sent (perform o st) = sent st \/
  sent (perform o st) = [] \/
  exists ev, sent (perform o st) = sent st ++ [ev] /\ justified st (perform o st) ev.
Proof.
  destruct o as [| |sid|q| | |[|i] ev]; cbn [perform].
  - right. left. reflexivity.
  - unfold disconnect. destruct (socket st); [right; left | left]; reflexivity.
  - unfold createNewSession. destruct (socket st) as [sk|] eqn:Hsk; [|now left].
    destruct (isConnected st) eqn:Hc; [|now left].
    right. right. exists (create_session sid).
    destruct (emit_fields (create_session sid) (setCurrentSessionId (VString sid) st))
      as (Hic & _ & Hsid & _ & _ & Hsent).
    rewrite Hsent. cbn [socket setCurrentSessionId]. rewrite Hsk.
    split; [unfold sent; cbn; now rewrite Hsk|].
    cbn [justified]. rewrite Hic, Hsid. split; [exact Hc | reflexivity].
  - unfold sendQuery. destruct (socket st) as [sk|] eqn:Hsk; [|now left].
    destruct (isConnected st) eqn:Hc; cbn [negb]; [|now left].
    destruct (truthy (VString (trim q))) eqn:Ht; cbn [negb snd]; [|now left].
    right. right. exists (user_query (trim q) (currentSessionId st)).
    destruct (emit_fields (user_query (trim q) (currentSessionId st)) st)
      as (_ & _ & _ & _ & _ & Hsent).
    rewrite Hsent, Hsk. split; [reflexivity|].
    cbn [justified]. repeat split; [exact Hc | | apply trim_idempotent].
    intros E. rewrite E in Ht. discriminate.
  - unfold ping. destruct (socket st) as [sk|] eqn:Hsk; [|now left].
    destruct (isConnected st) eqn:Hc; [|now left].
    right. right. exists UseSocket.ping.
    destruct (emit_fields UseSocket.ping st) as (_ & _ & _ & _ & _ & Hsent).
    rewrite Hsent, Hsk. split; [reflexivity | exact Hc].
  - unfold getSessionInfo. destruct (socket st) as [sk|] eqn:Hsk; [|now left].
    destruct (isConnected st) eqn:Hc; [|now left].
    right. right. exists get_session_info.
    destruct (emit_fields get_session_info st) as (_ & _ & _ & _ & _ & Hsent).
    rewrite Hsent, Hsk. split; [reflexivity | exact Hc].
  - unfold deliver. destruct (live Held st) eqn:Ha; [|now left].
    unfold live, socketAt in Ha. destruct (socket st) as [sk|] eqn:Hsk; [|discriminate].
    destruct ev as [sid| |reason|k| |v| ]; cbn [handle].
    + right. right. exists (create_session sid). unfold onConnect.
      change (emitOn Held) with emit.
      match goal with |- context [emit ?e ?s] =>
        destruct (emit_fields e s) as (Hic & _ & Hsid & _ & _ & Hsent) end.
      rewrite Hsent. cbn [socket setCurrentSessionId setReconnectAttempts
                            setConnectionStatus setIsConnected].
      rewrite Hsk. split; [unfold sent; cbn; now rewrite Hsk|].
      cbn [justified]. rewrite Hic, Hsid. split; reflexivity.
    + left. destruct (onConnectError_cases st) as [[_ ->]|[_ ->]];
        unfold sent; cbn; now rewrite Hsk.
    + left. unfold onDisconnect. now destruct (reason =? "io client disconnect").
    + now left.
    + now left.
    + left. unfold onConnectionEstablished. now destruct (truthy v).
    + now left.
  - left. apply deliver_replaced_sent.
Qed.

Lemma reachable_queries (st : state) :
  reachable st -> Forall (fun q => q <> "" /\ trim q = q) (queryTexts (sent st)).
Proof.
  induction 1 as [|o st _ IH]; [constructor|].
  destruct (perform_sent o st) as [->|[->|(ev & -> & Hev)]]; [exact IH | constructor |].
  rewrite queryTexts_app. apply Forall_app. split; [exact IH|].
  destruct ev; cbn; try constructor; [|constructor].
  cbn [justified] in Hev. tauto.
Qed.

End EmittedEvents.

(** X8.  Whatever is done to the hook, what has been emitted on its
    socket stays as it is, or starts afresh (a new socket, or none), or
    grows by one event; and that event is justified: a [user-query] is
    only emitted while connected and carries a non-empty text that is
    already trimmed, together with the session id held at that moment; a
    [create_session] names the session id the hook holds from then on; a
    probe is only emitted while connected.  Hence every query text ever
    emitted on the socket in use is non-empty and trimmed. *)
Theorem emitted_events_justified :
  (forall (o : HookOps.operation) (st : UseSocket.state),
     HookOps.sent (HookOps.perform o st) = HookOps.sent st \/
     HookOps.sent (HookOps.perform o st) = [] \/
     exists ev : UseSocket.outbound,
       HookOps.sent (HookOps.perform o st) = HookOps.sent st ++ [ev] /\
       HookOps.justified st (HookOps.perform o st) ev) /\
  (forall st : UseSocket.state,
     HookOps.reachable st ->
     Forall (fun query => query <> "" /\ trim query = query)
       (HookOps.queryTexts (HookOps.sent st))).
Proof. split; [exact perform_sent | exact reachable_queries]. Qed.

Lemma emitted_events_justified_witness :
  Forall (fun query => query <> "" /\ trim query = query)
    (HookOps.queryTexts
       (HookOps.sent
          (HookOps.perform (HookOps.SendQuery "  What is success rate ")
             (HookOps.perform (HookOps.Deliver UseSocket.Held (UseSocket.connect_ev "s1"))
                (HookOps.perform HookOps.Connect UseSocket.initial))))).
Proof.
  destruct emitted_events_justified as (_ & H). apply H.
  do 3 apply HookOps.reachable_perform. apply HookOps.reachable_initial.
Defined.

(** X9.  [createNewSession] does nothing while the hook is not connected.
    While connected it replaces the session id, tells the server with one
    [create_session] event and leaves the connection state alone; the next
    query is then sent under the new session id. *)
Theorem createNewSession_then_query :
  forall (st : UseSocket.state) (sessionId query : string),
    ((UseSocket.socket st = None \/ UseSocket.isConnected st = false) ->
     UseSocket.createNewSession sessionId st = st) /\
    (forall sk : UseSocket.Socket,
       UseSocket.socket st = Some sk -> UseSocket.isConnected st = true ->
       let st1 := UseSocket.createNewSession sessionId st in
       UseSocket.currentSessionId st1 = VString sessionId /\
       UseSocket.connectionStatus st1 = UseSocket.connectionStatus st /\
       UseSocket.isConnected st1 = true /\
       HookOps.sent st1 = UseSocket.emitted sk ++ [UseSocket.create_session sessionId] /\
       (trim query <> "" ->
        fst (UseSocket.sendQuery query st1) = UseSocket.Resolved /\
        HookOps.sent (snd (UseSocket.sendQuery query st1)) =
          UseSocket.emitted sk ++
          [UseSocket.create_session sessionId;
           UseSocket.user_query (trim query) (VString sessionId)])).
Proof.
  intros st sessionId query. split.
  - unfold UseSocket.createNewSession. intros [H|H]; rewrite H; [reflexivity|].
    now destruct (UseSocket.socket st).
  - intros sk Hsk Hc st1. subst st1. unfold UseSocket.createNewSession.
    rewrite Hsk, Hc. unfold UseSocket.emit, UseSocket.emitOn, HookOps.sent.
    cbn. rewrite Hsk. cbn.
    repeat split; try assumption.
    + unfold UseSocket.sendQuery. cbn. rewrite Hc. cbn.
      destruct (trim query); [contradiction | reflexivity].
    + unfold UseSocket.sendQuery. cbn. rewrite Hc. cbn.
      destruct (trim query); [contradiction|]. cbn. now rewrite <- app_assoc.
Qed.

Lemma createNewSession_then_query_witness :
  UseSocket.createNewSession "s2" UseSocket.initial = UseSocket.initial /\
  UseSocket.currentSessionId
    (UseSocket.createNewSession "s2"
       (UseSocket.handle UseSocket.Held (UseSocket.connect_ev "s1")
          (UseSocket.connect UseSocket.initial)))
  = VString "s2".
Proof.
  split.
  - destruct (createNewSession_then_query UseSocket.initial "s2" "q") as (H & _).
    apply H. left. reflexivity.
  - destruct (createNewSession_then_query
                (UseSocket.handle UseSocket.Held (UseSocket.connect_ev "s1")
                   (UseSocket.connect UseSocket.initial)) "s2" "q") as (_ & H).
    destruct (H (UseSocket.mkSocket false [UseSocket.create_session "s1"]) eq_refl eq_refl)
      as (Hs & _).
    exact Hs.
Defined.

(** X10.  After [disconnect()] the hook holds no socket; if it held one,
    the flag is down, the state is [disconnected] and the session id is
    cleared, while the sockets replaced earlier are left as they are.
    From then on every query is rejected as not connected and a second
    [disconnect()] does nothing.  No event of the socket that was held
    changes anything; and when no replaced socket is alive, as when
    [connect()] was only called once, no event at all does. *)
Theorem disconnect_is_final :
  forall st : UseSocket.state,
    let st' := UseSocket.disconnect st in
    UseSocket.socket st' = None /\
    UseSocket.replaced st' = UseSocket.replaced st /\
    (UseSocket.socket st <> None ->
     UseSocket.isConnected st' = false /\
     UseSocket.connectionStatus st' = UseSocket.disconnected /\
     UseSocket.currentSessionId st' = VNull /\
     UseSocket.reconnectAttempts st' = UseSocket.reconnectAttempts st) /\
    UseSocket.disconnect st' = st' /\
    (forall evs : list UseSocket.event,
       UseSocket.run (map (pair UseSocket.Held) evs) st' = st') /\
    ((forall i : nat, UseSocket.live (UseSocket.Replaced i) st = false) ->
     forall evs : list (UseSocket.origin * UseSocket.event), UseSocket.run evs st' = st') /\
    (forall query : string,
       UseSocket.sendQuery query st' = (UseSocket.Rejected "Not connected to server", st')) /\
    (forall sessionId : string, UseSocket.createNewSession sessionId st' = st').
Proof.
  intros st st'.
  assert (Hnone : UseSocket.socket st' = None).
  { subst st'. unfold UseSocket.disconnect.
    destruct (UseSocket.socket st) eqn:E; [reflexivity | exact E]. }
  assert (Hheld : UseSocket.live UseSocket.Held st' = false)
    by (unfold UseSocket.live, UseSocket.socketAt; now rewrite Hnone).
  split; [exact Hnone|]. split; [|split; [|split; [|split; [|split; [|split]]]]].
  - subst st'. unfold UseSocket.disconnect. now destruct (UseSocket.socket st).
  - intros Hsome. subst st'. unfold UseSocket.disconnect.
    destruct (UseSocket.socket st); [repeat split | contradiction].
  - unfold UseSocket.disconnect at 1. now rewrite Hnone.
  - intros evs. now apply run_torn_down.
  - intros Hdead evs. apply run_dead. intros [|i]; [exact Hheld|].
    subst st'. now rewrite disconnect_live.
  - intros query. unfold UseSocket.sendQuery. now rewrite Hnone.
  - intros sessionId. unfold UseSocket.createNewSession. now rewrite Hnone.
Qed.

Lemma disconnect_is_final_witness :
  UseSocket.connectionStatus
    (UseSocket.disconnect
       (UseSocket.handle UseSocket.Held (UseSocket.connect_ev "s1")
          (UseSocket.connect UseSocket.initial)))
  = UseSocket.disconnected /\
  UseSocket.run [(UseSocket.Held, UseSocket.connect_ev "s2");
                 (UseSocket.Replaced 0, UseSocket.reconnect 1)]
    (UseSocket.disconnect
       (UseSocket.handle UseSocket.Held (UseSocket.connect_ev "s1")
          (UseSocket.connect UseSocket.initial)))
  = UseSocket.disconnect
      (UseSocket.handle UseSocket.Held (UseSocket.connect_ev "s1")
         (UseSocket.connect UseSocket.initial)).
Proof.
  destruct (disconnect_is_final
              (UseSocket.handle UseSocket.Held (UseSocket.connect_ev "s1")
                 (UseSocket.connect UseSocket.initial)))
    as (_ & _ & H & _ & _ & Hrun & _).
  split.
  - destruct H as (_ & Hs & _); [discriminate | exact Hs].
  - apply Hrun. intros i. now destruct i.
Defined.

(** X11.  [connect()] opens a fresh socket but does not reset the attempt
    counter; only a successful [connect] or [reconnect] event does.  So
    once the counter has reached the limit of five, as after the attempts
    were exhausted, a new [connect()] is given up at its very first
    [connect_error]: the state is [failed] again and the new socket is
    torn down. *)
Theorem connect_keeps_attempt_counter :
  forall st : UseSocket.state,
    UseSocket.reconnectAttempts (UseSocket.connect st) = UseSocket.reconnectAttempts st /\
    UseSocket.connectionStatus (UseSocket.connect st) = UseSocket.connecting /\
    UseSocket.autoReconnect (UseSocket.connect st) = true /\
    (UseSocket.maxReconnectAttempts <= S (UseSocket.reconnectAttempts st) ->
     let st' :=
       UseSocket.deliver UseSocket.Held UseSocket.connect_error (UseSocket.connect st) in
     UseSocket.connectionStatus st' = UseSocket.failed /\
     UseSocket.autoReconnect st' = false /\
     UseSocket.reconnectAttempts st' = S (UseSocket.reconnectAttempts st)).
Proof.
  intros st.
  assert (Hdel : UseSocket.deliver UseSocket.Held UseSocket.connect_error
                   (UseSocket.connect st) =
                 UseSocket.onConnectError UseSocket.Held (UseSocket.connect st))
    by reflexivity.
  repeat split.
  - rewrite Hdel.
    destruct (onConnectError_cases (UseSocket.connect st)) as [[_ ->]|[Hlt _]];
      [reflexivity | cbn in Hlt; lia].
  - rewrite Hdel.
    destruct (onConnectError_cases (UseSocket.connect st)) as [[_ ->]|[Hlt _]];
      [reflexivity | cbn in Hlt; lia].
  - rewrite Hdel, onConnectError_attempts. reflexivity.
Qed.

Lemma connect_keeps_attempt_counter_witness :
  UseSocket.connectionStatus
    (UseSocket.deliver UseSocket.Held UseSocket.connect_error
       (UseSocket.connect
          (UseSocket.run (repeat (UseSocket.Held, UseSocket.connect_error) 5)
             (UseSocket.connect UseSocket.initial))))
  = UseSocket.failed.
Proof.
  destruct (connect_keeps_attempt_counter
              (UseSocket.run (repeat (UseSocket.Held, UseSocket.connect_error) 5)
                 (UseSocket.connect UseSocket.initial))) as (_ & _ & _ & H).
  destruct H as (Hs & _); [vm_compute; lia | exact Hs].
Defined.


(** ** Conversation controller: the query in flight *)

Section InFlight.
Import App Conversation.

Lemma inFlight_held (st : state) : inFlight st -> timersHeld st.
Proof.
  unfold inFlight, timersHeld. destruct (loadingTimeoutRef st); [|tauto].
  intros (due & H & _). eauto.
Qed.

Lemma inFlight_cleared (st : state) :
  inFlight st -> inFlight (setIsLoading false (setRef None (clearPending st))).
Proof.
  intros H. unfold inFlight. cbn. split; [|reflexivity].
  apply clearPending_timers. now apply inFlight_held.
Qed.

Lemma handleQueryError_inFlight (data : option value) (st : state) :
  inFlight st -> inFlight (handleQueryError data st).
Proof.
  intros H. unfold handleQueryError. destruct data; exact (inFlight_cleared st H).
Qed.

Lemma handleSendMessage_inFlight (text : string) (st : state) :
  inFlight st -> inFlight (handleSendMessage text st).
Proof.
  intros H. unfold handleSendMessage.
  destruct (negb (truthy (VString (trim text))) || negb (UseSocket.isConnected (hook st)));
    [exact H|].
  set (st2 := setCurrentInput "" _).
  assert (Hheld2 : timersHeld st2) by (apply inFlight_held in H; exact H).
  pose proof (clearPending_timers st2 Hheld2) as Ht.
  destruct (clearPending_rest st2) as (_ & _ & _ & Hl & _ & _ & Hnow).
  unfold setTimeout. cbn [setRef hook messages currentInput isLoading
                            loadingTimeoutRef timers nextTimer now].
  rewrite Ht, Hl, Hnow.
  destruct (UseSocket.sendQuery text _) as [[|msg] h].
  - unfold inFlight. cbn. eexists. repeat split; unfold safetyTimeout; lia.
  - unfold inFlight. cbn. now rewrite Nat.eqb_refl.
Qed.

Lemma advance_inFlight (dt : N) (st : state) : inFlight st -> inFlight (advance dt st).
Proof.
  unfold inFlight. destruct (loadingTimeoutRef st) as [handle|] eqn:Href.
  - intros (due & Ht & Hl & Hnow & Hdue). rewrite (advance_single dt st handle due Ht).
    destruct (due <=? now st + dt)%N eqn:E.
    + cbn. rewrite Ht. cbn. now rewrite Nat.eqb_refl.
    + apply N.leb_gt in E. cbn. rewrite Href. exists due.
      repeat split; try assumption. lia.
  - intros [Ht Hl]. rewrite (advance_idle dt st Ht). cbn. now rewrite Href.
Qed.

Lemma step_inFlight (a : action) (st : state) : inFlight st -> inFlight (step a st).
Proof.
  intros H. destruct a; cbn [step].
  - now apply handleSendMessage_inFlight.
  - exact H.
  - now apply advance_inFlight.
  - destruct (listening st); [apply (inFlight_cleared st H) | exact H].
  - destruct (listening st); [now apply handleQueryError_inFlight | exact H].
  - exact H.
  - exact H.
  - exact H.
Qed.

Lemma reachable_inFlight (st : state) : reachable st -> inFlight st.
Proof.
  induction 1 as [|a st _ IH]; [split; reflexivity | now apply step_inFlight].
Qed.

End InFlight.

(** X12.  In every state the controller can reach, it is loading exactly
    while one safety timer is pending, the one whose handle it holds, and
    that timer is due at most 30000 ms ahead; while it is not loading no
    timer is pending.  There is never more than one pending timer, also
    when a query is submitted while another is still in flight. *)
Theorem loading_iff_timer_pending :
  forall st : App.state,
    App.reachable st ->
    (App.isLoading st = true <->
     exists (handle : nat) (due : N),
       App.loadingTimeoutRef st = Some handle /\
       App.timers st = [(handle, due)] /\
       (due <= App.now st + 30000)%N) /\
    (App.isLoading st = false <->
     App.loadingTimeoutRef st = None /\ App.timers st = []) /\
    length (App.timers st) <= 1.
Proof.
  intros st Hreach. pose proof (reachable_inFlight st Hreach) as H.
  unfold Conversation.inFlight in H.
  destruct (App.loadingTimeoutRef st) as [handle|].
  - destruct H as (due & Ht & Hl & _ & Hdue). rewrite Ht, Hl.
    split; [|split; [|cbn; lia]].
    + split; [|reflexivity]. intros _. exists handle, due. repeat split. exact Hdue.
    + split; [discriminate|]. intros [H _]. discriminate.
  - destruct H as [Ht Hl]. rewrite Ht, Hl.
    split; [|split; [|cbn; lia]].
    + split; [discriminate|]. intros (handle & due & H & _). discriminate.
    + split; [split; reflexivity | reflexivity].
Qed.

Lemma loading_iff_timer_pending_witness :
  length
    (App.timers
       (App.step (App.Submit "second")
          (App.step (App.Submit "first")
             (App.step (App.Transport UseSocket.Held (UseSocket.connect_ev "s1"))
                (App.step App.Connect App.initial))))) <= 1.
Proof.
  destruct (loading_iff_timer_pending
              (App.step (App.Submit "second")
                 (App.step (App.Submit "first")
                    (App.step (App.Transport UseSocket.Held (UseSocket.connect_ev "s1"))
                       (App.step App.Connect App.initial)))))
    as (_ & _ & H); [|exact H].
  do 4 apply App.reachable_step. apply App.reachable_initial.
Defined.

(** X13.  The controller never stays loading for more than the safety
    delay: from any state it can reach, once 30000 ms or more have passed
    without an answer it is not loading and no timer is pending.  If a
    query was in flight, its timer has fired when it was due, a time later
    than the moment before and at most 30000 ms after it, and the history
    has grown by exactly one time-out message, stamped with that time; if
    none was, the history is as it was. *)
Theorem loading_ends_within_timeout :
  forall (st : App.state) (dt : N),
    App.reachable st -> (App.safetyTimeout <= dt)%N ->
    let st' := App.advance dt st in
    App.isLoading st' = false /\
    App.timers st' = [] /\
    App.loadingTimeoutRef st' = None /\
    App.now st' = (App.now st + dt)%N /\
    (App.isLoading st = false -> App.messages st' = App.messages st) /\
    (App.isLoading st = true ->
     exists (handle : nat) (due : N),
       App.timers st = [(handle, due)] /\
       (App.now st < due <= App.now st + 30000)%N /\
       App.messages st' =
         App.messages st ++
         [App.mkMessage (due + 2)%N App.error
            (App.Plain (VString "Request timed out. Please try again.")) due]).
Proof.
  intros st dt Hreach Hdt. cbv zeta.
  pose proof (reachable_inFlight st Hreach) as H. unfold Conversation.inFlight in H.
  unfold App.safetyTimeout in *.
  destruct (App.loadingTimeoutRef st) as [handle|] eqn:Href.
  - destruct H as (due & Ht & Hl & Hnow & Hdue).
    rewrite (advance_single dt st handle due Ht).
    replace (due <=? App.now st + dt)%N with true by (symmetry; apply N.leb_le; lia).
    replace (N.max (App.now st) due) with due by lia.
    rewrite Hl. cbn. rewrite Ht. cbn. rewrite Nat.eqb_refl.
    repeat split; try discriminate.
    intros _. exists handle, due. repeat split; assumption.
  - destruct H as [Ht Hl]. rewrite (advance_idle dt st Ht). cbn.
    rewrite ?Hl, ?Href. repeat split; try reflexivity; [exact Ht | discriminate].
Qed.

Lemma loading_ends_within_timeout_witness :
  let st :=
    App.step (App.Elapse 10000)
      (App.step (App.Submit "What is error rate")
         (App.step (App.Transport UseSocket.Held (UseSocket.connect_ev "s1"))
            (App.step App.Connect App.initial))) in
  App.now st = 10000%N /\
  App.isLoading (App.advance 30000 st) = false /\
  App.messages (App.advance 30000 st) =
    [ App.mkMessage 0 App.user (App.Plain (VString "What is error rate")) 0;
      App.mkMessage 30002 App.error
        (App.Plain (VString "Request timed out. Please try again.")) 30000 ].
Proof.
  cbv zeta.
  destruct (loading_ends_within_timeout
              (App.step (App.Elapse 10000)
                 (App.step (App.Submit "What is error rate")
                    (App.step (App.Transport UseSocket.Held (UseSocket.connect_ev "s1"))
                       (App.step App.Connect App.initial)))) 30000%N)
    as (Hl & _ & _ & _ & _ & Hm).
  - do 4 apply App.reachable_step. apply App.reachable_initial.
  - vm_compute. discriminate.
  - destruct (Hm eq_refl) as (handle & due & Ht & _ & Hmsgs).
    vm_compute in Ht. injection Ht as <- <-.
    split; [reflexivity|]. split; [exact Hl|].
    rewrite Hmsgs. vm_compute. reflexivity.
Defined.

(** X14.  An answer that arrives before the safety delay has passed
    cancels the timer: the history is the user message followed by the
    assistant message, the controller is not loading, and no time-out
    message is appended however much time passes afterwards. *)
Theorem response_in_time_cancels_timer :
  forall (st : App.state) (text : string) (sk : UseSocket.Socket)
         (data : DataSummaryResult.envelope) (early later : N),
    App.reachable st ->
    UseSocket.socket (App.hook st) = Some sk ->
    UseSocket.isConnected (App.hook st) = true ->
    trim text <> "" ->
    (early < App.safetyTimeout)%N ->
    let st1 := App.handleQueryResponse data (App.advance early (App.handleSendMessage text st)) in
    App.isLoading st1 = false /\
    App.timers st1 = [] /\
    App.loadingTimeoutRef st1 = None /\
    App.messages st1 =
      App.messages st ++
      [App.mkMessage (App.now st) App.user (App.Plain (VString text)) (App.now st);
       App.mkMessage (App.now st + early)%N App.assistant (App.Data data)
         (App.now st + early)%N] /\
    App.messages (App.advance later st1) = App.messages st1.
Proof.
  intros st text sk data early later Hreach Hsk Hconn Hne Hearly. cbv zeta.
  rewrite (handleSendMessage_sent text st sk (reachable_held st Hreach) Hsk Hconn Hne).
  erewrite advance_single by reflexivity. cbn [App.now].
  replace (App.now st + App.safetyTimeout <=? App.now st + early)%N with false
    by (symmetry; apply N.leb_gt; lia).
  unfold App.handleQueryResponse. cbn. rewrite Nat.eqb_refl. cbn.
  rewrite <- app_assoc. repeat split.
Qed.

Lemma response_in_time_cancels_timer_witness :
  App.messages
    (App.advance 60000
       (App.handleQueryResponse
          (DataSummaryResult.mkEnvelope (VBool true) VUndefined VUndefined VUndefined
             (VString "42%"))
          (App.advance 1200
             (App.handleSendMessage "What is success rate"
                (App.step (App.Transport UseSocket.Held (UseSocket.connect_ev "s1"))
                   (App.step App.Connect App.initial))))))
  = [ App.mkMessage 0 App.user (App.Plain (VString "What is success rate")) 0;
      App.mkMessage 1200 App.assistant
        (App.Data (DataSummaryResult.mkEnvelope (VBool true) VUndefined VUndefined
                     VUndefined (VString "42%"))) 1200 ].
Proof.
  destruct (response_in_time_cancels_timer
              (App.step (App.Transport UseSocket.Held (UseSocket.connect_ev "s1"))
                 (App.step App.Connect App.initial))
              "What is success rate"
              (UseSocket.mkSocket false [UseSocket.create_session "s1"])
              (DataSummaryResult.mkEnvelope (VBool true) VUndefined VUndefined VUndefined
                 (VString "42%"))
              1200%N 60000%N)
    as (_ & _ & _ & Hm & Hlater).
  - do 2 apply App.reachable_step. apply App.reachable_initial.
  - reflexivity.
  - reflexivity.
  - vm_compute. discriminate.
  - reflexivity.
  - rewrite Hlater, Hm. reflexivity.
Defined.

(** X15.  A [query_error] event ends the wait like an answer does: from
    any reachable state it leaves the controller not loading with no timer
    pending, and no time-out message follows later.  When the event has a
    payload it appends exactly one error message, whose text is the
    [error] of the payload when it has one and "An error occurred while
    processing your request." otherwise; when it has none, the handler
    throws on reading [data.error] and no message is appended. *)
Theorem query_error_ends_wait :
  forall (st : App.state) (data : option value) (later : N),
    App.reachable st ->
    let st1 := App.handleQueryError data st in
    App.isLoading st1 = false /\
    App.timers st1 = [] /\
    App.loadingTimeoutRef st1 = None /\
    App.messages st1 =
      match data with
      | Some dataError =>
          App.messages st ++
          [App.mkMessage (App.now st) App.error
             (App.Plain (if truthy dataError then dataError
                         else VString "An error occurred while processing your request."))
             (App.now st)]
      | None => App.messages st
      end /\
    App.messages (App.advance later st1) = App.messages st1.
Proof.
  intros st data later Hreach. cbv zeta.
  pose proof (clearPending_timers st (reachable_held st Hreach)) as Ht.
  destruct (clearPending_rest st) as (_ & Hm & _ & _ & _ & _ & Hnow).
  assert (Htimers : App.timers (App.handleQueryError data st) = [])
    by (destruct data; exact Ht).
  split; [now destruct data|]. split; [exact Htimers|]. split; [now destruct data|]. split.
  - unfold App.handleQueryError, orElse. destruct data as [dataError|];
      cbn [App.appendMessage App.setIsLoading App.setRef App.messages App.now];
      now rewrite Hm, ?Hnow.
  - now rewrite (advance_idle later _ Htimers).
Qed.

Lemma query_error_ends_wait_witness :
  let st :=
    App.step (App.Submit "What is error rate")
      (App.step (App.Transport UseSocket.Held (UseSocket.connect_ev "s1"))
         (App.step App.Connect App.initial)) in
  App.isLoading (App.handleQueryError (Some VUndefined) st) = false /\
  App.messages (App.handleQueryError (Some VUndefined) st) =
    [ App.mkMessage 0 App.user (App.Plain (VString "What is error rate")) 0;
      App.mkMessage 0 App.error
        (App.Plain (VString "An error occurred while processing your request.")) 0 ] /\
  App.messages (App.handleQueryError None st) =
    [ App.mkMessage 0 App.user (App.Plain (VString "What is error rate")) 0 ].
Proof.
  cbv zeta.
  assert (Hreach : App.reachable
            (App.step (App.Submit "What is error rate")
               (App.step (App.Transport UseSocket.Held (UseSocket.connect_ev "s1"))
                  (App.step App.Connect App.initial))))
    by (do 3 apply App.reachable_step; apply App.reachable_initial).
  destruct (query_error_ends_wait _ (Some VUndefined) 0%N Hreach) as (Hl & _ & _ & Hm & _).
  destruct (query_error_ends_wait _ None 0%N Hreach) as (_ & _ & _ & Hn & _).
  split; [exact Hl|]. split; [rewrite Hm | rewrite Hn]; vm_compute; reflexivity.
Defined.

(** X16.  Starting a new session while a query is in flight empties the
    history and the input and, while connected, replaces the session id,
    but it neither stops the wait nor cancels the timer: the controller is
    still loading, and the time-out notice of the old query, stamped with
    the time its timer was due, or its late answer, becomes the first
    message of the new conversation. *)
Theorem new_session_keeps_query_in_flight :
  forall (st : App.state) (text sessionId : string) (sk : UseSocket.Socket)
         (data : DataSummaryResult.envelope) (dt : N),
    App.reachable st ->
    UseSocket.socket (App.hook st) = Some sk ->
    UseSocket.isConnected (App.hook st) = true ->
    trim text <> "" ->
    (App.safetyTimeout <= dt)%N ->
    let st1 := App.handleNewSession sessionId (App.handleSendMessage text st) in
    App.messages st1 = [] /\
    App.currentInput st1 = "" /\
    UseSocket.currentSessionId (App.hook st1) = VString sessionId /\
    App.isLoading st1 = true /\
    App.timers st1 = [(App.nextTimer st, (App.now st + 30000)%N)] /\
    App.messages (App.advance dt st1) =
      [App.mkMessage (App.now st + 30000 + 2)%N App.error
         (App.Plain (VString "Request timed out. Please try again."))
         (App.now st + 30000)%N] /\
    App.messages (App.handleQueryResponse data st1) =
      [App.mkMessage (App.now st) App.assistant (App.Data data) (App.now st)].
Proof.
  intros st text sessionId sk data dt Hreach Hsk Hconn Hne Hdt. cbv zeta.
  rewrite (handleSendMessage_sent text st sk (reachable_held st Hreach) Hsk Hconn Hne).
  unfold App.handleNewSession.
  cbn [App.setCurrentInput App.setMessages App.setHook App.hook App.messages
         App.currentInput App.isLoading App.loadingTimeoutRef App.timers App.nextTimer
         App.now].
  split; [reflexivity|]. split; [reflexivity|]. split.
  { unfold UseSocket.createNewSession, UseSocket.emit, UseSocket.emitOn. cbn. rewrite Hsk. cbn.
    rewrite Hconn. reflexivity. }
  split; [reflexivity|]. split; [reflexivity|]. split.
  - erewrite advance_single by reflexivity.
    cbn [App.now App.setCurrentInput App.setMessages App.setHook].
    replace (App.now st + App.safetyTimeout <=? App.now st + dt)%N with true
      by (symmetry; apply N.leb_le; lia).
    replace (N.max (App.now st) (App.now st + App.safetyTimeout))
      with (App.now st + 30000)%N by (unfold App.safetyTimeout; lia).
    reflexivity.
  - unfold App.handleQueryResponse. cbn. reflexivity.
Qed.

Lemma new_session_keeps_query_in_flight_witness :
  App.messages
    (App.advance 45000
       (App.handleNewSession "s2"
          (App.handleSendMessage "What is success rate"
             (App.step (App.Transport UseSocket.Held (UseSocket.connect_ev "s1"))
                (App.step App.Connect App.initial)))))
  = [App.mkMessage 30002 App.error
       (App.Plain (VString "Request timed out. Please try again.")) 30000].
Proof.
  destruct (new_session_keeps_query_in_flight
              (App.step (App.Transport UseSocket.Held (UseSocket.connect_ev "s1"))
                 (App.step App.Connect App.initial))
              "What is success rate" "s2"
              (UseSocket.mkSocket false [UseSocket.create_session "s1"])
              (DataSummaryResult.mkEnvelope (VBool true) VUndefined VUndefined VUndefined
                 VUndefined)
              45000%N)
    as (_ & _ & _ & _ & _ & H & _).
  - do 2 apply App.reachable_step. apply App.reachable_initial.
  - reflexivity.
  - reflexivity.
  - vm_compute. discriminate.
  - vm_compute. discriminate.
  - exact H.
Defined.

(** X17.  The input form submits only when there is text, the hook is
    connected and no query is in flight; otherwise a submission, also by
    the Enter key, changes nothing, and so does any other key.  When it
    submits, the text shown in the user message is the trimmed input, and
    it is the very text of the query emitted on the socket; the input is
    emptied and the controller is loading. *)
Theorem handleSubmit_gate :
  forall st : App.state,
    ((trim (App.currentInput st) = "" \/
      UseSocket.isConnected (App.hook st) = false \/
      App.isLoading st = true) ->
     InputSection.handleSubmit st = st /\
     forall shiftKey : bool, InputSection.handleKeyPress "Enter" shiftKey st = st) /\
    (forall (key : string) (shiftKey : bool),
       key <> "Enter" \/ shiftKey = true ->
       InputSection.handleKeyPress key shiftKey st = st) /\
    (forall sk : UseSocket.Socket,
       App.reachable st ->
       UseSocket.socket (App.hook st) = Some sk ->
       UseSocket.isConnected (App.hook st) = true ->
       App.isLoading st = false ->
       trim (App.currentInput st) <> "" ->
       let st' := InputSection.handleSubmit st in
       InputSection.handleKeyPress "Enter" false st = st' /\
       App.messages st' =
         App.messages st ++
         [App.mkMessage (App.now st) App.user
            (App.Plain (VString (trim (App.currentInput st)))) (App.now st)] /\
       HookOps.sent (App.hook st') =
         UseSocket.emitted sk ++
         [UseSocket.user_query (trim (App.currentInput st))
            (UseSocket.currentSessionId (App.hook st))] /\
       App.currentInput st' = "" /\
       App.isLoading st' = true).
Proof.
  intros st. split; [|split].
  - intros H.
    assert (Hs : InputSection.handleSubmit st = st).
    { unfold InputSection.handleSubmit. destruct H as [H|[H|H]]; rewrite H.
      - reflexivity.
      - now rewrite andb_false_r.
      - now rewrite andb_false_r. }
    split; [exact Hs|]. intros shiftKey. unfold InputSection.handleKeyPress.
    now destruct (("Enter" =? "Enter") && negb shiftKey).
  - intros key shiftKey H. unfold InputSection.handleKeyPress.
    destruct H as [H|H].
    + apply String.eqb_neq in H. now rewrite H.
    + rewrite H. now rewrite andb_false_r.
  - intros sk Hreach Hsk Hconn Hload Hne. cbv zeta.
    unfold InputSection.handleKeyPress. cbn [String.eqb Ascii.eqb Bool.eqb negb andb].
    split; [reflexivity|].
    unfold InputSection.handleSubmit. rewrite Hconn, Hload.
    replace (truthy (VString (trim (App.currentInput st)))) with true
      by (destruct (trim (App.currentInput st)); [contradiction | reflexivity]).
    cbn [negb andb].
    rewrite (handleSendMessage_sent (trim (App.currentInput st)) st sk
               (reachable_held st Hreach) Hsk Hconn)
      by (now rewrite trim_idempotent).
    rewrite trim_idempotent. unfold HookOps.sent, UseSocket.emit, UseSocket.emitOn.
    cbn. rewrite Hsk.
    repeat split.
Qed.

Lemma handleSubmit_gate_witness :
  InputSection.handleSubmit (InputSection.onChange "   " App.initial)
  = InputSection.onChange "   " App.initial /\
  App.isLoading
    (InputSection.handleSubmit
       (InputSection.onChange " What is success rate "
          (App.step (App.Transport UseSocket.Held (UseSocket.connect_ev "s1"))
             (App.step App.Connect App.initial))))
  = true.
Proof.
  split.
  - destruct (handleSubmit_gate (InputSection.onChange "   " App.initial)) as (H & _).
    destruct H as (Hs & _); [left; reflexivity | exact Hs].
  - destruct (handleSubmit_gate
                (InputSection.onChange " What is success rate "
                   (App.step (App.Transport UseSocket.Held (UseSocket.connect_ev "s1"))
                      (App.step App.Connect App.initial)))) as (_ & _ & H).
    destruct (H (UseSocket.mkSocket false [UseSocket.create_session "s1"]))
      as (_ & _ & _ & _ & Hl).
    + apply (App.reachable_step (App.ChangeInput " What is success rate ")).
      do 2 apply App.reachable_step. apply App.reachable_initial.
    + reflexivity.
    + reflexivity.
    + reflexivity.
    + vm_compute. discriminate.
    + exact Hl.
Defined.

Section History.
Import App.

Lemma fire_appends (deadline : N) (t : nat * N) (st : state) :
  exists suffix, messages (fire deadline t st) = messages st ++ suffix.
Proof.
  unfold fire. destruct (existsb _ _ && _).
  - eexists. cbn. reflexivity.
  - exists []. now rewrite app_nil_r.
Qed.

Lemma fold_fire_appends (deadline : N) (ts : list (nat * N)) (st : state) :
  exists suffix,
    messages (fold_left (fun s t => fire deadline t s) ts st) = messages st ++ suffix.
Proof.
  revert st. induction ts as [|t ts IH]; intros st.
  - exists []. now rewrite app_nil_r.
  - cbn [fold_left]. destruct (IH (fire deadline t st)) as (s2 & ->).
    destruct (fire_appends deadline t st) as (s1 & ->).
    exists (s1 ++ s2). now rewrite app_assoc.
Qed.

Lemma clearPending_messages (st : state) : messages (clearPending st) = messages st.
Proof. now destruct (clearPending_rest st) as (_ & H & _). Qed.

Lemma handleSendMessage_appends (text : string) (st : state) :
  exists suffix, messages (handleSendMessage text st) = messages st ++ suffix.
Proof.
  unfold handleSendMessage.
  destruct (negb (truthy (VString (trim text))) || negb (UseSocket.isConnected (hook st))).
  - exists []. now rewrite app_nil_r.
  - unfold setTimeout.
    destruct (UseSocket.sendQuery text _) as [[|msg] h];
      cbn [appendMessage setIsLoading setRef setHook messages];
      rewrite ?clearPending_messages; cbn [setRef setHook messages];
      rewrite ?clearPending_messages; cbn; rewrite <- ?app_assoc; eauto.
Qed.

End History.

(** X18.  The history is only ever extended: every action on the
    controller except starting a new session leaves the messages already
    in it where they are, in the same order, and adds new ones at the end;
    starting a new session empties it. *)
Theorem history_is_append_only :
  forall (a : App.action) (st : App.state),
    match a with
    | App.NewSession _ => App.messages (App.step a st) = []
    | _ => exists suffix, App.messages (App.step a st) = App.messages st ++ suffix
    end.
Proof.
  assert (Hsame : forall st : App.state,
            exists suffix, App.messages st = App.messages st ++ suffix)
    by (intros st; exists []; now rewrite app_nil_r).
  intros a st. destruct a as [text|sid|dt|data|data| |o ev|v]; cbn [App.step];
    [| | | | | | |apply (Hsame st)].
  - apply handleSendMessage_appends.
  - reflexivity.
  - unfold App.advance. cbn [App.setNow App.messages].
    apply fold_fire_appends.
  - destruct (App.listening st); [|apply (Hsame st)].
    unfold App.handleQueryResponse. cbn.
    destruct (clearPending_rest st) as (_ & -> & _). eauto.
  - destruct (App.listening st); [|apply (Hsame st)].
    unfold App.handleQueryError. destruct data; cbn;
      destruct (clearPending_rest st) as (_ & -> & _); [eauto | apply (Hsame st)].
  - apply (Hsame st).
  - apply (Hsame st).
Qed.

(** ** Response display: the summary *)



(** ** Table renderer: which lines give a row *)

Section RowLines.

Lemma trim_blank (s : string) : dropStart isWhiteSpace s = "" -> trim s = "".
Proof. unfold trim. now intros ->. Qed.

Lemma trim_not_blank (s : string) : trim s = "" -> dropStart isWhiteSpace s = "".
Proof.
  unfold trim. pose proof (firstChar_dropStart isWhiteSpace s) as H.
  destruct (dropStart isWhiteSpace s) as [|c t]; [reflexivity|].
  cbn [dropEnd]. rewrite (H c eq_refl). discriminate.
Qed.

Lemma blank_pieces (sep : ascii) (s w : string) :
  dropStart isWhiteSpace s = "" -> In w (split sep s) -> dropStart isWhiteSpace w = "".
Proof.
  revert w. induction s as [|c s IH]; intros w Hs.
  - intros [<-|[]]. reflexivity.
  - cbn [dropStart] in Hs. destruct (isWhiteSpace c) eqn:Hc; [|discriminate].
    rewrite split_cons. pose proof (split_not_nil sep s) as Hn.
    destruct (Ascii.eqb c sep).
    + intros [<-|H]; [reflexivity | now apply IH].
    + destruct (split sep s) as [|x xs]; [contradiction|]. cbn [hd tl].
      intros [<-|H].
      * cbn [dropStart]. rewrite Hc. apply IH; [exact Hs | now left].
      * apply IH; [exact Hs | now right].
Qed.

Lemma blank_line_no_cells (line : string) :
  nonEmpty (trim line) = false -> pipeCells line = [].
Proof.
  intros H. apply nonEmpty_false, trim_not_blank in H.
  unfold pipeCells.
  assert (Hall : forall w, In w (map trim (split "|" line)) -> nonEmpty w = false).
  { intros w Hw. apply in_map_iff in Hw as (p & <- & Hp).
    apply nonEmpty_false, trim_blank. eapply blank_pieces; eauto. }
  induction (map trim (split "|" line)) as [|w ws IH]; [reflexivity|].
  cbn [List.filter]. rewrite (Hall w) by now left.
  apply IH. intros v Hv. apply Hall. now right.
Qed.

Lemma dataRow_cells (headers : list value) (index : nat) (line : string) :
  dataRow headers index line =
  if (0 <? length (pipeCells line))%nat
  then rowHtml headers (index, pipeCells line)
  else "".
Proof.
  unfold dataRow. destruct (nonEmpty (trim line)) eqn:E.
  - destruct (0 <? length (pipeCells line))%nat; [|reflexivity].
    unfold rowHtml. cbn [fst snd]. now rewrite rowValues_padTruncate.
  - now rewrite (blank_line_no_cells line E).
Qed.

Lemma emittedRows_filter (index : nat) (dataLines : list string) :
  emittedRows index dataLines =
  List.filter (fun row => (0 <? length (snd row))%nat)
    (map (fun il => (fst il, pipeCells (snd il))) (indexed index dataLines)).
Proof.
  revert index. induction dataLines as [|line rest IH]; intros index; [reflexivity|].
  cbn [emittedRows indexed map List.filter fst snd]. rewrite IH.
  destruct (nonEmpty (trim line)) eqn:E; cbn [andb].
  - reflexivity.
  - now rewrite (blank_line_no_cells line E).
Qed.

End RowLines.

(** X20.  A data line gives a table row exactly when it has at least one
    cell that is not blank; a line that is blank, or made of pipes and
    white space only, gives nothing.  The rows of the body are those of
    the lines with a cell, in the order of the lines, each under the
    position its line has among all data lines (so the position, which
    picks the striping class, also counts the lines that gave no row). *)
Theorem dataRows_by_line :
  (forall line : string, nonEmpty (trim line) = false -> pipeCells line = []) /\
  (forall (headers : list value) (index : nat) (line : string),
     dataRow headers index line =
     if (0 <? length (pipeCells line))%nat
     then trOpen index
          +:+ concat (map td (padTruncate (length headers) (pipeCells line)))
          +:+ "</tr>"
     else "") /\
  (forall (headers : list value) (index : nat) (dataLines : list string),
     dataRows headers index dataLines =
     concat
       (map (rowHtml headers)
          (List.filter (fun row => (0 <? length (snd row))%nat)
             (map (fun il => (fst il, pipeCells (snd il))) (indexed index dataLines))))).
Proof.
  split; [exact blank_line_no_cells|]. split.
  - intros headers index line. rewrite dataRow_cells. reflexivity.
  - intros headers index dataLines.
    now rewrite dataRows_emitted, emittedRows_filter.
Qed.

Lemma dataRows_by_line_witness :
  pipeCells (String nbsp " ") = [] /\
  dataRow [VString "A"; VString "B"] 3 " | |" = "" /\
  dataRow [VString "A"; VString "B"] 3 "1|2|3" = trOpen 3 +:+ td "1" +:+ td "2" +:+ "</tr>" /\
  dataRows [VString "A"; VString "B"] 0 ["1"; ""; "2|3"] =
    trOpen 0 +:+ td "1" +:+ td "" +:+ "</tr>" +:+ trOpen 2 +:+ td "2" +:+ td "3" +:+ "</tr>".
Proof.
  destruct dataRows_by_line as (Hblank & Hrow & Hrows).
  split; [apply Hblank; reflexivity|].
  split; [rewrite Hrow; vm_compute; reflexivity|].
  split; [rewrite Hrow; vm_compute; reflexivity|].
  rewrite Hrows. vm_compute. reflexivity.
Defined.
(** ** Text utilities: capitalisation *)

Section Capitalize.

Lemma caseMap_facts (c : ascii) :
  toLowerChar (toLowerChar c) = toLowerChar c /\
  isUpperAlpha (toLowerChar c) = false /\
  ((nat_of_ascii c =? 223)%nat = false ->
   exists d : ascii,
     toUpperUnits c = String d "" /\ toUpperUnits d = String d "" /\
     isLowerAlpha d = false).
Proof.
  destruct c as [[] [] [] [] [] [] [] []];
    (split; [reflexivity | split; [reflexivity|]]);
    intros H; try discriminate H; eexists; repeat split; reflexivity.
Qed.

Lemma mapChars_length (f : ascii -> ascii) (s : string) :
  String.length (mapChars f s) = String.length s.
Proof. induction s as [|c s IH]; cbn; [reflexivity | now rewrite IH]. Qed.

Lemma toLowerCase_idempotent (s : string) : toLowerCase (toLowerCase s) = toLowerCase s.
Proof.
  unfold toLowerCase. induction s as [|c s IH]; cbn [mapChars]; [reflexivity|].
  rewrite IH. f_equal. apply caseMap_facts.
Qed.

Lemma toLowerCase_no_upper (s : string) (c : ascii) :
  includes c (toLowerCase s) = true -> isUpperAlpha c = false.
Proof.
  unfold toLowerCase. induction s as [|d s IH]; cbn [mapChars includes]; [discriminate|].
  intros H. apply orb_true_iff in H as [H|H]; [|now apply IH].
  apply Ascii.eqb_eq in H. subst c. apply caseMap_facts.
Qed.

End Capitalize.

(** X21.  [capitalizeWord] of a word that does not start with the sharp s
    keeps the length of the word, leaves no lower-case letter in first
    place and no upper-case letter after it, and applied to its own result
    changes nothing.  A leading sharp s breaks both: it becomes [SS], one
    code unit more, and a second pass lowers the second [S].  The empty
    word and every value that is not a string give the empty word. *)
Theorem capitalizeWord_shape :
  (forall (c : ascii) (w : string),
     upperInRange c = true -> nat_of_ascii c <> 223%nat ->
     exists d : ascii,
       capitalizeWord (VString (String c w)) = String d (toLowerCase w) /\
       isLowerAlpha d = false /\
       String.length (toLowerCase w) = String.length w /\
       (forall x, includes x (toLowerCase w) = true -> isUpperAlpha x = false) /\
       capitalizeWord (VString (capitalizeWord (VString (String c w)))) =
         capitalizeWord (VString (String c w))) /\
  (capitalizeWord (VString (String (ascii_of_nat 223) "a")) = "SSa" /\
   capitalizeWord (VString "SSa") = "Ssa") /\
  (forall v : value, truthy v = false \/ isString v = false -> capitalizeWord v = "").
Proof.
  split; [|split].
  - intros c w _ Hc.
    destruct (caseMap_facts c) as (_ & _ & Hup).
    destruct Hup as (d & Hd & Hdd & Hlow); [now apply Nat.eqb_neq|].
    exists d.
    assert (Hcap : capitalizeWord (VString (String c w)) = String d (toLowerCase w)).
    { cbn [capitalizeWord String.eqb charAt0 slice1 toUpperCase].
      now rewrite Hd, append_nil_r, append_cons, append_nil_l. }
    split; [exact Hcap|]. split; [exact Hlow|].
    split; [apply mapChars_length|].
    split; [intros x; apply toLowerCase_no_upper|].
    rewrite Hcap. cbn [capitalizeWord String.eqb charAt0 slice1 toUpperCase].
    now rewrite Hdd, append_nil_r, append_cons, append_nil_l, toLowerCase_idempotent.
  - split; vm_compute; reflexivity.
  - intros v [H|H]; destruct v as [| |b|n|s|r]; try reflexivity; try discriminate.
    destruct s; [reflexivity | discriminate].
Qed.

Lemma capitalizeWord_shape_witness :
  exists d : ascii,
    capitalizeWord (VString "pAYMENT") = String d "ayment" /\ isLowerAlpha d = false.
Proof.
  destruct capitalizeWord_shape as (H & _).
  destruct (H "p"%char "AYMENT" eq_refl) as (d & Hd & Hlow & _).
  - vm_compute. lia.
  - exists d. split; [exact Hd | exact Hlow].
Defined.
